(** * CheckString: string and pointer misuse detectors of TscanCode

    A shallow embedding of [trunk/lib/checkstring.cpp].  The token list is an
    arena ([list Token]) addressed by index; a [const Token*] is a [TokPtr]
    ([None] is [nullptr]).  Detectors run in the [Outcome] monad: [Ret] is a
    normal return with the diagnostics handed to [reportError], in emission
    order; [NullDeref] is a member access through a null pointer; [OutOfFuel]
    is a loop that did not finish. *)

From Stdlib Require Import String Ascii List ZArith Lia Bool Arith PeanoNat.
Import ListNotations.

(** ** Data model *)

(** Modelled from the spec: [Token::Type] is declared outside this file.
    The kind tag of a token; the detectors test for [eVariable], [eNumber],
    [eString], [eChar] and [eComparisonOp]. *)
Inductive TokType : Type :=
| eVariable | eType | eFunction | eKeyword | eName
| eNumber | eString | eChar | eBoolean | eLiteral
| eArithmeticalOp | eComparisonOp | eAssignmentOp | eLogicalOp
| eBitOp | eIncDecOp | eExtendedOp | eBracket | eOther | eNone.

Definition TokType_eqb (x y : TokType) : bool :=
  match x, y with
  | eVariable, eVariable | eType, eType | eFunction, eFunction
  | eKeyword, eKeyword | eName, eName | eNumber, eNumber
  | eString, eString | eChar, eChar | eBoolean, eBoolean
  | eLiteral, eLiteral | eArithmeticalOp, eArithmeticalOp
  | eComparisonOp, eComparisonOp | eAssignmentOp, eAssignmentOp
  | eLogicalOp, eLogicalOp | eBitOp, eBitOp | eIncDecOp, eIncDecOp
  | eExtendedOp, eExtendedOp | eBracket, eBracket | eOther, eOther
  | eNone, eNone => true
  | _, _ => false
  end.

(** A [const Token*]: an index into the arena, or [nullptr]. *)
Definition TokPtr : Type := option nat.

(** Modelled from the spec: [Variable] is declared outside this file
    ([Variable_] here, the bare word being reserved).  The type facts of a
    resolved symbol that the detectors read: is-pointer, is-array and the
    first token of the declared type. *)
Record Variable_ : Type := mkVariable {
  isPointer : bool;
  isArray : bool;
  typeStartToken : TokPtr
}.

(** Modelled from the spec: [Variable::isArrayOrPointer]. *)
Definition isArrayOrPointer (v : Variable_) : bool :=
  isArray v || isPointer v.

(** Modelled from the spec: [Token] is declared outside this file.  One
    lexical unit: its text [str], kind tag, whether it is a name, the
    spelling it had before simplification, the id and the facts of the
    variable it is bound to (id 0: none), the link to the matching bracket,
    the AST operands and parent, and the values computed for it outside
    this file: [strValue] (the text of a string literal without its
    quotes), [getStrLength] (the length of a string literal),
    [expressionString] (the source text of the expression rooted here) and
    [getValueTokenMinStrSize] (the string literal its value may point to). *)
Record Token : Type := mkToken {
  str : string;
  tokType : TokType;
  isName : bool;
  originalName : string;
  varId : nat;
  variable : option Variable_;
  link : TokPtr;
  astOperand1 : TokPtr;
  astOperand2 : TokPtr;
  astParent : TokPtr;
  strValue : string;
  getStrLength : nat;
  expressionString : string;
  getValueTokenMinStrSize : TokPtr
}.

(** Modelled from the spec: [Scope] is declared outside this file.  A
    function body, from its opening brace [classStart] to its closing brace
    [classEnd].  Both are token pointers, held as indices into the token
    list: an index that is no token of the list is the null pointer. *)
Record Scope : Type := mkScope {
  classStart : nat;
  classEnd : nat
}.

(** Modelled from the spec: what the detectors read of [Tokenizer] and of
    its symbol database: the token list, the function scopes in declaration
    order, and whether the file is C. *)
Record Tokenizer : Type := mkTokenizer {
  tokens : list Token;
  functionScopes : list Scope;
  isC : bool
}.

(** Modelled from the spec: the query [Settings::isEnabled] on a diagnostic
    category. *)
Record Settings : Type := mkSettings {
  isEnabled : string -> bool
}.

Inductive Severity : Type := error | warning.
Inductive ErrorType : Type := ET_None | ET_Suspicious.

(** Modelled from the spec: [reportError] is defined outside this file and
    hands a finding to the diagnostic sink.  One call of it: the call stack
    of tokens, severity, error type, rule id, message and the text passed to
    [ErrorLogger::GenWebIdentity] (absent for the two error-severity rules). *)
Record Diagnostic : Type := mkDiagnostic {
  callstack : list nat;
  severity : Severity;
  errorType : ErrorType;
  id : string;
  msg : string;
  webIdentity : option string
}.

(** ** Outcome of running code that may dereference null or loop *)

Inductive Outcome (A : Type) : Type :=
| Ret (x : A)
| NullDeref
| OutOfFuel.

Arguments Ret {A} x.
Arguments NullDeref {A}.
Arguments OutOfFuel {A}.

Definition bind {A B : Type} (m : Outcome A) (f : A -> Outcome B) : Outcome B :=
  match m with
  | Ret x => f x
  | NullDeref => NullDeref
  | OutOfFuel => OutOfFuel
  end.

Notation "x <- m ;; k" := (bind m (fun x => k))
  (at level 61, m at next level, right associativity).

(** ** Moving over the arena *)

Section Arena.

Variable a : list Token.

Definition deref (p : TokPtr) : option Token :=
  match p with
  | Some i => nth_error a i
  | None => None
  end.

(** [p] with a dangling index read as [nullptr]. *)
Definition valid (p : TokPtr) : TokPtr :=
  match deref p with
  | Some _ => p
  | None => None
  end.

(** Modelled from the spec: [Token::next] and [Token::previous], the
    sequential traversal, for a token at index [i]. *)
Definition next (i : nat) : TokPtr := valid (Some (S i)).

Definition previous (i : nat) : TokPtr :=
  match i with
  | O => None
  | S j => valid (Some j)
  end.

(** Modelled from the spec: [Token::tokAt], [n] steps of [next] (or of
    [previous] when [n] is negative), null as soon as the list ends. *)
Definition tokAt (i : nat) (n : Z) : TokPtr :=
  let j := (Z.of_nat i + n)%Z in
  if (j <? 0)%Z then None else valid (Some (Z.to_nat j)).

(** Modelled from the spec: [Token::strAt], the text of [tokAt], empty
    when that is null. *)
Definition strAt (i : nat) (n : Z) : string :=
  match deref (tokAt i n) with
  | Some t => str t
  | None => EmptyString
  end.

(** Modelled from the spec: [Token::linkAt], the bracket link of [tokAt].
    Every call below follows a successful match that covers offset [n],
    which makes [tokAt] non-null there. *)
Definition linkAt (i : nat) (n : Z) : TokPtr :=
  match deref (tokAt i n) with
  | Some t => valid (link t)
  | None => None
  end.

Definition ptr_eqb (p q : TokPtr) : bool :=
  match p, q with
  | Some i, Some j => Nat.eqb i j
  | None, None => true
  | _, _ => false
  end.

End Arena.

(** ** Pattern matcher *)

(** Modelled from the spec: [Token::Match] and [Token::simpleMatch] are
    defined outside this file.  A pattern is a space-separated run of atoms
    matched against consecutive tokens: keyword alternatives [a|b|c], the
    wildcards [%var%] (a token bound to a variable, i.e. with a non-zero
    variable id), [%str%], [%num%], [%name%], [%oror%], [%varid%] (the given
    variable id), the negation [!!tok] (this token is not [tok]; also
    satisfied when no token is left) and a one-character set such as
    [[,)]].  Matching never moves the caller's cursor. *)
Inductive Alt : Type :=
| Lit (s : string)
| PVar | PStr | PNum | PName | POrOr | PVarId.

Inductive Atom : Type :=
| OneOf (alts : list Alt)
| NotTok (s : string)
| CharSet (cs : list ascii).

Fixpoint split_on (c : ascii) (s : string) : list string :=
  match s with
  | EmptyString => [EmptyString]
  | String x r =>
      if Ascii.eqb x c then EmptyString :: split_on c r
      else match split_on c r with
           | w :: ws => String x w :: ws
           | [] => [String x EmptyString]
           end
  end.

Definition nonempty (s : string) : bool :=
  match s with EmptyString => false | _ => true end.

(** The atoms of a pattern text: its words, each an alternative of
    keywords and wildcards, a negation or a character set. *)
Definition compile_alt (w : string) : Alt :=
  if (w =? "%var%")%string then PVar
  else if (w =? "%str%")%string then PStr
  else if (w =? "%num%")%string then PNum
  else if (w =? "%name%")%string then PName
  else if (w =? "%oror%")%string then POrOr
  else if (w =? "%varid%")%string then PVarId
  else Lit w.

Definition compile_atom (w : string) : Atom :=
  match w with
  | String "!" (String "!" (String c r)) => NotTok (String c r)
  | String "[" r =>
      if existsb (Ascii.eqb "]") (list_ascii_of_string r)
      then CharSet (filter (fun c => negb (Ascii.eqb c "]"))
                           (list_ascii_of_string r))
      else OneOf (map compile_alt (split_on "|" w))
  | _ => OneOf (map compile_alt (split_on "|" w))
  end.

Definition compile (pattern : string) : list Atom :=
  map compile_atom (filter nonempty (split_on " " pattern)).

Definition alt_matches (varid : nat) (t : Token) (x : Alt) : bool :=
  match x with
  | Lit s => (str t =? s)%string
  | PVar => negb (Nat.eqb (varId t) 0)
  | PStr => TokType_eqb (tokType t) eString
  | PNum => TokType_eqb (tokType t) eNumber
  | PName => isName t
  | POrOr => (str t =? "||")%string
  | PVarId => Nat.eqb (varId t) varid
  end.

Definition atom_matches (varid : nat) (t : Token) (x : Atom) : bool :=
  match x with
  | OneOf alts => existsb (alt_matches varid t) alts
  | NotTok s => negb (str t =? s)%string
  | CharSet cs =>
      match str t with
      | String c EmptyString => existsb (Ascii.eqb c) cs
      | _ => false
      end
  end.

Section Matching.

Variable a : list Token.

Fixpoint match_atoms (varid : nat) (p : TokPtr) (pat : list Atom) : bool :=
  match pat with
  | [] => true
  | x :: rest =>
      match p, deref a p with
      | Some i, Some t =>
          atom_matches varid t x && match_atoms varid (next a i) rest
      | _, _ =>
          match x with
          | NotTok _ => match_atoms varid None rest
          | _ => false
          end
      end
  end.

(** Modelled from the spec: [Token::Match(tok, pattern, varid)]. *)
Definition MatchId (p : TokPtr) (pattern : string) (varid : nat) : bool :=
  match_atoms varid p (compile pattern).

(** Modelled from the spec: [Token::Match(tok, pattern)] and
    [Token::simpleMatch(tok, pattern)]. *)
Definition Match (p : TokPtr) (pattern : string) : bool :=
  MatchId p pattern 0.

Definition simpleMatch (p : TokPtr) (pattern : string) : bool :=
  Match p pattern.

(** Modelled from the spec: [Token::nextArgument] is defined outside this
    file.  From a token inside an argument list it returns the first token
    of the next comma-delimited argument: it walks forward, jumps over a
    bracketed group through the opening bracket's link, returns the token
    after the first comma met, and returns null at a closing parenthesis or
    a semicolon (no further argument) or at the end of the list. *)
Fixpoint nextArgument_loop (fuel : nat) (p : TokPtr) : Outcome TokPtr :=
  match fuel with
  | O => OutOfFuel
  | S f =>
      match p, deref a p with
      | Some i, Some t =>
          if (str t =? ",")%string then Ret (next a i)
          else
            match valid a (link t) with
            | Some j =>
                if Match p "(|{|[|<" then nextArgument_loop f (next a j)
                else if Match p ")|;" then Ret None
                else nextArgument_loop f (next a i)
            | None =>
                if Match p ")|;" then Ret None
                else nextArgument_loop f (next a i)
            end
      | _, _ => Ret None
      end
  end.

(** The cursor is the loop's whole state, so a walk that has not ended
    after one step per token plus one never ends. *)
Definition nextArgument (p : TokPtr) : Outcome TokPtr :=
  match deref a p with
  | None => NullDeref
  | Some _ => nextArgument_loop (S (length a)) p
  end.

End Matching.

(** ** Literal display in messages *)

Definition dquote : string := String (ascii_of_nat 34) EmptyString.

(** [stringLiteralWriteError]: [if (s.size() > 15U) s = s.substr(0,13) + ".."]. *)
Definition stringLiteralWrite_display (s : string) : string :=
  if 15 <? String.length s then (substring 0 13 s ++ "..")%string else s.

(** [alwaysTrueFalseStringCompareError]: [const std::size_t stringLen = 10]
    and [(str.size() < stringLen) ? str : (str.substr(0, stringLen-2) + "..")]. *)
Definition stringLen : nat := 10.

Definition staticStringCompare_display (s : string) : string :=
  if String.length s <? stringLen then s
  else (substring 0 (stringLen - 2) s ++ "..")%string.

(** ** The detectors *)

Definition nl : string := String (ascii_of_nat 10) EmptyString.

(** [(int)slen] for a [std::size_t]: the value modulo 2^32, read as signed. *)
Definition to_int (z : Z) : Z :=
  ((z + 2 ^ 31) mod 2 ^ 32 - 2 ^ 31)%Z.

Section Detectors.

(** [MathLib::toLongNumber], defined outside this file. *)
Variable toLongNumber : string -> Z.

(** [_tokenizer] and [_settings]. *)
Variable tokenizer : Tokenizer.
Variable settings : Settings.

Local Abbreviation a := (tokens tokenizer).

(** A member access [p->...]: the token behind [p]. *)
Definition at_tok (p : TokPtr) : Outcome Token :=
  match deref a p with
  | Some t => Ret t
  | None => NullDeref
  end.

(** *** Scope walker *)

(** [for (tok = ...; tok != scope->classEnd; tok = tok->next())], where the
    body may move [tok] and hands back the cursor it ends on.  With a null
    [classEnd] the loop ends when [tok] runs off the list; with a [classEnd]
    that [tok] never meets, the body is entered with a null [tok].  The
    cursor is the loop's whole state, so [S (length a)] steps are enough for
    every run that ends. *)
Fixpoint scopeLoop (body : nat -> Token -> Outcome (list Diagnostic * TokPtr))
         (scopeEnd : nat) (fuel : nat) (tok : TokPtr)
  : Outcome (list Diagnostic) :=
  match fuel with
  | O => OutOfFuel
  | S f =>
      if ptr_eqb tok (valid a (Some scopeEnd)) then Ret []
      else
        match tok, deref a tok with
        | Some i, Some t =>
            r <- body i t ;;
            match valid a (snd r) with
            | Some j =>
                ds <- scopeLoop body scopeEnd f (next a j) ;;
                Ret (fst r ++ ds)
            | None => NullDeref
            end
        | _, _ => NullDeref
        end
  end.

(** A body that leaves the cursor where it is. *)
Definition keepCursor (body : nat -> Token -> Outcome (list Diagnostic))
  : nat -> Token -> Outcome (list Diagnostic * TokPtr) :=
  fun i t => ds <- body i t ;; Ret (ds, Some i).

(** One function scope: [tok = scope->classStart->next()] onwards. *)
Definition walkScope (body : nat -> Token -> Outcome (list Diagnostic * TokPtr))
           (scope : Scope) : Outcome (list Diagnostic) :=
  _ <- at_tok (Some (classStart scope)) ;;
  scopeLoop body (classEnd scope) (S (length a)) (next a (classStart scope)).

(** [for (i = 0; i < functions; ++i)] over [symbolDatabase->functionScopes]. *)
Fixpoint forScopes (run : Scope -> Outcome (list Diagnostic))
         (scopes : list Scope) : Outcome (list Diagnostic) :=
  match scopes with
  | [] => Ret []
  | s :: rest =>
      ds <- run s ;;
      ds' <- forScopes run rest ;;
      Ret (ds ++ ds')
  end.

Definition forFunctionScopes
           (body : nat -> Token -> Outcome (list Diagnostic * TokPtr))
  : Outcome (list Diagnostic) :=
  forScopes (walkScope body) (functionScopes tokenizer).

(** What a walk with an unmoved cursor amounts to: the bodies of the
    tokens in [l], one after the other. *)
Fixpoint visitAll (body : nat -> Token -> Outcome (list Diagnostic))
         (l : list nat) : Outcome (list Diagnostic) :=
  match l with
  | [] => Ret []
  | j :: rest =>
      t <- at_tok (Some j) ;;
      ds <- body j t ;;
      ds' <- visitAll body rest ;;
      Ret (ds ++ ds')
  end.

(** The tokens strictly between the braces of a scope; with a null closing
    brace, every token after the opening one. *)
Definition inScope (s : Scope) (j : nat) : Prop :=
  classStart s < j < classEnd s.

(** The tokens a walk of the scope stands on, in order: those after the
    opening brace, up to the closing brace or, when that is null, to the
    end of the list. *)
Definition tokensInScope (a : list Token) (s : Scope) : list nat :=
  seq (S (classStart s))
      (Nat.min (classEnd s) (length a) - S (classStart s)).

(** *** Writing string literal is UB *)

Definition stringLiteralWriteError (tok : nat) (strTok : TokPtr) : Diagnostic :=
  let stack :=
    tok :: match valid a strTok with Some j => [j] | None => [] end in
  let lit :=
    match deref a strTok with
    | Some s =>
        (" " ++ dquote ++ stringLiteralWrite_display (strValue s) ++ dquote)%string
    | None => EmptyString
    end in
  mkDiagnostic stack error ET_None "stringLiteralWrite"
    ("Modifying string literal" ++ lit
       ++ " directly or indirectly is undefined behaviour.")%string
    None.

Definition stringLiteralWrite_body (i : nat) (t : Token)
  : Outcome (list Diagnostic) :=
  match variable t with
  | None => Ret []
  | Some v =>
      if negb (isPointer v) then Ret []
      else
        match valid a (getValueTokenMinStrSize t) with
        | None => Ret []
        | Some s =>
            if Match a (Some i) "%var% [" && simpleMatch a (linkAt a i 1) "] ="
            then Ret [stringLiteralWriteError i (Some s)]
            else if Match a (previous a i) "* %var% ="
            then Ret [stringLiteralWriteError i (Some s)]
            else Ret []
        end
  end.

Definition stringLiteralWrite : Outcome (list Diagnostic) :=
  forFunctionScopes (keepCursor stringLiteralWrite_body).

(** *** Comparison of two static strings *)

Definition alwaysTrueFalseStringCompareError (tok : nat) (t : Token)
           (str1 str2 : string) : Diagnostic :=
  let string1 := staticStringCompare_display str1 in
  let string2 := staticStringCompare_display str2 in
  mkDiagnostic [tok] warning ET_None "staticStringCompare"
    ("Unnecessary comparison of static strings." ++ nl
       ++ "The compared strings, '" ++ string1 ++ "' and '" ++ string2
       ++ "', are always "
       ++ (if (str1 =? str2)%string then "identical" else "unequal") ++ ". "
       ++ "Therefore the comparison is unnecessary and looks suspicious.")%string
    (Some (str t)).

Definition alwaysTrueStringVariableCompareError (tok : nat) (t : Token)
           (str1 str2 : string) : Diagnostic :=
  mkDiagnostic [tok] warning ET_None "stringCompare"
    ("Comparison of identical string variables." ++ nl
       ++ "The compared strings, '" ++ str1 ++ "' and '" ++ str2
       ++ "', are identical. "
       ++ "This could be a logic bug.")%string
    (Some (str t)).

Definition compareFunctions : string :=
  "memcmp|strncmp|strcmp|stricmp|strverscmp|bcmp|strcmpi|strcasecmp|strncasecmp|strncasecmp_l|strcasecmp_l|wcsncasecmp|wcscasecmp|wmemcmp|wcscmp|wcscasecmp_l|wcsncasecmp_l|wcsncmp|_mbscmp|_memicmp|_memicmp_l|_stricmp|_wcsicmp|_mbsicmp|_stricmp_l|_wcsicmp_l|_mbsicmp_l (".

(** The body of the scan loop: the diagnostics of this step and the cursor
    it leaves (the loop then breaks on null, or moves to the next token). *)
Definition alwaysTrueOrFalse_step (i : nat) (t : Token)
  : list Diagnostic * TokPtr :=
  if isName t && Match a (Some i) compareFunctions then
    if Match a (tokAt a i 2) "%str% , %str% ,|)" then
      ([alwaysTrueFalseStringCompareError i t (strAt a i 2) (strAt a i 4)],
       tokAt a i 5)
    else if Match a (tokAt a i 2) "%name% , %name% ,|)" then
      ((if (strAt a i 2 =? strAt a i 4)%string
        then [alwaysTrueStringVariableCompareError i t (strAt a i 2) (strAt a i 4)]
        else []),
       tokAt a i 5)
    else if Match a (tokAt a i 2) "%name% . c_str ( ) , %name% . c_str ( ) ,|)" then
      ((if (strAt a i 2 =? strAt a i 8)%string
        then [alwaysTrueStringVariableCompareError i t (strAt a i 2) (strAt a i 8)]
        else []),
       tokAt a i 13)
    else ([], Some i)
  else if isName t && Match a (Some i) "QString :: compare ( %str% , %str% )" then
    ([alwaysTrueFalseStringCompareError i t (strAt a i 4) (strAt a i 6)],
     tokAt a i 7)
  else if Match a (Some i) "!!+ %str% ==|!= %str% !!+" then
    ([alwaysTrueFalseStringCompareError i t (strAt a i 1) (strAt a i 3)],
     tokAt a i 5)
  else ([], Some i).

(** [for (tok = _tokenizer->tokens(); tok; tok = tok->next())] with the
    [if (!tok) break;] at the end of the body. *)
Fixpoint alwaysTrueOrFalse_loop (fuel : nat) (tok : TokPtr)
  : Outcome (list Diagnostic) :=
  match fuel with
  | O => OutOfFuel
  | S f =>
      match tok, deref a tok with
      | Some i, Some t =>
          let r := alwaysTrueOrFalse_step i t in
          match snd r with
          | None => Ret (fst r)
          | Some j =>
              ds <- alwaysTrueOrFalse_loop f (next a j) ;;
              Ret (fst r ++ ds)
          end
      | _, _ => Ret []
      end
  end.

Definition checkAlwaysTrueOrFalseStringCompare : Outcome (list Diagnostic) :=
  if negb (isEnabled settings "warning") then Ret []
  else alwaysTrueOrFalse_loop (S (length a)) (valid a (Some 0)).

(** *** Suspicious comparison of a pointer with a literal *)

Definition suspiciousStringCompareError (tok : nat) (t : Token)
           (var : string) : Diagnostic :=
  mkDiagnostic [tok] warning ET_None "literalWithCharPtrCompare"
    ("String literal compared with variable '" ++ var
       ++ "'. Did you intend to use strcmp() instead?")%string
    (Some (str t)).

Definition suspiciousStringCompareError_char (tok : nat) (t : Token)
           (var : string) : Diagnostic :=
  mkDiagnostic [tok] warning ET_None "charLiteralWithCharPtrCompare"
    ("Char literal compared with pointer '" ++ var
       ++ "'. Did you intend to dereference it?")%string
    (Some (str t)).

Definition isMemberAccess (t : Token) : bool :=
  (str t =? ".")%string || (str t =? "::")%string.

(** [while (t && (t->str() == "." || t->str() == "::")) t = t->astOperand2();] *)
Fixpoint skipMemberAccess (fuel : nat) (p : TokPtr) : Outcome TokPtr :=
  match fuel with
  | O => OutOfFuel
  | S f =>
      match deref a p with
      | Some t =>
          if isMemberAccess t then skipMemberAccess f (astOperand2 t)
          else Ret p
      | None => Ret None
      end
  end.

(** [while (Token::Match(varTok->astParent(), "[.*]")) varTok = varTok->astParent();] *)
Fixpoint climbParents (fuel : nat) (i : nat) : Outcome nat :=
  match fuel with
  | O => OutOfFuel
  | S f =>
      t <- at_tok (Some i) ;;
      match valid a (astParent t) with
      | Some j =>
          if Match a (Some j) "[.*]" then climbParents f j else Ret i
      | None => Ret i
      end
  end.

Definition isPointerVariable (p : TokPtr) : bool :=
  match deref a p with
  | Some t =>
      match variable t with
      | Some v => isPointer v
      | None => false
      end
  | None => false
  end.

Definition isStringOrNumber (t : Token) : bool :=
  TokType_eqb (tokType t) eString || TokType_eqb (tokType t) eNumber.

(** The [Pointer addition?] block: both operands of the [+] are taken
    first, then each in turn may replace [varTok]. *)
Definition pointerAddition (varTok : nat) (plus : Token) : Outcome nat :=
  t0 <- skipMemberAccess (S (length a)) (astOperand1 plus) ;;
  t1 <- skipMemberAccess (S (length a)) (astOperand2 plus) ;;
  let v0 := match t0 with
            | Some j => if isPointerVariable t0 then j else varTok
            | None => varTok
            end in
  Ret match t1 with
      | Some j => if isPointerVariable t1 then j else v0
      | None => v0
      end.

(** From [const Variable *var = varTok->variable();] to the end of the body. *)
Definition suspicious_report (tok : nat) (t : Token) (litTok : Token)
           (varTok : nat) (vt : Token) : Outcome (list Diagnostic) :=
  let var := variable vt in
  top <- climbParents (S (length a)) varTok ;;
  topTok <- at_tok (Some top) ;;
  let varname := expressionString topTok in
  if TokType_eqb (tokType litTok) eString then
    if isC tokenizer
       || match var with Some v => isArrayOrPointer v | None => false end
    then Ret [suspiciousStringCompareError tok t varname]
    else Ret []
  else if (originalName litTok =? "'\0'")%string
          && match var with Some v => isPointer v | None => false end
  then Ret [suspiciousStringCompareError_char tok t varname]
  else Ret [].

(** From [if (varTok->str() == "*")] on, [varTok] being non-null. *)
Definition suspicious_deref (tok : nat) (t : Token) (litTok : Token)
           (varTok : nat) : Outcome (list Diagnostic) :=
  vt <- at_tok (Some varTok) ;;
  let go (p : TokPtr) : Outcome (list Diagnostic) :=
    q <- skipMemberAccess (S (length a)) p ;;
    match q, deref a q with
    | Some j, Some qt =>
        if negb (isName qt) then Ret []
        else suspicious_report tok t litTok j qt
    | _, _ => Ret []
    end in
  if (str vt =? "*")%string then
    if negb (isC tokenizer)
       || match deref a (astOperand2 vt) with Some _ => true | None => false end
       || negb (TokType_eqb (tokType litTok) eString)
    then Ret []
    else go (astOperand1 vt)
  else go (Some varTok).

Definition checkSuspiciousStringCompare_body (i : nat) (t : Token)
  : Outcome (list Diagnostic) :=
  if negb (TokType_eqb (tokType t) eComparisonOp) then Ret []
  else
    match valid a (astOperand1 t), valid a (astOperand2 t) with
    | Some op1, Some op2 =>
        t1 <- at_tok (Some op1) ;;
        t2 <- at_tok (Some op2) ;;
        let roles :=
          if isStringOrNumber t1 then Some (op2, t2, t1)
          else if negb (isStringOrNumber t2) then None
          else Some (op1, t1, t2) in
        match roles with
        | None => Ret []
        | Some (varTok, vt, litTok) =>
            varTok' <- (if (str vt =? "+")%string && isC tokenizer
                        then pointerAddition varTok vt
                        else Ret varTok) ;;
            suspicious_deref i t litTok varTok'
        end
    | _, _ => Ret []
    end.

Definition checkSuspiciousStringCompare : Outcome (list Diagnostic) :=
  if negb (isEnabled settings "warning") then Ret []
  else forFunctionScopes (keepCursor checkSuspiciousStringCompare_body).

(** *** Adding C-string and char with operator+ *)

Definition strPlusCharError (tok : nat) (t : Token) : Diagnostic :=
  mkDiagnostic [tok] warning ET_Suspicious "strPlusChar"
    "Unusual pointer arithmetic. A value of type 'char' is added to a string literal."
    (Some (str t)).

Definition strPlusIntegerError (tok : nat) (t : Token) : Diagnostic :=
  mkDiagnostic [tok] warning ET_Suspicious "strPlusInteger"
    "Unusual pointer arithmetic. A value of type 'interger' is added to a string literal."
    (Some (str t)).

(** [static bool isChar(const Variable* var)], the conjunction evaluated
    left to right. *)
Definition isChar (var : option Variable_) : Outcome bool :=
  match var with
  | None => Ret false
  | Some v =>
      if isPointer v then Ret false
      else if isArray v then Ret false
      else
        ts <- at_tok (typeStartToken v) ;;
        if negb (str ts =? "char")%string then Ret false
        else
          ts' <- at_tok (typeStartToken v) ;;
          Ret (originalName ts' =? "")%string
  end.

Definition strPlusChar_body (i : nat) (t : Token) : Outcome (list Diagnostic) :=
  match (str t =? "+")%string, deref a (astOperand1 t) with
  | true, Some op1 =>
      if TokType_eqb (tokType op1) eString then
        match deref a (astOperand2 t) with
        | Some op2 =>
            if TokType_eqb (tokType op2) eChar
            then Ret [strPlusCharError i t]
            else
              c <- isChar (variable op2) ;;
              if c then Ret [strPlusCharError i t] else Ret []
        | None => Ret []
        end
      else if TokType_eqb (tokType op1) eVariable then
        match variable op1 with
        | None => Ret []
        | Some varTok =>
            if negb (isPointer varTok) then Ret []
            else if isArray varTok then Ret []
            else
              ts <- at_tok (typeStartToken varTok) ;;
              if negb (str ts =? "char")%string then Ret []
              else
                op2 <- at_tok (astOperand2 t) ;;
                c <- isChar (variable op2) ;;
                if c then Ret [strPlusCharError i t] else Ret []
        end
      else Ret []
  | _, _ => Ret []
  end.

Definition strPlusChar : Outcome (list Diagnostic) :=
  forFunctionScopes (keepCursor strPlusChar_body).

Definition strPlusInteger_body (i : nat) (t : Token)
  : Outcome (list Diagnostic) :=
  match (str t =? "+")%string, deref a (astOperand1 t) with
  | true, Some op1 =>
      if TokType_eqb (tokType op1) eString then
        match deref a (astOperand2 t) with
        | Some op2 =>
            if TokType_eqb (tokType op2) eNumber
            then Ret [strPlusIntegerError i t]
            else Ret []
        | None => Ret []
        end
      else Ret []
  | _, _ => Ret []
  end.

Definition strPlusInteger : Outcome (list Diagnostic) :=
  forFunctionScopes (keepCursor strPlusInteger_body).

(** *** Overlapping source and destination passed to sprintf() *)

Definition sprintfOverlappingDataError (tok : nat) (t : Token)
           (varname : string) : Diagnostic :=
  mkDiagnostic [tok] error ET_None "sprintfOverlappingData"
    ("Undefined behavior: Variable '" ++ varname
       ++ "' is used as parameter and destination in s[n]printf()." ++ nl
       ++ "The variable '" ++ varname
       ++ "' is used both as a parameter and as destination in "
       ++ "s[n]printf(). The origin and destination buffers overlap. Quote from glibc (C-library) "
       ++ "documentation (http://www.gnu.org/software/libc/manual/html_mono/libc.html#Formatted-Output-Functions): "
       ++ dquote
       ++ "If copying takes place between objects that overlap as a result of a call "
       ++ "to sprintf() or snprintf(), the results are undefined." ++ dquote)%string
    (Some (str t)).

(** [do { if (Token::Match(tok2, "%varid% [,)]", varid)) { ...; break; } }
     while (nullptr != (tok2 = tok2->nextArgument()));]
    [varid] is never 0 here: it is read from a token matched by [%var%]. *)
Fixpoint overlapScan (fuel : nat) (varid : nat) (tok2 : TokPtr)
  : Outcome (list Diagnostic) :=
  match fuel with
  | O => OutOfFuel
  | S f =>
      match MatchId a tok2 "%varid% [,)]" varid, tok2, deref a tok2 with
      | true, Some j, Some t2 =>
          Ret [sprintfOverlappingDataError j t2 (str t2)]
      | _, _, _ =>
          n <- nextArgument a tok2 ;;
          match n with
          | Some _ => overlapScan f varid n
          | None => Ret []
          end
      end
  end.

Definition sprintfOverlappingData_body (i : nat) (t : Token)
  : Outcome (list Diagnostic) :=
  let scan (varid : nat) : Outcome (list Diagnostic) :=
    tok2 <- nextArgument a (tokAt a i 2) ;;
    if (str t =? "snprintf")%string || (str t =? "swprintf")%string then
      tok2' <- nextArgument a tok2 ;;
      match tok2' with
      | None => Ret []
      | Some _ => overlapScan (S (length a)) varid tok2'
      end
    else overlapScan (S (length a)) varid tok2 in
  if Match a (Some i) "sprintf|snprintf|swprintf ( %var% ," then
    arg <- at_tok (tokAt a i 2) ;;
    scan (varId arg)
  else if Match a (Some i) "sprintf|snprintf|swprintf ( %name% . %var% ," then
    arg <- at_tok (tokAt a i 4) ;;
    scan (varId arg)
  else Ret [].

Definition sprintfOverlappingData : Outcome (list Diagnostic) :=
  forFunctionScopes (keepCursor sprintfOverlappingData_body).

(** *** Comparing a string literal with a substring of another length;
        string literals used as booleans *)

Definition incorrectStringCompareError (tok : TokPtr) (func : string)
           (string_ : string) : Outcome (list Diagnostic) :=
  match tok, deref a tok with
  | Some j, Some t =>
      Ret [mkDiagnostic [j] warning ET_None "incorrectStringCompare"
             ("String literal " ++ string_
                ++ " doesn't match length argument for " ++ func ++ "().")%string
             (Some (str t))]
  | _, _ => NullDeref
  end.

Definition incorrectStringBooleanError (tok : TokPtr) (string_ : string)
  : Outcome (list Diagnostic) :=
  match tok, deref a tok with
  | Some j, Some t =>
      Ret [mkDiagnostic [j] warning ET_None "incorrectStringBooleanError"
             ("Conversion of string literal " ++ string_
                ++ " to bool always evaluates to true.")%string
             (Some (str t))]
  | _, _ => NullDeref
  end.

(** [s.find(word) == s.size() - 6U], under [s.size() >= 6U]. *)
Definition endsWithFirst (word s : string) : bool :=
  match index 0 word s with
  | Some k => Nat.eqb k (String.length s - 6)
  | None => false
  end.

(** The [skip "assert(str && ..)" and "assert(.. && str)"] step: the cursor
    after it.  [tok->next()->link()->tokAt(-2)] goes through the link of the
    opening parenthesis. *)
Definition skipAssert (i : nat) (t : Token) : Outcome TokPtr :=
  if (6 <=? String.length (str t))
     && (endsWithFirst "assert" (str t) || endsWithFirst "ASSERT" (str t))
     && Match a (Some i) "%name% ("
  then
    paren <- at_tok (next a i) ;;
    if Match a (tokAt a i 2) "%str% &&" then Ret (valid a (link paren))
    else
      match valid a (link paren) with
      | None => NullDeref
      | Some l =>
          if Match a (tokAt a l (-2)) "&& %str% )" then Ret (Some l)
          else Ret (Some i)
      end
  else Ret (Some i).

(** [while (begin->link() && Token::Match(begin, "]|)|>"))
      begin = begin->link()->previous();] *)
Fixpoint skipBracketsBack (fuel : nat) (begin : TokPtr) : Outcome TokPtr :=
  match fuel with
  | O => OutOfFuel
  | S f =>
      b <- at_tok begin ;;
      match valid a (link b) with
      | Some l =>
          if Match a begin "]|)|>" then skipBracketsBack f (previous a l)
          else Ret begin
      | None => Ret begin
      end
  end.

(** The [for (;;)] that finds the start of the statement. *)
Fixpoint findStatementStart (fuel : nat) (begin : TokPtr) : Outcome TokPtr :=
  match fuel with
  | O => OutOfFuel
  | S f =>
      b <- skipBracketsBack (S (length a)) begin ;;
      match b with
      | Some j =>
          if Match a (previous a j) ".|::"
          then findStatementStart f (tokAt a j (-2))
          else Ret b
      | None => NullDeref
      end
  end.

(** The body of the [. substr (] branch, at a cursor [i] where the two
    matches of its condition succeeded. *)
Definition substrCompare (i : nat) : Outcome (list Diagnostic) :=
  close <- at_tok (linkAt a i 2) ;;
  let closeAt := match linkAt a i 2 with Some c => c | None => 0 end in
  let clen := toLongNumber (strAt a closeAt (-1)) in
  begin0 <- findStatementStart (S (length a)) (previous a i) ;;
  b0 <- at_tok begin0 ;;
  let begin := match begin0 with Some j => previous a j | None => None end in
  let end_ := next a closeAt in
  _ <- at_tok begin ;;
  let bi := match begin with Some j => j | None => 0 end in
  if Match a (previous a bi) "%str% ==|!="
     && negb (strAt a bi (-2) =? "+")%string
  then
    lit <- at_tok (previous a bi) ;;
    let slen := getStrLength lit in
    if negb (clen =? to_int (Z.of_nat slen))%Z
    then incorrectStringCompareError (next a i) "substr" (strAt a bi (-1))
    else Ret []
  else if Match a end_ "==|!= %str% !!+" then
    e <- at_tok end_ ;;
    let ei := match end_ with Some j => j | None => 0 end in
    lit <- at_tok (next a ei) ;;
    let slen := getStrLength lit in
    if negb (clen =? to_int (Z.of_nat slen))%Z
    then incorrectStringCompareError (next a i) "substr" (strAt a ei 1)
    else Ret []
  else Ret [].

(** The loop body from the [. substr (] test on, at the cursor [p] left by
    the assert step. *)
Definition incorrectCompare_at (p : TokPtr) : Outcome (list Diagnostic) :=
  match p with
  | None => Ret []
  | Some i =>
      if simpleMatch a p ". substr (" then
        arg <- at_tok (tokAt a i 3) ;;
        len <- nextArgument a (tokAt a i 3) ;;
        if Match a len "%num% )" then substrCompare i
        else if Match a p "&&|%oror%|( %str% &&|%oror%|)"
                && negb (Match a p "( %str% )")
        then incorrectStringBooleanError (next a i) (strAt a i 1)
        else if Match a p "if|while ( %str% )"
        then incorrectStringBooleanError (tokAt a i 2) (strAt a i 2)
        else Ret []
      else if Match a p "&&|%oror%|( %str% &&|%oror%|)"
              && negb (Match a p "( %str% )")
      then incorrectStringBooleanError (next a i) (strAt a i 1)
      else if Match a p "if|while ( %str% )"
      then incorrectStringBooleanError (tokAt a i 2) (strAt a i 2)
      else Ret []
  end.

Definition checkIncorrectStringCompare_body (i : nat) (t : Token)
  : Outcome (list Diagnostic * TokPtr) :=
  p <- skipAssert i t ;;
  ds <- incorrectCompare_at p ;;
  Ret (ds, p).

Definition checkIncorrectStringCompare : Outcome (list Diagnostic) :=
  if negb (isEnabled settings "warning") then Ret []
  else forFunctionScopes checkIncorrectStringCompare_body.

(** *** The seven detectors *)

Inductive Detector : Type :=
| D_stringLiteralWrite
| D_checkAlwaysTrueOrFalseStringCompare
| D_checkSuspiciousStringCompare
| D_strPlusChar
| D_strPlusInteger
| D_checkIncorrectStringCompare
| D_sprintfOverlappingData.

Definition runDetector (d : Detector) : Outcome (list Diagnostic) :=
  match d with
  | D_stringLiteralWrite => stringLiteralWrite
  | D_checkAlwaysTrueOrFalseStringCompare => checkAlwaysTrueOrFalseStringCompare
  | D_checkSuspiciousStringCompare => checkSuspiciousStringCompare
  | D_strPlusChar => strPlusChar
  | D_strPlusInteger => strPlusInteger
  | D_checkIncorrectStringCompare => checkIncorrectStringCompare
  | D_sprintfOverlappingData => sprintfOverlappingData
  end.

(** The loop body of the detectors that walk the function scopes;
    [checkAlwaysTrueOrFalseStringCompare] walks the whole token list
    instead. *)
Definition scopeBody (d : Detector)
  : option (nat -> Token -> Outcome (list Diagnostic * TokPtr)) :=
  match d with
  | D_stringLiteralWrite => Some (keepCursor stringLiteralWrite_body)
  | D_checkAlwaysTrueOrFalseStringCompare => None
  | D_checkSuspiciousStringCompare =>
      Some (keepCursor checkSuspiciousStringCompare_body)
  | D_strPlusChar => Some (keepCursor strPlusChar_body)
  | D_strPlusInteger => Some (keepCursor strPlusInteger_body)
  | D_checkIncorrectStringCompare => Some checkIncorrectStringCompare_body
  | D_sprintfOverlappingData => Some (keepCursor sprintfOverlappingData_body)
  end.

End Detectors.

(** ** Vocabulary of the statements *)

(** The two AST operands of [t], in either order. *)
Definition operands (t : Token) (x y : nat) : Prop :=
  (astOperand1 t = Some x /\ astOperand2 t = Some y)
  \/ (astOperand1 t = Some y /\ astOperand2 t = Some x).

(** The null-character literal: the tokenizer turns it into a number token
    that keeps ['\0'] as its original name. *)
Definition isNullCharLiteral (t : Token) : Prop :=
  tokType t = eNumber /\ originalName t = "'\0'"%string.

(** A name token of a pointer-typed variable. *)
Definition isPointerName (t : Token) : Prop :=
  tokType t = eVariable /\ isName t = true
  /\ (exists var, variable t = Some var /\ isPointer var = true)
  /\ str t <> "+"%string /\ str t <> "*"%string
  /\ str t <> "."%string /\ str t <> "::"%string.

(** A dereference operator token: a unary [*]. *)
Definition isDereference (t : Token) (operand : nat) : Prop :=
  str t = "*"%string /\ tokType t = eArithmeticalOp
  /\ astOperand1 t = Some operand /\ astOperand2 t = None.

(** A variable token of type pointer to [char] (not an array): what line
    242 of the source asks of the left operand. *)
Definition isCharPointerVariable (a : list Token) (t : Token) : Prop :=
  tokType t = eVariable
  /\ exists v ts,
      variable t = Some v /\ isPointer v = true /\ isArray v = false
      /\ deref a (typeStartToken v) = Some ts /\ str ts = "char"%string.

(** A token of a variable of plain [char] type: [isChar] of the source. *)
Definition isCharVariable (a : list Token) (t : Token) : Prop :=
  exists v ts,
    variable t = Some v /\ isPointer v = false /\ isArray v = false
    /\ deref a (typeStartToken v) = Some ts /\ str ts = "char"%string
    /\ originalName ts = EmptyString.

(** A character literal: a token of kind [eChar], bound to no variable. *)
Definition isCharLiteral (t : Token) : Prop :=
  tokType t = eChar /\ variable t = None.


Definition gatedDetectors : list Detector :=
  [ D_checkAlwaysTrueOrFalseStringCompare;
    D_checkSuspiciousStringCompare;
    D_checkIncorrectStringCompare ].


(** The detectors whose findings are located at the loop cursor. *)
Definition cursorAnchored : list Detector :=
  [ D_stringLiteralWrite; D_checkSuspiciousStringCompare;
    D_strPlusChar; D_strPlusInteger ].

(** The detectors whose loop leaves the cursor where it is. *)
Definition cursorKeeping : list Detector :=
  cursorAnchored ++ [ D_sprintfOverlappingData ].

(** Going back over bracketed groups: from the token [p], as long as the
    token is a closing [\]], [)] or [>] with a link, go to the token before
    the one it is linked to.  [bracketsSkipped a k p b] says that after [k]
    such groups the token [b] is reached, which is no linked closing
    bracket. *)
Inductive bracketsSkipped (a : list Token) : nat -> TokPtr -> nat -> Prop :=
| skipped_none (j : nat) (t : Token) :
    nth_error a j = Some t ->
    valid a (link t) = None \/ Match a (Some j) "]|)|>" = false ->
    bracketsSkipped a 0 (Some j) j
| skipped_group (k j l b : nat) (t : Token) :
    nth_error a j = Some t ->
    valid a (link t) = Some l ->
    Match a (Some j) "]|)|>" = true ->
    bracketsSkipped a k (previous a l) b ->
    bracketsSkipped a (S k) (Some j) b.

(** The first token of a postfix expression, found from its last token
    [p]: go back over the bracketed groups; while the token reached follows
    a [.] or a [::], go on from the token before that operator.
    [expressionStart a m p b] says that after [m] member accesses the token
    [b] is reached, which follows neither [.] nor [::]. *)
Inductive expressionStart (a : list Token) : nat -> TokPtr -> nat -> Prop :=
| start_found (k : nat) (p : TokPtr) (b : nat) :
    bracketsSkipped a k p b ->
    Match a (previous a b) ".|::" = false ->
    expressionStart a 0 p b
| start_member (k m : nat) (p : TokPtr) (j b : nat) :
    bracketsSkipped a k p j ->
    Match a (previous a j) ".|::" = true ->
    expressionStart a m (tokAt a j (-2)) b ->
    expressionStart a (S m) p b.

Definition expressionStartsAt (a : list Token) (p : TokPtr) (b : nat) : Prop :=
  exists m, expressionStart a m p b.

(** The cursor [i] stands on the [.] of [expr . substr ( pos , len )]: the
    second argument is the number token [n] followed by the closing
    parenthesis [S n] that the opening one links to, and [b] is the first
    token of [expr], whose last token stands before the [.]. *)
Definition substrCall (tokenizer : Tokenizer) (i n b : nat) : Prop :=
  simpleMatch (tokens tokenizer) (Some i) ". substr (" = true
  /\ nextArgument (tokens tokenizer) (tokAt (tokens tokenizer) i 3)
     = Ret (Some n)
  /\ Match (tokens tokenizer) (Some n) "%num% )" = true
  /\ linkAt (tokens tokenizer) i 2 = Some (S n)
  /\ expressionStartsAt (tokens tokenizer) (previous (tokens tokenizer) i) b.

(** The test of line 318: the token before [e] is a string literal, [e] is
    [==] or [!=], and the literal is not preceded by [+]. *)
Definition leftLiteralCompared (a : list Token) (e : nat) : bool :=
  Match a (previous a e) "%str% ==|!="
  && negb (strAt a e (-2) =? "+")%string.

(** The test of line 323: after the call come [==] or [!=] and a string
    literal that is not followed by [+]. *)
Definition rightLiteralCompared (a : list Token) (close : nat) : bool :=
  Match a (next a close) "==|!= %str% !!+".

(** The finding of [incorrectStringCompareError] for the [substr] token at
    [j] and the literal text [lit]. *)
Definition substrMismatch (j : nat) (lit : string) : Diagnostic :=
  mkDiagnostic [j] warning ET_None "incorrectStringCompare"
    ("String literal " ++ lit
       ++ " doesn't match length argument for substr().")%string
    (Some "substr"%string).

(** The overlap scan from the argument [p] on, argument by argument:
    [scanRuns a varid k p r] says that after [k] moves to a next argument
    the scan stops, either on the argument [j] ([r = Some j]), the first one
    that is the bare token of variable [varid] followed by a comma or a
    closing parenthesis, or because no argument is left ([r = None]). *)
Inductive scanRuns (a : list Token) (varid : nat)
  : nat -> TokPtr -> option nat -> Prop :=
| scan_found (j : nat) :
    MatchId a (Some j) "%varid% [,)]" varid = true ->
    scanRuns a varid 0 (Some j) (Some j)
| scan_end (p : TokPtr) :
    MatchId a p "%varid% [,)]" varid = false ->
    nextArgument a p = Ret None ->
    scanRuns a varid 0 p None
| scan_step (k : nat) (p : TokPtr) (p' : nat) (r : option nat) :
    MatchId a p "%varid% [,)]" varid = false ->
    nextArgument a p = Ret (Some p') ->
    scanRuns a varid k (Some p') r ->
    scanRuns a varid (S k) p r.

Definition scanFinds (a : list Token) (varid : nat) (start : TokPtr)
           (j : nat) : Prop :=
  exists k, scanRuns a varid k start (Some j).

Definition scanEnds (a : list Token) (varid : nat) (start : TokPtr) : Prop :=
  exists k, scanRuns a varid k start None.

(** The cursor [i] stands on a call of [sprintf], [snprintf] or [swprintf]
    whose destination, [dest] or [obj . dest], has variable id [varid]. *)
Definition sprintfCall (a : list Token) (i : nat) (varid : nat) : Prop :=
  (Match a (Some i) "sprintf|snprintf|swprintf ( %var% ," = true
   /\ exists dt, deref a (tokAt a i 2) = Some dt /\ varId dt = varid)
  \/ (Match a (Some i) "sprintf|snprintf|swprintf ( %var% ," = false
      /\ Match a (Some i) "sprintf|snprintf|swprintf ( %name% . %var% ," = true
      /\ exists dt, deref a (tokAt a i 4) = Some dt /\ varId dt = varid).

(** Where the scan of the call at [i] starts: at the argument after the
    destination, and for [snprintf] and [swprintf] at the one after that. *)
Definition scanStart (a : list Token) (i : nat) (t : Token)
           (start : TokPtr) : Prop :=
  exists second,
    nextArgument a (tokAt a i 2) = Ret second
    /\ if (str t =? "snprintf")%string || (str t =? "swprintf")%string
       then exists s, nextArgument a second = Ret (Some s) /\ start = Some s
       else start = second.

(** ** Token lists used as concrete inputs *)

Module Examples.

Definition q (s : string) : string := (dquote ++ s ++ dquote)%string.

Definition T_op (s : string) : Token :=
  mkToken s eOther false "" 0 None None None None None "" 0 s None.

Definition T_kind (ty : TokType) (s : string) : Token :=
  mkToken s ty false "" 0 None None None None None "" 0 s None.

Definition T_name (s : string) : Token :=
  mkToken s eName true "" 0 None None None None None "" 0 s None.

Definition T_var (s : string) (vid : nat) (v : Variable_) : Token :=
  mkToken s eVariable true "" vid (Some v) None None None None "" 0 s None.

Definition T_str (s : string) : Token :=
  mkToken (q s) eString false "" 0 None None None None None s
          (String.length s) (q s) None.

Definition T_num (s : string) : Token :=
  mkToken s eNumber false "" 0 None None None None None "" 0 s None.

Definition with_link (l : nat) (t : Token) : Token :=
  mkToken (str t) (tokType t) (isName t) (originalName t) (varId t)
          (variable t) (Some l) (astOperand1 t) (astOperand2 t) (astParent t)
          (strValue t) (getStrLength t) (expressionString t)
          (getValueTokenMinStrSize t).

Definition with_ast (parent op1 op2 : TokPtr) (t : Token) : Token :=
  mkToken (str t) (tokType t) (isName t) (originalName t) (varId t)
          (variable t) (link t) op1 op2 parent
          (strValue t) (getStrLength t) (expressionString t)
          (getValueTokenMinStrSize t).

Definition with_originalName (o : string) (t : Token) : Token :=
  mkToken (str t) (tokType t) (isName t) o (varId t)
          (variable t) (link t) (astOperand1 t) (astOperand2 t) (astParent t)
          (strValue t) (getStrLength t) (expressionString t)
          (getValueTokenMinStrSize t).

Definition with_expr (e : string) (t : Token) : Token :=
  mkToken (str t) (tokType t) (isName t) (originalName t) (varId t)
          (variable t) (link t) (astOperand1 t) (astOperand2 t) (astParent t)
          (strValue t) (getStrLength t) e
          (getValueTokenMinStrSize t).

Definition with_value (v : TokPtr) (t : Token) : Token :=
  mkToken (str t) (tokType t) (isName t) (originalName t) (varId t)
          (variable t) (link t) (astOperand1 t) (astOperand2 t) (astParent t)
          (strValue t) (getStrLength t) (expressionString t) v.

Definition warningsOn : Settings := mkSettings (fun _ => true).

(** A decimal reading of [MathLib::toLongNumber], enough for the inputs
    below. *)
Fixpoint decimal (acc : Z) (s : string) : Z :=
  match s with
  | EmptyString => acc
  | String c r => decimal (acc * 10 + Z.of_nat (nat_of_ascii c - 48))%Z r
  end.

Definition toLong (s : string) : Z := decimal 0 s.

(** [char *p], declared by the tokens at index 3 to 5 of the lists below. *)
Definition charPtr : Variable_ := mkVariable true false (Some 3).

(** [void f ( char * p ) { if ( * p == '\0' ) { } }], the character
    literal simplified to the number [0] that keeps its original spelling. *)
Definition derefCompare : Tokenizer :=
  mkTokenizer
    [ T_kind eType "void"; T_name "f"; with_link 6 (T_op "(");
      T_kind eType "char"; T_op "*"; T_var "p" 1 charPtr;
      with_link 2 (T_op ")"); with_link 17 (T_op "{");
      T_kind eKeyword "if";
      with_ast None (Some 8) (Some 12) (with_link 14 (T_op "("));
      with_ast (Some 12) (Some 11) None (with_expr "*p" (T_kind eArithmeticalOp "*"));
      with_ast (Some 10) None None (T_var "p" 1 charPtr);
      with_ast (Some 9) (Some 10) (Some 13) (T_kind eComparisonOp "==");
      with_ast (Some 12) None None (with_originalName "'\0'" (T_num "0"));
      with_link 9 (T_op ")"); with_link 16 (T_op "{");
      with_link 15 (T_op "}"); with_link 7 (T_op "}") ]
    [ mkScope 7 17 ] true.

(** [void f ( char * p ) { if ( p == '\0' ) { } }]. *)
Definition pointerCompare : Tokenizer :=
  mkTokenizer
    [ T_kind eType "void"; T_name "f"; with_link 6 (T_op "(");
      T_kind eType "char"; T_op "*"; T_var "p" 1 charPtr;
      with_link 2 (T_op ")"); with_link 16 (T_op "{");
      T_kind eKeyword "if";
      with_ast None (Some 8) (Some 11) (with_link 13 (T_op "("));
      with_ast (Some 11) None None (T_var "p" 1 charPtr);
      with_ast (Some 9) (Some 10) (Some 12) (T_kind eComparisonOp "==");
      with_ast (Some 11) None None (with_originalName "'\0'" (T_num "0"));
      with_link 9 (T_op ")"); with_link 15 (T_op "{");
      with_link 14 (T_op "}"); with_link 7 (T_op "}") ]
    [ mkScope 7 16 ] true.

(** [void f ( char * p ) { p + 'a' ; }]. *)
Definition pointerPlusCharLiteral : Tokenizer :=
  mkTokenizer
    [ T_kind eType "void"; T_name "f"; with_link 6 (T_op "(");
      T_kind eType "char"; T_op "*"; T_var "p" 1 charPtr;
      with_link 2 (T_op ")"); with_link 12 (T_op "{");
      with_ast (Some 9) None None (T_var "p" 1 charPtr);
      with_ast None (Some 8) (Some 10) (T_kind eArithmeticalOp "+");
      with_ast (Some 9) None None (T_kind eChar "'a'");
      T_op ";"; with_link 7 (T_op "}") ]
    [ mkScope 7 12 ] false.

(** [char c], declared by the tokens at index 7 and 8 of the next list. *)
Definition plainChar : Variable_ := mkVariable false false (Some 7).

(** [void f ( char * p , char c ) { p + c ; }]. *)
Definition pointerPlusCharVariable : Tokenizer :=
  mkTokenizer
    [ T_kind eType "void"; T_name "f"; with_link 9 (T_op "(");
      T_kind eType "char"; T_op "*"; T_var "p" 1 charPtr; T_op ",";
      T_kind eType "char"; T_var "c" 2 plainChar;
      with_link 2 (T_op ")"); with_link 15 (T_op "{");
      with_ast (Some 12) None None (T_var "p" 1 charPtr);
      with_ast None (Some 11) (Some 13) (T_kind eArithmeticalOp "+");
      with_ast (Some 12) None None (T_var "c" 2 plainChar);
      T_op ";"; with_link 10 (T_op "}") ]
    [ mkScope 10 15 ] false.

(** [void f ( char * p ) { + p ; }]: a unary plus has one operand only. *)
Definition unaryPlus : Tokenizer :=
  mkTokenizer
    [ T_kind eType "void"; T_name "f"; with_link 6 (T_op "(");
      T_kind eType "char"; T_op "*"; T_var "p" 1 charPtr;
      with_link 2 (T_op ")"); with_link 11 (T_op "{");
      with_ast None (Some 9) None (T_kind eArithmeticalOp "+");
      with_ast (Some 8) None None (T_var "p" 1 charPtr);
      T_op ";"; with_link 7 (T_op "}") ]
    [ mkScope 7 11 ] false.

(** [void f ( ) { "abc" + ; }] as a partial AST leaves it: the [+] has a
    string literal on the left and nothing on the right. *)
Definition literalPlusNothing : Tokenizer :=
  mkTokenizer
    [ T_kind eType "void"; T_name "f"; with_link 3 (T_op "(");
      with_link 2 (T_op ")"); with_link 8 (T_op "{");
      with_ast (Some 6) None None (T_str "abc");
      with_ast None (Some 5) None (T_kind eArithmeticalOp "+");
      T_op ";"; with_link 4 (T_op "}") ]
    [ mkScope 4 8 ] false.

(** [void f ( ) { "abc" + 1 ; }]. *)
Definition literalPlusNumber : Tokenizer :=
  mkTokenizer
    [ T_kind eType "void"; T_name "f"; with_link 3 (T_op "(");
      with_link 2 (T_op ")"); with_link 9 (T_op "{");
      with_ast (Some 6) None None (T_str "abc");
      with_ast None (Some 5) (Some 7) (T_kind eArithmeticalOp "+");
      with_ast (Some 6) None None (T_num "1");
      T_op ";"; with_link 4 (T_op "}") ]
    [ mkScope 4 9 ] false.

(** [void f ( ) { char * p = "abc" ; p [ 0 ] = 0 ; }]: at the write, the
    value of [p] is known to be the literal at index 9. *)
Definition writeLiteral : Tokenizer :=
  mkTokenizer
    [ T_kind eType "void"; T_name "f"; with_link 3 (T_op "(");
      with_link 2 (T_op ")"); with_link 18 (T_op "{");
      T_kind eType "char"; T_op "*"; T_var "p" 1 (mkVariable true false (Some 5));
      T_kind eAssignmentOp "="; T_str "abc"; T_op ";";
      with_value (Some 9) (T_var "p" 1 (mkVariable true false (Some 5)));
      with_link 14 (T_op "["); T_num "0"; with_link 12 (T_op "]");
      T_kind eAssignmentOp "="; T_num "0"; T_op ";";
      with_link 4 (T_op "}") ]
    [ mkScope 4 18 ] false.

Definition bufPtr : Variable_ := mkVariable true false (Some 3).
Definition otherPtr : Variable_ := mkVariable true false (Some 7).

(** [void f ( char * buf ) { sprintf ( buf , "%s" , buf ) ; }]. *)
Definition sprintfSelf : Tokenizer :=
  mkTokenizer
    [ T_kind eType "void"; T_name "f"; with_link 6 (T_op "(");
      T_kind eType "char"; T_op "*"; T_var "buf" 1 bufPtr;
      with_link 2 (T_op ")"); with_link 17 (T_op "{");
      T_name "sprintf"; with_link 15 (T_op "(");
      T_var "buf" 1 bufPtr; T_op ","; T_str "%s"; T_op ",";
      T_var "buf" 1 bufPtr; with_link 9 (T_op ")"); T_op ";";
      with_link 7 (T_op "}") ]
    [ mkScope 7 17 ] true.

(** [void f ( char * buf , char * other ) { sprintf ( buf , "%s" , other ) ; }]. *)
Definition sprintfOther : Tokenizer :=
  mkTokenizer
    [ T_kind eType "void"; T_name "f"; with_link 10 (T_op "(");
      T_kind eType "char"; T_op "*"; T_var "buf" 1 bufPtr; T_op ",";
      T_kind eType "char"; T_op "*"; T_var "other" 2 otherPtr;
      with_link 2 (T_op ")"); with_link 21 (T_op "{");
      T_name "sprintf"; with_link 19 (T_op "(");
      T_var "buf" 1 bufPtr; T_op ","; T_str "%s"; T_op ",";
      T_var "other" 2 otherPtr; with_link 13 (T_op ")"); T_op ";";
      with_link 11 (T_op "}") ]
    [ mkScope 11 21 ] true.

Definition intVar : Variable_ := mkVariable false false (Some 7).

(** [void f ( char * buf , int n ) { snprintf ( buf , n , "%s" , buf ) ; }]. *)
Definition snprintfSelf : Tokenizer :=
  mkTokenizer
    [ T_kind eType "void"; T_name "f"; with_link 9 (T_op "(");
      T_kind eType "char"; T_op "*"; T_var "buf" 1 bufPtr; T_op ",";
      T_kind eType "int"; T_var "n" 2 intVar;
      with_link 2 (T_op ")"); with_link 22 (T_op "{");
      T_name "snprintf"; with_link 20 (T_op "(");
      T_var "buf" 1 bufPtr; T_op ","; T_var "n" 2 intVar; T_op ",";
      T_str "%s"; T_op ","; T_var "buf" 1 bufPtr;
      with_link 12 (T_op ")"); T_op ";";
      with_link 10 (T_op "}") ]
    [ mkScope 10 22 ] true.

(** [void f ( char * buf , int n ) { sprintf ( buf , buf , n ) ; }]: the
    destination is also the format string. *)
Definition sprintfFormat : Tokenizer :=
  mkTokenizer
    [ T_kind eType "void"; T_name "f"; with_link 9 (T_op "(");
      T_kind eType "char"; T_op "*"; T_var "buf" 1 bufPtr; T_op ",";
      T_kind eType "int"; T_var "n" 2 intVar;
      with_link 2 (T_op ")"); with_link 20 (T_op "{");
      T_name "sprintf"; with_link 18 (T_op "(");
      T_var "buf" 1 bufPtr; T_op ","; T_var "buf" 1 bufPtr; T_op ",";
      T_var "n" 2 intVar; with_link 12 (T_op ")"); T_op ";";
      with_link 10 (T_op "}") ]
    [ mkScope 10 20 ] true.

(** [int x = strcmp ( "a" , "b" ) ;] at file level, and no function. *)
Definition globalCompare : Tokenizer :=
  mkTokenizer
    [ T_kind eType "int"; T_var "x" 1 (mkVariable false false (Some 0));
      T_kind eAssignmentOp "="; T_name "strcmp"; with_link 8 (T_op "(");
      T_str "a"; T_op ","; T_str "b"; with_link 4 (T_op ")"); T_op ";" ]
    [] true.

(** [void f ( ) { }]. *)
Definition emptyFunction : Tokenizer :=
  mkTokenizer
    [ T_kind eType "void"; T_name "f"; with_link 3 (T_op "(");
      with_link 2 (T_op ")"); with_link 5 (T_op "{"); with_link 4 (T_op "}") ]
    [ mkScope 4 5 ] true.

(** [void f ( ) { if ( "a" == "b" && strcmp ( "x" , "y" ) ) { } }]. *)
Definition compareThenCall : Tokenizer :=
  mkTokenizer
    [ T_kind eType "void"; T_name "f"; with_link 3 (T_op "(");
      with_link 2 (T_op ")"); with_link 20 (T_op "{");
      T_kind eKeyword "if"; with_link 17 (T_op "(");
      T_str "a"; T_kind eComparisonOp "=="; T_str "b";
      T_kind eLogicalOp "&&";
      T_name "strcmp"; with_link 16 (T_op "(");
      T_str "x"; T_op ","; T_str "y"; with_link 12 (T_op ")");
      with_link 6 (T_op ")"); with_link 19 (T_op "{");
      with_link 18 (T_op "}"); with_link 4 (T_op "}") ]
    [ mkScope 4 20 ] true.

(** [void f ( ) { if ( strcmp ( "x" , "y" ) ) { } }]. *)
Definition callAlone : Tokenizer :=
  mkTokenizer
    [ T_kind eType "void"; T_name "f"; with_link 3 (T_op "(");
      with_link 2 (T_op ")"); with_link 16 (T_op "{");
      T_kind eKeyword "if"; with_link 13 (T_op "(");
      T_name "strcmp"; with_link 12 (T_op "(");
      T_str "x"; T_op ","; T_str "y"; with_link 8 (T_op ")");
      with_link 6 (T_op ")"); with_link 15 (T_op "{");
      with_link 14 (T_op "}"); with_link 4 (T_op "}") ]
    [ mkScope 4 16 ] true.

(** [void f ( ) { s . substr ( 0 , 3 ) == lit ; }] for a literal [lit]. *)
Definition substrRight (lit : string) : Tokenizer :=
  mkTokenizer
    [ T_kind eType "void"; T_name "f"; with_link 3 (T_op "(");
      with_link 2 (T_op ")"); with_link 16 (T_op "{");
      T_name "s"; T_op "."; T_name "substr"; with_link 12 (T_op "(");
      T_num "0"; T_op ","; T_num "3"; with_link 8 (T_op ")");
      T_kind eComparisonOp "=="; T_str lit; T_op ";";
      with_link 4 (T_op "}") ]
    [ mkScope 4 16 ] false.

(** [void f ( ) { lit == s . substr ( 0 , 3 ) ; }]. *)
Definition substrLeft (lit : string) : Tokenizer :=
  mkTokenizer
    [ T_kind eType "void"; T_name "f"; with_link 3 (T_op "(");
      with_link 2 (T_op ")"); with_link 16 (T_op "{");
      T_str lit; T_kind eComparisonOp "==";
      T_name "s"; T_op "."; T_name "substr"; with_link 14 (T_op "(");
      T_num "0"; T_op ","; T_num "3"; with_link 10 (T_op ")");
      T_op ";"; with_link 4 (T_op "}") ]
    [ mkScope 4 16 ] false.

(** [void f ( ) { x + "ab" == s . substr ( 0 , 3 ) ; }]. *)
Definition substrLeftPlus : Tokenizer :=
  mkTokenizer
    [ T_kind eType "void"; T_name "f"; with_link 3 (T_op "(");
      with_link 2 (T_op ")"); with_link 18 (T_op "{");
      T_name "x"; T_kind eArithmeticalOp "+";
      T_str "ab"; T_kind eComparisonOp "==";
      T_name "s"; T_op "."; T_name "substr"; with_link 16 (T_op "(");
      T_num "0"; T_op ","; T_num "3"; with_link 12 (T_op ")");
      T_op ";"; with_link 4 (T_op "}") ]
    [ mkScope 4 18 ] false.

(** [void f ( ) { s . substr ( 0 , 3 ) == "ab" + x ; }]. *)
Definition substrRightPlus : Tokenizer :=
  mkTokenizer
    [ T_kind eType "void"; T_name "f"; with_link 3 (T_op "(");
      with_link 2 (T_op ")"); with_link 18 (T_op "{");
      T_name "s"; T_op "."; T_name "substr"; with_link 12 (T_op "(");
      T_num "0"; T_op ","; T_num "3"; with_link 8 (T_op ")");
      T_kind eComparisonOp "=="; T_str "ab";
      T_kind eArithmeticalOp "+"; T_name "x";
      T_op ";"; with_link 4 (T_op "}") ]
    [ mkScope 4 18 ] false.

(** [void f ( ) { assert ( "msg" && s . substr ( 0 , 3 ) == "xy" ) ; }]. *)
Definition substrInAssert : Tokenizer :=
  mkTokenizer
    [ T_kind eType "void"; T_name "f"; with_link 3 (T_op "(");
      with_link 2 (T_op ")"); with_link 21 (T_op "{");
      T_name "assert"; with_link 19 (T_op "(");
      T_str "msg"; T_kind eLogicalOp "&&";
      T_name "s"; T_op "."; T_name "substr"; with_link 16 (T_op "(");
      T_num "0"; T_op ","; T_num "3"; with_link 12 (T_op ")");
      T_kind eComparisonOp "=="; T_str "xy";
      with_link 6 (T_op ")"); T_op ";"; with_link 4 (T_op "}") ]
    [ mkScope 4 21 ] false.

(** [void f ( ) { "xy" != a . b ( 1 ) . substr ( 0 , 3 ) ; }]. *)
Definition substrOfCall : Tokenizer :=
  mkTokenizer
    [ T_kind eType "void"; T_name "f"; with_link 3 (T_op "(");
      with_link 2 (T_op ")"); with_link 21 (T_op "{");
      T_str "xy"; T_kind eComparisonOp "!=";
      T_name "a"; T_op "."; T_name "b"; with_link 12 (T_op "(");
      T_num "1"; with_link 10 (T_op ")");
      T_op "."; T_name "substr"; with_link 19 (T_op "(");
      T_num "0"; T_op ","; T_num "3"; with_link 15 (T_op ")");
      T_op ";"; with_link 4 (T_op "}") ]
    [ mkScope 4 21 ] false.

(** [void f ( ) { x + "ab" == s . substr ( 0 , 3 ) == "xy" ; }]. *)
Definition substrLeftPlusThenRight : Tokenizer :=
  mkTokenizer
    [ T_kind eType "void"; T_name "f"; with_link 3 (T_op "(");
      with_link 2 (T_op ")"); with_link 20 (T_op "{");
      T_name "x"; T_kind eArithmeticalOp "+";
      T_str "ab"; T_kind eComparisonOp "==";
      T_name "s"; T_op "."; T_name "substr"; with_link 16 (T_op "(");
      T_num "0"; T_op ","; T_num "3"; with_link 12 (T_op ")");
      T_kind eComparisonOp "=="; T_str "xy";
      T_op ";"; with_link 4 (T_op "}") ]
    [ mkScope 4 20 ] false.

(** [void f ( ) { "xy" == s . substr ( 0 , 3 ) == "abcd" + x ; }]. *)
Definition substrLeftThenRightPlus : Tokenizer :=
  mkTokenizer
    [ T_kind eType "void"; T_name "f"; with_link 3 (T_op "(");
      with_link 2 (T_op ")"); with_link 20 (T_op "{");
      T_str "xy"; T_kind eComparisonOp "==";
      T_name "s"; T_op "."; T_name "substr"; with_link 14 (T_op "(");
      T_num "0"; T_op ","; T_num "3"; with_link 10 (T_op ")");
      T_kind eComparisonOp "=="; T_str "abcd";
      T_kind eArithmeticalOp "+"; T_name "x";
      T_op ";"; with_link 4 (T_op "}") ]
    [ mkScope 4 20 ] false.

End Examples.

(** ** Further vocabulary *)

(** The tokens the scan of [checkAlwaysTrueOrFalseStringCompare] stands on:
    the first token of the list, and after a step at [j] that leaves the
    cursor on [k], the token after [k]. *)
Inductive scanReaches (tokenizer : Tokenizer) : nat -> Prop :=
| reaches_first (t : Token) :
    nth_error (tokens tokenizer) 0 = Some t -> scanReaches tokenizer 0
| reaches_next (j k : nat) (t : Token) :
    scanReaches tokenizer j ->
    nth_error (tokens tokenizer) j = Some t ->
    snd (alwaysTrueOrFalse_step tokenizer j t) = Some k ->
    S k < length (tokens tokenizer) ->
    scanReaches tokenizer (S k).

(** A string-literal token; its text opens with a quote, so it is neither
    [(] nor [::]. *)
Definition isStringLiteralToken (t : Token) : Prop :=
  tokType t = eString /\ str t <> "("%string /\ str t <> "::"%string.

(** A name token that is no literal and no operator: the expression side
    of a comparison once member accesses are descended. *)
Definition isPlainName (t : Token) : Prop :=
  isName t = true /\ tokType t <> eString /\ tokType t <> eNumber
  /\ str t <> "+"%string /\ str t <> "*"%string
  /\ str t <> "."%string /\ str t <> "::"%string.

(** The variable of [t] is an array or a pointer. *)
Definition hasArrayOrPointerVariable (t : Token) : bool :=
  match variable t with
  | Some v => isArrayOrPointer v
  | None => false
  end.

(** A function scope a walk gets through: its opening brace is a token of
    the list, and its closing brace is null or a token after the opening
    one. *)
Definition wellFormedScope (tokenizer : Tokenizer) (s : Scope) : Prop :=
  classStart s < length (tokens tokenizer)
  /\ (classEnd s < length (tokens tokenizer) -> classStart s < classEnd s).

(** The findings of the step of a cursor-keeping walk at the token [j]. *)
Definition stepFindings (a : list Token)
           (body : nat -> Token -> Outcome (list Diagnostic)) (j : nat)
  : list Diagnostic :=
  match nth_error a j with
  | Some t => match body j t with Ret bs => bs | _ => [] end
  | None => []
  end.

(** The findings [found] gives token by token, listed scope by scope in
    the order of the function scopes, and in each scope in the order of
    the tokens the walk stands on. *)
Definition scopeByScope (tokenizer : Tokenizer)
           (found : nat -> list Diagnostic) : list Diagnostic :=
  flat_map (fun s => flat_map found (tokensInScope (tokens tokenizer) s))
           (functionScopes tokenizer).

(** The [+] token [t] has a string literal as left operand and a number as
    right operand. *)
Definition literalPlusNumberAt (a : list Token) (t : Token) : Prop :=
  str t = "+"%string
  /\ (exists lt, deref a (astOperand1 t) = Some lt /\ tokType lt = eString)
  /\ (exists rt, deref a (astOperand2 t) = Some rt /\ tokType rt = eNumber).

(** The token at [j] is bound to a pointer variable whose value is known to
    be the string literal at [lit], and it is written through: it is
    followed by an index in brackets and [=], or it follows [*] and is
    followed by [=]. *)
Definition literalWrittenAt (a : list Token) (j : nat) (t : Token)
           (lit : nat) : Prop :=
  (exists v, variable t = Some v /\ isPointer v = true)
  /\ valid a (getValueTokenMinStrSize t) = Some lit
  /\ ((Match a (Some j) "%var% [" = true
       /\ simpleMatch a (linkAt a j 1) "] =" = true)
      \/ Match a (previous a j) "* %var% =" = true).

(** The name test of the assert step: the text has at least six
    characters and its first [assert] or [ASSERT] is its end. *)
Definition assertLike (t : Token) : bool :=
  (6 <=? String.length (str t))
  && (endsWithFirst "assert" (str t) || endsWithFirst "ASSERT" (str t)).

(** No token strictly between [from] and [i] has an assert-like name. *)
Definition noAssertBetween (a : list Token) (from i : nat) : Prop :=
  forall j t, from < j < i -> nth_error a j = Some t -> assertLike t = false.

(** The finding of [incorrectStringBooleanError] for the literal token at
    [j] with text [lit]. *)
Definition literalAsBoolean (j : nat) (lit : string) : Diagnostic :=
  mkDiagnostic [j] warning ET_None "incorrectStringBooleanError"
    ("Conversion of string literal " ++ lit
       ++ " to bool always evaluates to true.")%string
    (Some lit).

(** Every opening parenthesis is linked to a token after it. *)
Definition parenthesesLinkForward (a : list Token) : Prop :=
  forall j t l,
    nth_error a j = Some t -> str t = "("%string -> link t = Some l -> j < l.

(** No function scope of the list overlaps the scope [s]. *)
Definition scopesApart (s : Scope) (scopes : list Scope) : Prop :=
  forall s', In s' scopes ->
             s' = s \/ classEnd s' <= classStart s
             \/ classEnd s <= classStart s'.

(** ** Further token lists *)

Module MoreExamples.

Import Examples.

(** [void f ( ) { strcmp ( a , a ) ; }]. *)
Definition compareSameVariable : Tokenizer :=
  mkTokenizer
    [ T_kind eType "void"; T_name "f"; with_link 3 (T_op "(");
      with_link 2 (T_op ")"); with_link 12 (T_op "{");
      T_name "strcmp"; with_link 10 (T_op "(");
      T_name "a"; T_op ","; T_name "a"; with_link 6 (T_op ")");
      T_op ";"; with_link 4 (T_op "}") ]
    [ mkScope 4 12 ] true.

(** [void f ( ) { strcmp ( a , b ) ; }]. *)
Definition compareOtherVariable : Tokenizer :=
  mkTokenizer
    [ T_kind eType "void"; T_name "f"; with_link 3 (T_op "(");
      with_link 2 (T_op ")"); with_link 12 (T_op "{");
      T_name "strcmp"; with_link 10 (T_op "(");
      T_name "a"; T_op ","; T_name "b"; with_link 6 (T_op ")");
      T_op ";"; with_link 4 (T_op "}") ]
    [ mkScope 4 12 ] true.

(** [void f ( ) { x = "a" == "a" ; }]. *)
Definition literalEquality : Tokenizer :=
  mkTokenizer
    [ T_kind eType "void"; T_name "f"; with_link 3 (T_op "(");
      with_link 2 (T_op ")"); with_link 11 (T_op "{");
      T_name "x"; T_kind eAssignmentOp "=";
      T_str "a"; T_kind eComparisonOp "=="; T_str "a";
      T_op ";"; with_link 4 (T_op "}") ]
    [ mkScope 4 11 ] true.

(** [void f ( ) { x = s + "a" == "a" ; }]. *)
Definition literalEqualityAfterPlus : Tokenizer :=
  mkTokenizer
    [ T_kind eType "void"; T_name "f"; with_link 3 (T_op "(");
      with_link 2 (T_op ")"); with_link 13 (T_op "{");
      T_name "x"; T_kind eAssignmentOp "=";
      T_name "s"; T_kind eArithmeticalOp "+";
      T_str "a"; T_kind eComparisonOp "=="; T_str "a";
      T_op ";"; with_link 4 (T_op "}") ]
    [ mkScope 4 13 ] true.

(** [void f ( char * p ) { if ( p == "abc" ) { } }], in C or in C++. *)
Definition pointerLiteralCompare (c : bool) : Tokenizer :=
  mkTokenizer
    [ T_kind eType "void"; T_name "f"; with_link 6 (T_op "(");
      T_kind eType "char"; T_op "*"; T_var "p" 1 charPtr;
      with_link 2 (T_op ")"); with_link 16 (T_op "{");
      T_kind eKeyword "if";
      with_ast None (Some 8) (Some 11) (with_link 13 (T_op "("));
      with_ast (Some 11) None None (T_var "p" 1 charPtr);
      with_ast (Some 9) (Some 10) (Some 12) (T_kind eComparisonOp "==");
      with_ast (Some 11) None None (T_str "abc");
      with_link 9 (T_op ")"); with_link 15 (T_op "{");
      with_link 14 (T_op "}"); with_link 7 (T_op "}") ]
    [ mkScope 7 16 ] c.

(** [std::string s], declared by the token at index 3 of the next list. *)
Definition stringObject : Variable_ := mkVariable false false (Some 3).

(** [void f ( string s ) { if ( s == "abc" ) { } }], in C++. *)
Definition objectLiteralCompare : Tokenizer :=
  mkTokenizer
    [ T_kind eType "void"; T_name "f"; with_link 5 (T_op "(");
      T_kind eType "string"; T_var "s" 1 stringObject;
      with_link 2 (T_op ")"); with_link 15 (T_op "{");
      T_kind eKeyword "if";
      with_ast None (Some 7) (Some 10) (with_link 12 (T_op "("));
      with_ast (Some 10) None None (T_var "s" 1 stringObject);
      with_ast (Some 8) (Some 9) (Some 11) (T_kind eComparisonOp "==");
      with_ast (Some 10) None None (T_str "abc");
      with_link 8 (T_op ")"); with_link 14 (T_op "{");
      with_link 13 (T_op "}"); with_link 6 (T_op "}") ]
    [ mkScope 6 15 ] false.

(** [void f ( char * p ) { if ( * p == "abc" ) { } }], in C or in C++. *)
Definition derefLiteralCompare (c : bool) : Tokenizer :=
  mkTokenizer
    [ T_kind eType "void"; T_name "f"; with_link 6 (T_op "(");
      T_kind eType "char"; T_op "*"; T_var "p" 1 charPtr;
      with_link 2 (T_op ")"); with_link 17 (T_op "{");
      T_kind eKeyword "if";
      with_ast None (Some 8) (Some 12) (with_link 14 (T_op "("));
      with_ast (Some 12) (Some 11) None (with_expr "*p" (T_kind eArithmeticalOp "*"));
      with_ast (Some 10) None None (T_var "p" 1 charPtr);
      with_ast (Some 9) (Some 10) (Some 13) (T_kind eComparisonOp "==");
      with_ast (Some 12) None None (T_str "abc");
      with_link 9 (T_op ")"); with_link 16 (T_op "{");
      with_link 15 (T_op "}"); with_link 7 (T_op "}") ]
    [ mkScope 7 17 ] c.

(** [void f ( ) { "abc" + 'a' ; }]. *)
Definition literalPlusCharLiteral : Tokenizer :=
  mkTokenizer
    [ T_kind eType "void"; T_name "f"; with_link 3 (T_op "(");
      with_link 2 (T_op ")"); with_link 9 (T_op "{");
      with_ast (Some 6) None None (T_str "abc");
      with_ast None (Some 5) (Some 7) (T_kind eArithmeticalOp "+");
      with_ast (Some 6) None None (T_kind eChar "'a'");
      T_op ";"; with_link 4 (T_op "}") ]
    [ mkScope 4 9 ] false.

(** The same tokens with a function scope whose closing brace is given as
    its opening one. *)
Definition scopeWithoutEnd : Tokenizer :=
  mkTokenizer (tokens literalPlusCharLiteral) [ mkScope 4 4 ] false.

(** [void f ( ) { "abc" + 1 ; }] with a function scope whose closing brace
    is null, and then with that scope listed twice. *)
Definition scopeWithNullEnd : Tokenizer :=
  mkTokenizer (tokens literalPlusNumber) [ mkScope 4 100 ] false.

Definition scopeListedTwice : Tokenizer :=
  mkTokenizer (tokens literalPlusNumber) [ mkScope 4 9; mkScope 4 9 ] false.

(** [void f ( ) { if ( "abc" ) { } }]. *)
Definition literalCondition : Tokenizer :=
  mkTokenizer
    [ T_kind eType "void"; T_name "f"; with_link 3 (T_op "(");
      with_link 2 (T_op ")"); with_link 11 (T_op "{");
      T_kind eKeyword "if"; with_link 8 (T_op "(");
      T_str "abc"; with_link 6 (T_op ")");
      with_link 10 (T_op "{"); with_link 9 (T_op "}");
      with_link 4 (T_op "}") ]
    [ mkScope 4 11 ] false.

(** [void f ( ) { g ( "abc" ) ; }]. *)
Definition literalArgument : Tokenizer :=
  mkTokenizer
    [ T_kind eType "void"; T_name "f"; with_link 3 (T_op "(");
      with_link 2 (T_op ")"); with_link 10 (T_op "{");
      T_name "g"; with_link 8 (T_op "(");
      T_str "abc"; with_link 6 (T_op ")");
      T_op ";"; with_link 4 (T_op "}") ]
    [ mkScope 4 10 ] false.

(** [void f ( ) { if ( "abc" && x ) { } }]. *)
Definition literalOperand : Tokenizer :=
  mkTokenizer
    [ T_kind eType "void"; T_name "f"; with_link 3 (T_op "(");
      with_link 2 (T_op ")"); with_link 13 (T_op "{");
      T_kind eKeyword "if"; with_link 10 (T_op "(");
      T_str "abc"; T_op "&&"; T_name "x"; with_link 6 (T_op ")");
      with_link 12 (T_op "{"); with_link 11 (T_op "}");
      with_link 4 (T_op "}") ]
    [ mkScope 4 13 ] false.

(** [void f ( ) { assert ( "abc" && x ) ; }]. *)
Definition assertLiteralFirst : Tokenizer :=
  mkTokenizer
    [ T_kind eType "void"; T_name "f"; with_link 3 (T_op "(");
      with_link 2 (T_op ")"); with_link 12 (T_op "{");
      T_name "assert"; with_link 10 (T_op "(");
      T_str "abc"; T_op "&&"; T_name "x"; with_link 6 (T_op ")");
      T_op ";"; with_link 4 (T_op "}") ]
    [ mkScope 4 12 ] false.

(** [void f ( ) { assert ( x && "abc" ) ; }]. *)
Definition assertLiteralLast : Tokenizer :=
  mkTokenizer
    [ T_kind eType "void"; T_name "f"; with_link 3 (T_op "(");
      with_link 2 (T_op ")"); with_link 12 (T_op "{");
      T_name "assert"; with_link 10 (T_op "(");
      T_name "x"; T_op "&&"; T_str "abc"; with_link 6 (T_op ")");
      T_op ";"; with_link 4 (T_op "}") ]
    [ mkScope 4 12 ] false.

(** [void f ( ) { assert ( "abc" && x ) ; if ( "abc" ) { } }]. *)
Definition assertThenCondition : Tokenizer :=
  mkTokenizer
    [ T_kind eType "void"; T_name "f"; with_link 3 (T_op "(");
      with_link 2 (T_op ")"); with_link 18 (T_op "{");
      T_name "assert"; with_link 10 (T_op "(");
      T_str "abc"; T_op "&&"; T_name "x"; with_link 6 (T_op ")");
      T_op ";";
      T_kind eKeyword "if"; with_link 15 (T_op "(");
      T_str "abc"; with_link 13 (T_op ")");
      with_link 17 (T_op "{"); with_link 16 (T_op "}");
      with_link 4 (T_op "}") ]
    [ mkScope 4 18 ] false.

End MoreExamples.

(** * Properties *)

(** ** Literal display *)

Lemma length_substring_0 (n : nat) (s : string) :
  n <= String.length s -> String.length (substring 0 n s) = n.
Proof.
  revert n. induction s as [|c s IH]; intros [|n] H; simpl in *; try lia.
  rewrite IH; lia.
Qed.

Lemma length_app (s1 s2 : string) :
  String.length (s1 ++ s2) = String.length s1 + String.length s2.
Proof. induction s1; simpl; congruence. Qed.

Lemma substring_0_app (n : nat) (s r : string) :
  String.length s = n -> substring 0 n (s ++ r)%string = s.
Proof.
  revert n. induction s as [|c s IH]; intros n H; simpl in *; subst.
  - destruct r; reflexivity.
  - simpl. f_equal. apply IH. reflexivity.
Qed.

Lemma stringLiteralWrite_display_idem s :
  stringLiteralWrite_display (stringLiteralWrite_display s)
  = stringLiteralWrite_display s.
Proof.
  destruct (15 <? String.length s) eqn:E.
  - assert (H : stringLiteralWrite_display s = (substring 0 13 s ++ "..")%string)
      by (unfold stringLiteralWrite_display; now rewrite E).
    rewrite H. unfold stringLiteralWrite_display.
    apply Nat.ltb_lt in E.
    rewrite length_app, length_substring_0 by lia. reflexivity.
  - assert (H : stringLiteralWrite_display s = s)
      by (unfold stringLiteralWrite_display; now rewrite E).
    now rewrite !H.
Qed.

Lemma staticStringCompare_display_idem s :
  staticStringCompare_display (staticStringCompare_display s)
  = staticStringCompare_display s.
Proof.
  destruct (String.length s <? stringLen) eqn:E.
  - assert (H : staticStringCompare_display s = s)
      by (unfold staticStringCompare_display; now rewrite E).
    now rewrite !H.
  - assert (H : staticStringCompare_display s
                = (substring 0 (stringLen - 2) s ++ "..")%string)
      by (unfold staticStringCompare_display; now rewrite E).
    rewrite H. apply Nat.ltb_ge in E. unfold stringLen in *.
    unfold staticStringCompare_display, stringLen.
    rewrite length_app, length_substring_0 by lia. simpl Nat.ltb. cbv iota.
    rewrite substring_0_app; [reflexivity|]. apply length_substring_0. lia.
Qed.

(** ** Proof automation *)

(** Case analysis on the next test of a hypothesis about a run. *)
Ltac break_in H :=
  match type of H with
  | context [bind ?m _] => destruct m eqn:?; cbn [bind] in H
  | context [match ?x with _ => _ end] => destruct x eqn:?
  | context [if ?x then _ else _] => destruct x eqn:?
  end.

Ltac settle_anchor H Hd :=
  repeat (first
            [ discriminate H
            | injection H as <-; simpl in Hd;
              solve [ destruct Hd | destruct Hd as [<-|[]]; reflexivity ]
            | break_in H ]).

(** Replace every [compile "..."] of a closed pattern by its atoms. *)
Ltac eval_compile :=
  repeat match goal with
         | |- context [compile ?s] =>
             let c := eval vm_compute in (compile s) in
             change (compile s) with c
         end.

Ltac eval_compile_in H :=
  repeat match type of H with
         | context [compile ?s] =>
             let c := eval vm_compute in (compile s) in
             change (compile s) with c in H
         end.

(** C8, as amended: both displays are functions of the literal alone and
    are idempotent.  [stringLiteralWrite] leaves a literal of at most 15
    characters as it is (so one of exactly 15) and replaces a longer one
    (so one of 16) by its first 13 characters and [..], which changes it.
    [staticStringCompare] leaves a literal of fewer than [stringLen] = 10
    characters as it is and replaces one of 10 or more, so already one of
    exactly the threshold length 10, by its first 8 characters and [..]. *)
Theorem C8_literal_display_amended :
  (forall s1 s2 : string,
      s1 = s2 ->
      stringLiteralWrite_display s1 = stringLiteralWrite_display s2
      /\ staticStringCompare_display s1 = staticStringCompare_display s2)
  /\ (forall s,
         stringLiteralWrite_display (stringLiteralWrite_display s)
         = stringLiteralWrite_display s)
  /\ (forall s,
         staticStringCompare_display (staticStringCompare_display s)
         = staticStringCompare_display s)
  /\ (forall s, String.length s <= 15 -> stringLiteralWrite_display s = s)
  /\ (forall s,
         15 < String.length s ->
         stringLiteralWrite_display s = (substring 0 13 s ++ "..")%string
         /\ String.length (stringLiteralWrite_display s) = 15
         /\ stringLiteralWrite_display s <> s)
  /\ (forall s,
         String.length s < stringLen -> staticStringCompare_display s = s)
  /\ (forall s,
         stringLen <= String.length s ->
         staticStringCompare_display s = (substring 0 8 s ++ "..")%string
         /\ String.length (staticStringCompare_display s) = stringLen).
Proof.
  repeat apply conj.
  - intros s1 s2 ->. split; reflexivity.
  - apply stringLiteralWrite_display_idem.
  - apply staticStringCompare_display_idem.
  - intros s H. unfold stringLiteralWrite_display.
    apply Nat.ltb_ge in H. now rewrite H.
  - intros s H.
    assert (E : stringLiteralWrite_display s = (substring 0 13 s ++ "..")%string).
    { unfold stringLiteralWrite_display. apply Nat.ltb_lt in H. now rewrite H. }
    assert (L : String.length (stringLiteralWrite_display s) = 15).
    { rewrite E, length_app, length_substring_0 by lia. reflexivity. }
    repeat split; auto. intros C. rewrite C in L. lia.
  - intros s H. unfold staticStringCompare_display.
    apply Nat.ltb_lt in H. now rewrite H.
  - intros s H.
    assert (E : staticStringCompare_display s = (substring 0 8 s ++ "..")%string).
    { unfold staticStringCompare_display. apply Nat.ltb_ge in H. now rewrite H. }
    split; [exact E|]. unfold stringLen in *.
    rewrite E, length_app, length_substring_0 by lia. reflexivity.
Qed.

Lemma C8_literal_display_witness :
  stringLiteralWrite_display "0123456789abcde" = "0123456789abcde"%string
  /\ stringLiteralWrite_display "0123456789abcdef" <> "0123456789abcdef"%string
  /\ staticStringCompare_display "012345678" = "012345678"%string
  /\ staticStringCompare_display "0123456789" = "01234567.."%string.
Proof.
  repeat apply conj.
  - apply (proj1 (proj2 (proj2 (proj2 C8_literal_display_amended)))).
    simpl. lia.
  - apply (proj1 (proj2 (proj2 (proj2 (proj2 C8_literal_display_amended))))).
    simpl. lia.
  - apply (proj1 (proj2 (proj2 (proj2 (proj2 (proj2 C8_literal_display_amended)))))).
    unfold stringLen. simpl. lia.
  - apply (proj2 (proj2 (proj2 (proj2 (proj2 (proj2 C8_literal_display_amended)))))
             "0123456789"%string).
    unfold stringLen. simpl. lia.
Defined.

(** C8, as stated, fails for [staticStringCompare] at its threshold: the
    literal [0123456789] has exactly [stringLen] = 10 characters and is
    replaced by [01234567..]. *)
Lemma C8_counterexample :
  String.length "0123456789" = stringLen
  /\ staticStringCompare_display "0123456789" = "01234567.."%string
  /\ staticStringCompare_display "0123456789" <> "0123456789"%string.
Proof.
  repeat split; try reflexivity. discriminate.
Qed.

(** ** The scope walker *)

Section WalkerFacts.

Variable tokenizer : Tokenizer.
Local Abbreviation a := (tokens tokenizer).

Lemma nth_error_deref (i : nat) (t : Token) :
  nth_error a i = Some t -> deref a (Some i) = Some t.
Proof. exact (fun H => H). Qed.

Lemma valid_in_range (i : nat) :
  i < length a -> valid a (Some i) = Some i.
Proof.
  intros H. unfold valid, deref.
  destruct (nth_error a i) eqn:E; [reflexivity|].
  apply nth_error_None in E. lia.
Qed.

Lemma valid_Some (p : TokPtr) (j : nat) :
  valid a p = Some j -> p = Some j /\ j < length a.
Proof.
  unfold valid. destruct (deref a p) eqn:E; [|discriminate].
  intros ->. split; [reflexivity|].
  simpl in E. apply nth_error_Some. congruence.
Qed.

Lemma valid_idem (p : TokPtr) : valid a (valid a p) = valid a p.
Proof.
  unfold valid. destruct (deref a p) eqn:E; [now rewrite E|reflexivity].
Qed.

Lemma next_in_range (i : nat) :
  S i < length a -> next a i = Some (S i).
Proof. intros H. unfold next. now apply valid_in_range. Qed.

Lemma scopeEnd_met (scopeEnd i : nat) :
  i < length a ->
  ptr_eqb (Some i) (valid a (Some scopeEnd)) = Nat.eqb i scopeEnd.
Proof.
  intros Hi. unfold valid. cbn [deref].
  destruct (nth_error a scopeEnd) eqn:E; [reflexivity|].
  apply nth_error_None in E. cbn [ptr_eqb].
  symmetry. apply Nat.eqb_neq. lia.
Qed.

Lemma scopeEnd_null (scopeEnd : nat) :
  ptr_eqb None (valid a (Some scopeEnd)) = (length a <=? scopeEnd).
Proof.
  unfold valid. cbn [deref].
  destruct (nth_error a scopeEnd) eqn:E; cbn [ptr_eqb].
  - assert (scopeEnd < length a) by (apply nth_error_Some; congruence).
    symmetry. apply Nat.leb_gt. lia.
  - apply nth_error_None in E. symmetry. now apply Nat.leb_le.
Qed.

Lemma scopeLoop_keepCursor (body : nat -> Token -> Outcome (list Diagnostic))
      (scopeEnd : nat) :
  forall n i fuel,
    i + n = Nat.min scopeEnd (length a) -> n < fuel ->
    scopeLoop tokenizer (keepCursor body) scopeEnd fuel (valid a (Some i))
    = visitAll tokenizer body (seq i n).
Proof.
  induction n as [|n IH]; intros i fuel Hlen Hfuel.
  - destruct fuel as [|f]; [lia|]. rewrite Nat.add_0_r in Hlen.
    cbn [scopeLoop seq visitAll].
    destruct (Nat.lt_ge_cases scopeEnd (length a)) as [Hin|Hout].
    + replace i with scopeEnd by lia.
      rewrite (valid_in_range scopeEnd Hin). cbn [ptr_eqb].
      now rewrite Nat.eqb_refl.
    + replace i with (length a) by lia.
      assert (Hnull : valid a (Some (length a)) = None).
      { unfold valid. cbn [deref].
        destruct (nth_error a (length a)) eqn:E; [|reflexivity].
        assert (length a < length a) by (apply nth_error_Some; congruence).
        lia. }
      rewrite Hnull, scopeEnd_null.
      replace (length a <=? scopeEnd) with true
        by (symmetry; now apply Nat.leb_le).
      reflexivity.
  - destruct fuel as [|f]; [lia|].
    assert (Hi : i < length a) by lia.
    rewrite (valid_in_range i Hi).
    cbn [scopeLoop seq visitAll]. rewrite (scopeEnd_met scopeEnd i Hi).
    replace (Nat.eqb i scopeEnd) with false
      by (symmetry; apply Nat.eqb_neq; lia).
    unfold at_tok. cbn [deref].
    destruct (nth_error a i) as [t|] eqn:Et.
    2:{ apply nth_error_None in Et. lia. }
    cbn [bind]. unfold keepCursor.
    destruct (body i t) as [ds| |]; cbn [bind fst snd]; try reflexivity.
    rewrite (valid_in_range i Hi). unfold next.
    rewrite IH by lia. reflexivity.
Qed.

(** A scope whose opening brace is in the list, and whose closing brace is
    null or comes after it, is walked token by token, up to the closing
    brace or, when that is null, to the end of the list. *)
Lemma walkScope_keepCursor (body : nat -> Token -> Outcome (list Diagnostic))
      (s : Scope) :
  classStart s < length a -> classStart s < classEnd s ->
  walkScope tokenizer (keepCursor body) s
  = visitAll tokenizer body (tokensInScope a s).
Proof.
  intros Hlen Hlt. unfold walkScope, at_tok, tokensInScope. cbn [deref].
  destruct (nth_error a (classStart s)) eqn:E.
  2:{ apply nth_error_None in E. lia. }
  cbn [bind]. unfold next.
  apply scopeLoop_keepCursor; lia.
Qed.

Lemma visitAll_In (body : nat -> Token -> Outcome (list Diagnostic)) :
  forall l ds d,
    visitAll tokenizer body l = Ret ds -> In d ds ->
    exists j t bs, In j l /\ nth_error a j = Some t
                   /\ body j t = Ret bs /\ In d bs.
Proof.
  induction l as [|j l IH]; intros ds d H Hd; cbn [visitAll] in H.
  - injection H as <-. destruct Hd.
  - unfold at_tok in H. cbn [deref] in H.
    destruct (nth_error a j) as [t|] eqn:Et; [|discriminate].
    cbn [bind] in H.
    destruct (body j t) as [bs| |] eqn:Eb; try discriminate.
    cbn [bind] in H.
    destruct (visitAll tokenizer body l) as [ds'| |] eqn:El; try discriminate.
    cbn [bind] in H. injection H as <-.
    apply in_app_or in Hd as [Hd|Hd].
    + exists j, t, bs. repeat split; auto. now left.
    + destruct (IH ds' d eq_refl Hd) as (j' & t' & bs' & Hin & Hn & Hb & Hd').
      exists j', t', bs'. repeat split; auto. now right.
Qed.

Lemma visitAll_incl (body : nat -> Token -> Outcome (list Diagnostic)) :
  forall l ds j t,
    visitAll tokenizer body l = Ret ds -> In j l -> nth_error a j = Some t ->
    exists bs, body j t = Ret bs /\ incl bs ds.
Proof.
  induction l as [|k l IH]; intros ds j t H Hj Ht; [destruct Hj|].
  cbn [visitAll] in H. unfold at_tok in H. cbn [deref] in H.
  destruct (nth_error a k) as [tk|] eqn:Ek; [|discriminate].
  cbn [bind] in H.
  destruct (body k tk) as [bs| |] eqn:Eb; try discriminate.
  cbn [bind] in H.
  destruct (visitAll tokenizer body l) as [ds'| |] eqn:El; try discriminate.
  cbn [bind] in H. injection H as <-.
  destruct Hj as [->|Hj].
  - exists bs. split; [congruence|]. now apply incl_appl, incl_refl.
  - destruct (IH ds' j t eq_refl Hj Ht) as (bs' & Hb & Hi).
    exists bs'. split; auto. now apply incl_appr.
Qed.

Lemma forScopes_In (run : Scope -> Outcome (list Diagnostic)) :
  forall scopes ds d,
    forScopes run scopes = Ret ds -> In d ds ->
    exists s rs, In s scopes /\ run s = Ret rs /\ In d rs.
Proof.
  induction scopes as [|s scopes IH]; intros ds d H Hd; cbn [forScopes] in H.
  - injection H as <-. destruct Hd.
  - destruct (run s) as [rs| |] eqn:Er; try discriminate. cbn [bind] in H.
    destruct (forScopes run scopes) as [ds'| |] eqn:Ef; try discriminate.
    cbn [bind] in H. injection H as <-.
    apply in_app_or in Hd as [Hd|Hd].
    + exists s, rs. repeat split; auto. now left.
    + destruct (IH ds' d eq_refl Hd) as (s' & rs' & Hin & Hr & Hd').
      exists s', rs'. repeat split; auto. now right.
Qed.

Lemma forScopes_incl (run : Scope -> Outcome (list Diagnostic)) :
  forall scopes ds s,
    forScopes run scopes = Ret ds -> In s scopes ->
    exists rs, run s = Ret rs /\ incl rs ds.
Proof.
  induction scopes as [|k scopes IH]; intros ds s H Hs; [destruct Hs|].
  cbn [forScopes] in H.
  destruct (run k) as [rs| |] eqn:Er; try discriminate. cbn [bind] in H.
  destruct (forScopes run scopes) as [ds'| |] eqn:Ef; try discriminate.
  cbn [bind] in H. injection H as <-.
  destruct Hs as [->|Hs].
  - exists rs. split; auto. now apply incl_appl, incl_refl.
  - destruct (IH ds' s eq_refl Hs) as (rs' & Hr & Hi).
    exists rs'. split; auto. now apply incl_appr.
Qed.

Lemma next_Some (i j : nat) : next a i = Some j -> j = S i /\ S i < length a.
Proof.
  unfold next. intros H. apply valid_Some in H as [H1 H2].
  injection H1 as <-. auto.
Qed.

(** A walk that returns visited exactly the tokens from its start up to the
    closing brace or, when that is null, to the end of the list. *)
Lemma scopeLoop_keepCursor_inv (body : nat -> Token -> Outcome (list Diagnostic))
      (scopeEnd : nat) :
  forall fuel i ds,
    i <= length a ->
    scopeLoop tokenizer (keepCursor body) scopeEnd fuel (valid a (Some i))
    = Ret ds ->
    i <= Nat.min scopeEnd (length a)
    /\ visitAll tokenizer body (seq i (Nat.min scopeEnd (length a) - i))
       = Ret ds.
Proof.
  induction fuel as [|f IH]; intros i ds Hi H; [discriminate|].
  cbn [scopeLoop] in H.
  destruct (Nat.eq_dec i (length a)) as [->|Hne].
  - assert (Hnull : valid a (Some (length a)) = None).
    { unfold valid. cbn [deref].
      destruct (nth_error a (length a)) eqn:E; [|reflexivity].
      assert (length a < length a) by (apply nth_error_Some; congruence).
      lia. }
    rewrite Hnull, scopeEnd_null in H.
    destruct (Nat.leb_spec (length a) scopeEnd) as [Hle|Hgt];
      [|discriminate H].
    injection H as <-.
    replace (Nat.min scopeEnd (length a)) with (length a) by lia.
    rewrite Nat.sub_diag. split; [lia|reflexivity].
  - assert (Hlt : i < length a) by lia.
    rewrite (valid_in_range i Hlt), (scopeEnd_met scopeEnd i Hlt) in H.
    destruct (Nat.eqb_spec i scopeEnd) as [->|E].
    + injection H as <-.
      replace (Nat.min scopeEnd (length a)) with scopeEnd by lia.
      rewrite Nat.sub_diag. split; [lia|reflexivity].
    + cbn [deref] in H.
      destruct (nth_error a i) as [t|] eqn:Et; [|discriminate].
      unfold keepCursor in H.
      destruct (body i t) as [bs| |] eqn:Eb; try discriminate.
      cbn [bind fst snd] in H.
      rewrite (valid_in_range i Hlt) in H. unfold next in H.
      destruct (scopeLoop tokenizer (fun i0 t0 => ds0 <- body i0 t0;; Ret (ds0, Some i0))
                          scopeEnd f (valid a (Some (S i)))) as [ds'| |] eqn:El;
        try discriminate.
      cbn [bind] in H. injection H as <-.
      apply IH in El; [|lia].
      destruct El as (Hle & Hvis).
      split; [lia|].
      replace (Nat.min scopeEnd (length a) - i)
        with (S (Nat.min scopeEnd (length a) - S i)) by lia.
      cbn [seq visitAll]. unfold at_tok. cbn [deref]. rewrite Et. cbn [bind].
      rewrite Eb. cbn [bind]. rewrite Hvis. reflexivity.
Qed.

Lemma walkScope_keepCursor_inv (body : nat -> Token -> Outcome (list Diagnostic))
      (s : Scope) (ds : list Diagnostic) :
  walkScope tokenizer (keepCursor body) s = Ret ds ->
  classStart s < length a /\ classStart s < classEnd s
  /\ visitAll tokenizer body (tokensInScope a s) = Ret ds.
Proof.
  unfold walkScope, at_tok, tokensInScope. cbn [deref].
  destruct (nth_error a (classStart s)) eqn:E; [|discriminate].
  assert (Hlen : classStart s < length a)
    by (apply nth_error_Some; congruence).
  cbn [bind]. unfold next. intros H.
  apply scopeLoop_keepCursor_inv in H; [|lia].
  destruct H as (Hle & Hvis). repeat split; auto; lia.
Qed.

Lemma in_tokensInScope (s : Scope) (j : nat) :
  In j (tokensInScope a s) <-> inScope s j /\ j < length a.
Proof.
  unfold tokensInScope, inScope. rewrite in_seq. lia.
Qed.

(** One turn of a returning walk: the cursor is the closing brace and the
    walk is over, or the step at the cursor returns and the walk goes on
    from the token after the one the step ends on. *)
Lemma scopeLoop_Some
      (body : nat -> Token -> Outcome (list Diagnostic * TokPtr))
      (scopeEnd f k : nat) (ds : list Diagnostic) :
  scopeLoop tokenizer body scopeEnd (S f) (Some k) = Ret ds ->
  (k = scopeEnd /\ ds = [])
  \/ (k <> scopeEnd
      /\ exists t bs p j ds',
          nth_error a k = Some t /\ body k t = Ret (bs, p)
          /\ valid a p = Some j
          /\ scopeLoop tokenizer body scopeEnd f (next a j) = Ret ds'
          /\ ds = bs ++ ds').
Proof.
  cbn [scopeLoop]. intros H.
  destruct (nth_error a k) as [t|] eqn:Et.
  - assert (Hk : k < length a) by (apply nth_error_Some; congruence).
    rewrite (scopeEnd_met scopeEnd k Hk) in H.
    destruct (Nat.eqb_spec k scopeEnd) as [->|Hne].
    + left. injection H as <-. auto.
    + right. split; [exact Hne|]. cbn [deref] in H. rewrite Et in H.
      destruct (body k t) as [[bs p]| |] eqn:Eb; try discriminate.
      cbn [bind fst snd] in H.
      destruct (valid a p) as [j|] eqn:Ev; [|discriminate].
      destruct (scopeLoop tokenizer body scopeEnd f (next a j)) as [ds'| |] eqn:El;
        try discriminate.
      cbn [bind] in H. injection H as <-.
      exists t, bs, p, j, ds'. auto.
  - exfalso. apply nth_error_None in Et.
    destruct (ptr_eqb (Some k) (valid a (Some scopeEnd))) eqn:E.
    + unfold valid in E. cbn [deref] in E.
      destruct (nth_error a scopeEnd) eqn:Ee; cbn [ptr_eqb] in E;
        [|discriminate].
      apply Nat.eqb_eq in E. subst k.
      assert (Hin : scopeEnd < length a) by (apply nth_error_Some; congruence).
      lia.
    + cbn [deref] in H. apply nth_error_None in Et. rewrite Et in H.
      discriminate.
Qed.

(** A walk that has run off the list returns only with a null closing
    brace, and then with no finding. *)
Lemma scopeLoop_None
      (body : nat -> Token -> Outcome (list Diagnostic * TokPtr))
      (scopeEnd fuel : nat) (ds : list Diagnostic) :
  scopeLoop tokenizer body scopeEnd fuel None = Ret ds ->
  ds = [] /\ length a <= scopeEnd.
Proof.
  destruct fuel as [|f]; [discriminate|]. cbn [scopeLoop].
  rewrite scopeEnd_null.
  destruct (Nat.leb_spec (length a) scopeEnd) as [Hle|Hgt]; [|discriminate].
  intros H. injection H as <-. auto.
Qed.

(** Every finding of a cursor-keeping detector comes from the body run at a
    token strictly inside one of the function scopes. *)
Lemma forFunctionScopes_origin
      (body : nat -> Token -> Outcome (list Diagnostic)) (ds : list Diagnostic)
      (d : Diagnostic) :
  forFunctionScopes tokenizer (keepCursor body) = Ret ds -> In d ds ->
  exists s j t bs,
    In s (functionScopes tokenizer) /\ inScope s j /\ nth_error a j = Some t
    /\ body j t = Ret bs /\ In d bs.
Proof.
  unfold forFunctionScopes. intros H Hd.
  destruct (forScopes_In _ _ _ _ H Hd) as (s & rs & Hs & Hr & Hdr).
  apply walkScope_keepCursor_inv in Hr as (Hlt & Hlen & Hvis).
  destruct (visitAll_In _ _ _ _ Hvis Hdr) as (j & t & bs & Hj & Ht & Hb & Hdb).
  apply in_tokensInScope in Hj as [Hj _].
  exists s, j, t, bs. exact (conj Hs (conj Hj (conj Ht (conj Hb Hdb)))).
Qed.

(** When such a detector returns, the findings of every token inside a
    function scope are among its findings. *)
Lemma forFunctionScopes_covers
      (body : nat -> Token -> Outcome (list Diagnostic)) (ds : list Diagnostic)
      (s : Scope) (j : nat) (t : Token) :
  forFunctionScopes tokenizer (keepCursor body) = Ret ds ->
  In s (functionScopes tokenizer) -> inScope s j -> nth_error a j = Some t ->
  exists bs, body j t = Ret bs /\ incl bs ds.
Proof.
  unfold forFunctionScopes. intros H Hs Hj Ht.
  destruct (forScopes_incl _ _ _ _ H Hs) as (rs & Hr & Hi).
  apply walkScope_keepCursor_inv in Hr as (Hlt & Hlen & Hvis).
  assert (Hin : In j (tokensInScope a s)).
  { apply in_tokensInScope. split; [exact Hj|].
    apply nth_error_Some. congruence. }
  destruct (visitAll_incl _ _ _ _ _ Hvis Hin Ht) as (bs & Hb & Hib).
  exists bs. split; auto. eapply incl_tran; eauto.
Qed.

End WalkerFacts.

(** ** Suspicious comparison with the null character *)

Section SuspiciousCompare.

Variable tokenizer : Tokenizer.
Variable settings : Settings.
Local Abbreviation a := (tokens tokenizer).

Lemma at_tok_nth (i : nat) (t : Token) :
  nth_error a i = Some t -> at_tok tokenizer (Some i) = Ret t.
Proof. intros H. unfold at_tok. cbn [deref]. now rewrite H. Qed.

Lemma valid_nth (i : nat) (t : Token) :
  nth_error a i = Some t -> valid a (Some i) = Some i.
Proof. intros H. unfold valid. cbn [deref]. now rewrite H. Qed.

(** [p == '\0'] and ['\0' == p]: the step reports the char-literal finding. *)
Lemma suspicious_body_pointer (i v l : nat) (t vt lt : Token) :
  nth_error a i = Some t -> tokType t = eComparisonOp ->
  str t <> "."%string -> str t <> "*"%string ->
  operands t v l ->
  nth_error a v = Some vt -> nth_error a l = Some lt ->
  isPointerName vt -> astParent vt = Some i ->
  isNullCharLiteral lt ->
  checkSuspiciousStringCompare_body tokenizer i t
  = Ret [suspiciousStringCompareError_char i t (expressionString vt)].
Proof.
  intros Ht Hcmp Hdot Hstar Hops Hv Hl (Hty & Hname & (var & Hvar & Hptr) & Hp & Hs & Hd & Hc)
         Hparent (Hnum & Horig).
  assert (Hlit : isStringOrNumber lt = true)
    by (unfold isStringOrNumber; rewrite Hnum; reflexivity).
  assert (Hnlit : isStringOrNumber vt = false)
    by (unfold isStringOrNumber; rewrite Hty; reflexivity).
  assert (Hplus : (str vt =? "+")%string = false) by now apply String.eqb_neq.
  assert (Hmul : (str vt =? "*")%string = false) by now apply String.eqb_neq.
  assert (Hmem : isMemberAccess vt = false).
  { unfold isMemberAccess. apply orb_false_iff. split; now apply String.eqb_neq. }
  assert (Htail :
            suspicious_deref tokenizer i t lt v
            = Ret [suspiciousStringCompareError_char i t (expressionString vt)]).
  { unfold suspicious_deref. rewrite (at_tok_nth _ _ Hv). cbn [bind].
    rewrite Hmul. cbn [skipMemberAccess deref]. rewrite Hv, Hmem. cbn [bind].
    rewrite Hv, Hname. cbn [negb].
    unfold suspicious_report. cbn [climbParents].
    rewrite (at_tok_nth _ _ Hv). cbn [bind]. rewrite Hparent, (valid_nth _ _ Ht).
    assert (HM : Match a (Some i) "[.*]" = false).
    { unfold Match, MatchId.
      change (compile "[.*]") with [CharSet ["."%char; "*"%char]].
      cbn [match_atoms deref]. rewrite Ht. cbn [atom_matches].
      destruct (str t) as [|c [|c' r]] eqn:Es; try reflexivity.
      cbn [existsb]. rewrite andb_true_r.
      destruct (Ascii.eqb_spec c "."%char) as [->|]; [now elim Hdot|].
      destruct (Ascii.eqb_spec c "*"%char) as [->|]; [now elim Hstar|].
      reflexivity. }
    rewrite HM. cbn [bind]. rewrite (at_tok_nth _ _ Hv). cbn [bind].
    rewrite Hnum. cbn [TokType_eqb]. rewrite Horig, Hvar, Hptr. reflexivity. }
  unfold checkSuspiciousStringCompare_body.
  rewrite Hcmp. cbn [TokType_eqb negb].
  destruct Hops as [[H1 H2]|[H1 H2]]; rewrite H1, H2.
  - rewrite (valid_nth _ _ Hv), (valid_nth _ _ Hl).
    rewrite (at_tok_nth _ _ Hv), (at_tok_nth _ _ Hl). cbn [bind].
    rewrite Hnlit, Hlit. cbn [negb]. rewrite Hplus. cbn [andb bind].
    exact Htail.
  - rewrite (valid_nth _ _ Hv), (valid_nth _ _ Hl).
    rewrite (at_tok_nth _ _ Hv), (at_tok_nth _ _ Hl). cbn [bind].
    rewrite Hlit. rewrite Hplus. cbn [andb bind].
    exact Htail.
Qed.

(** [*p == '\0'] and ['\0' == *p]: the step reports nothing. *)
Lemma suspicious_body_dereference (i s l p : nat) (t st lt : Token) :
  nth_error a i = Some t -> tokType t = eComparisonOp ->
  operands t s l ->
  nth_error a s = Some st -> nth_error a l = Some lt ->
  isDereference st p -> isNullCharLiteral lt ->
  checkSuspiciousStringCompare_body tokenizer i t = Ret [].
Proof.
  intros Ht Hcmp Hops Hs Hl (Hstar & Hty & _ & _) (Hnum & _).
  assert (Hlit : isStringOrNumber lt = true)
    by (unfold isStringOrNumber; rewrite Hnum; reflexivity).
  assert (Hnlit : isStringOrNumber st = false)
    by (unfold isStringOrNumber; rewrite Hty; reflexivity).
  assert (Htail : suspicious_deref tokenizer i t lt s = Ret []).
  { unfold suspicious_deref. rewrite (at_tok_nth _ _ Hs). cbn [bind].
    rewrite Hstar. cbn [String.eqb Ascii.eqb Bool.eqb]. cbn.
    rewrite Hnum. cbn [TokType_eqb negb]. rewrite !orb_true_r. reflexivity. }
  unfold checkSuspiciousStringCompare_body.
  rewrite Hcmp. cbn [TokType_eqb negb].
  destruct Hops as [[H1 H2]|[H1 H2]]; rewrite H1, H2;
    rewrite (valid_nth _ _ Hs), (valid_nth _ _ Hl);
    rewrite (at_tok_nth _ _ Hs), (at_tok_nth _ _ Hl); cbn [bind].
  - rewrite Hnlit, Hlit. cbn [negb]. rewrite Hstar. cbn. exact Htail.
  - rewrite Hlit. rewrite Hstar. cbn. exact Htail.
Qed.

Lemma suspicious_report_anchor (i : nat) (t litTok : Token) (varTok : nat)
      (vt : Token) (bs : list Diagnostic) (d : Diagnostic) :
  suspicious_report tokenizer i t litTok varTok vt = Ret bs -> In d bs ->
  callstack d = [i].
Proof.
  unfold suspicious_report. intros H Hd. settle_anchor H Hd.
Qed.

Lemma suspicious_deref_anchor (i : nat) (t litTok : Token) (varTok : nat)
      (bs : list Diagnostic) (d : Diagnostic) :
  suspicious_deref tokenizer i t litTok varTok = Ret bs -> In d bs ->
  callstack d = [i].
Proof.
  unfold suspicious_deref. intros H Hd.
  repeat (first
            [ discriminate H
            | injection H as <-; solve [destruct Hd]
            | eapply suspicious_report_anchor; eassumption
            | break_in H ]).
Qed.

(** Every finding of a step is located at the comparison token itself. *)
Lemma suspicious_body_anchor (i : nat) (t : Token) (bs : list Diagnostic)
      (d : Diagnostic) :
  checkSuspiciousStringCompare_body tokenizer i t = Ret bs -> In d bs ->
  callstack d = [i].
Proof.
  unfold checkSuspiciousStringCompare_body. intros H Hd.
  repeat (first
            [ discriminate H
            | injection H as <-; solve [destruct Hd]
            | eapply suspicious_deref_anchor; eassumption
            | break_in H ]).
Qed.

End SuspiciousCompare.

(** C1, as amended: with the warning category enabled, for every
    comparison-operator token inside a function scope, (1) when its operands
    are, in either order, the name of a pointer-typed variable that is not
    dereferenced and the null-character literal, the step at that token
    reports exactly the [charLiteralWithCharPtrCompare] finding, which is
    among the findings of every returning run; (2) when its operands are a
    dereference [*p] and the null-character literal, the step reports
    nothing and no finding of the run is located at that token. *)
Theorem C1_null_char_compare_amended
        (tokenizer : Tokenizer) (settings : Settings) (s : Scope) (i : nat)
        (t : Token) :
  isEnabled settings "warning" = true ->
  In s (functionScopes tokenizer) -> inScope s i ->
  nth_error (tokens tokenizer) i = Some t ->
  tokType t = eComparisonOp -> str t <> "."%string -> str t <> "*"%string ->
  (forall v l vt lt,
      operands t v l ->
      nth_error (tokens tokenizer) v = Some vt ->
      nth_error (tokens tokenizer) l = Some lt ->
      isPointerName vt -> astParent vt = Some i -> isNullCharLiteral lt ->
      checkSuspiciousStringCompare_body tokenizer i t
      = Ret [suspiciousStringCompareError_char i t (expressionString vt)]
      /\ forall ds,
          checkSuspiciousStringCompare tokenizer settings = Ret ds ->
          In (suspiciousStringCompareError_char i t (expressionString vt)) ds)
  /\ (forall p l v pt lt,
         operands t p l ->
         nth_error (tokens tokenizer) p = Some pt ->
         nth_error (tokens tokenizer) l = Some lt ->
         isDereference pt v -> isNullCharLiteral lt ->
         checkSuspiciousStringCompare_body tokenizer i t = Ret []
         /\ forall ds d,
             checkSuspiciousStringCompare tokenizer settings = Ret ds ->
             In d ds -> callstack d <> [i]).
Proof.
  intros Hon Hs Hi Ht Hcmp Hdot Hstar. split.
  - intros v l vt lt Hops Hv Hl Hptr Hparent Hnull.
    pose proof (suspicious_body_pointer tokenizer i v l t vt lt
                  Ht Hcmp Hdot Hstar Hops Hv Hl Hptr Hparent Hnull) as Hb.
    split; [exact Hb|]. intros ds Hrun.
    unfold checkSuspiciousStringCompare in Hrun. rewrite Hon in Hrun.
    cbn [negb] in Hrun.
    destruct (forFunctionScopes_covers tokenizer _ ds s i t Hrun Hs Hi Ht)
      as (bs & Hbs & Hincl).
    rewrite Hb in Hbs. injection Hbs as <-. apply Hincl. now left.
  - intros p l v pt lt Hops Hp Hl Hder Hnull.
    pose proof (suspicious_body_dereference tokenizer i p l v t pt lt
                  Ht Hcmp Hops Hp Hl Hder Hnull) as Hb.
    split; [exact Hb|]. intros ds d Hrun Hd Hanchor.
    unfold checkSuspiciousStringCompare in Hrun. rewrite Hon in Hrun.
    cbn [negb] in Hrun.
    destruct (forFunctionScopes_origin tokenizer _ ds d Hrun Hd)
      as (s' & j & t' & bs & _ & _ & Ht' & Hbs & Hdb).
    pose proof (suspicious_body_anchor tokenizer j t' bs d Hbs Hdb) as Hj.
    rewrite Hanchor in Hj. injection Hj as <-.
    rewrite Ht in Ht'. injection Ht' as <-.
    rewrite Hb in Hbs. injection Hbs as <-. destruct Hdb.
Qed.

(** C1, as stated, fails on [derefCompare] and [pointerCompare]: the
    comparison [*p == '\0'] of the first (token 12, operands 10 and 13)
    yields no finding, and the comparison [p == '\0'] of the second
    (token 11) yields the [charLiteralWithCharPtrCompare] finding. *)
Lemma C1_counterexample :
  (exists t pt lt,
      nth_error (tokens Examples.derefCompare) 12 = Some t
      /\ tokType t = eComparisonOp /\ operands t 10 13
      /\ nth_error (tokens Examples.derefCompare) 10 = Some pt
      /\ nth_error (tokens Examples.derefCompare) 13 = Some lt
      /\ isDereference pt 11 /\ isNullCharLiteral lt
      /\ checkSuspiciousStringCompare Examples.derefCompare Examples.warningsOn
         = Ret [])
  /\ (exists d,
         checkSuspiciousStringCompare Examples.pointerCompare Examples.warningsOn
         = Ret [d]
         /\ id d = "charLiteralWithCharPtrCompare"%string
         /\ callstack d = [11]).
Proof.
  split.
  - do 3 eexists. repeat split; try reflexivity. left. split; reflexivity.
  - eexists. repeat split; reflexivity.
Qed.

Lemma C1_null_char_compare_witness :
  (exists t vt,
      nth_error (tokens Examples.pointerCompare) 11 = Some t
      /\ nth_error (tokens Examples.pointerCompare) 10 = Some vt
      /\ checkSuspiciousStringCompare_body Examples.pointerCompare 11 t
         = Ret [suspiciousStringCompareError_char 11 t (expressionString vt)])
  /\ (exists t,
         nth_error (tokens Examples.derefCompare) 12 = Some t
         /\ checkSuspiciousStringCompare_body Examples.derefCompare 12 t = Ret []).
Proof.
  split.
  - eexists. eexists. split; [reflexivity|]. split; [reflexivity|].
    eapply (C1_null_char_compare_amended
              Examples.pointerCompare Examples.warningsOn (mkScope 7 16)).
    + reflexivity.
    + left. reflexivity.
    + unfold inScope. simpl. lia.
    + reflexivity.
    + reflexivity.
    + discriminate.
    + discriminate.
    + left. split; reflexivity.
    + reflexivity.
    + reflexivity.
    + unfold isPointerName. simpl. repeat split; try discriminate.
      eexists. split; reflexivity.
    + reflexivity.
    + split; reflexivity.
  - eexists. split; [reflexivity|].
    eapply (C1_null_char_compare_amended
              Examples.derefCompare Examples.warningsOn (mkScope 7 17)).
    + reflexivity.
    + left. reflexivity.
    + unfold inScope. simpl. lia.
    + reflexivity.
    + reflexivity.
    + discriminate.
    + discriminate.
    + left. split; reflexivity.
    + reflexivity.
    + reflexivity.
    + unfold isDereference. simpl. repeat split; reflexivity.
    + split; reflexivity.
Defined.

(** ** Adding a character to a string or to a char pointer *)

Section StrPlusChar.

Variable tokenizer : Tokenizer.
Local Abbreviation a := (tokens tokenizer).

Lemma isChar_of_charVariable (t : Token) :
  isCharVariable a t -> isChar tokenizer (variable t) = Ret true.
Proof.
  intros (v & ts & Hv & Hp & Ha & Hts & Hstr & Horig).
  unfold isChar, at_tok. rewrite Hv, Hp, Ha, Hts. cbn [bind].
  rewrite Hstr, Horig. reflexivity.
Qed.

(** [p + c]: the step reports the finding. *)
Lemma strPlusChar_body_variable (i l r : nat) (t lt rt : Token) :
  str t = "+"%string ->
  astOperand1 t = Some l -> astOperand2 t = Some r ->
  nth_error a l = Some lt -> nth_error a r = Some rt ->
  isCharPointerVariable a lt -> isCharVariable a rt ->
  strPlusChar_body tokenizer i t = Ret [strPlusCharError i t].
Proof.
  intros Hplus H1 H2 Hl Hr (Hty & v & ts & Hv & Hp & Ha & Hts & Hstr) Hc.
  unfold strPlusChar_body. rewrite Hplus, H1. cbn [String.eqb Ascii.eqb Bool.eqb].
  cbn [deref]. rewrite Hl, Hty. cbn [TokType_eqb].
  rewrite Hv, Hp, Ha. cbn [negb]. unfold at_tok at 1. rewrite Hts. cbn [bind].
  rewrite Hstr. cbn [String.eqb Ascii.eqb Bool.eqb negb]. cbn.
  rewrite H2. unfold at_tok. cbn [deref]. rewrite Hr. cbn [bind].
  fold (at_tok tokenizer). rewrite (isChar_of_charVariable rt Hc). reflexivity.
Qed.

(** [p + 'a']: the step reports nothing. *)
Lemma strPlusChar_body_literal (i l r : nat) (t lt rt : Token) :
  str t = "+"%string ->
  astOperand1 t = Some l -> astOperand2 t = Some r ->
  nth_error a l = Some lt -> nth_error a r = Some rt ->
  isCharPointerVariable a lt -> isCharLiteral rt ->
  strPlusChar_body tokenizer i t = Ret [].
Proof.
  intros Hplus H1 H2 Hl Hr (Hty & v & ts & Hv & Hp & Ha & Hts & Hstr) (_ & Hn).
  unfold strPlusChar_body. rewrite Hplus, H1. cbn [String.eqb Ascii.eqb Bool.eqb].
  cbn [deref]. rewrite Hl, Hty. cbn [TokType_eqb].
  rewrite Hv, Hp, Ha. cbn [negb]. unfold at_tok at 1. rewrite Hts. cbn [bind].
  rewrite Hstr. cbn [String.eqb Ascii.eqb Bool.eqb negb]. cbn.
  rewrite H2. unfold at_tok. cbn [deref]. rewrite Hr. cbn [bind].
  rewrite Hn. reflexivity.
Qed.

(** A [+] whose left operand is a char pointer variable and whose right
    operand is missing: the step goes through the null right operand. *)
Lemma strPlusChar_body_missing_operand (i l : nat) (t lt : Token) :
  str t = "+"%string ->
  astOperand1 t = Some l -> deref a (astOperand2 t) = None ->
  nth_error a l = Some lt -> isCharPointerVariable a lt ->
  strPlusChar_body tokenizer i t = NullDeref.
Proof.
  intros Hplus H1 H2 Hl (Hty & v & ts & Hv & Hp & Ha & Hts & Hstr).
  unfold strPlusChar_body. rewrite Hplus, H1. cbn [String.eqb Ascii.eqb Bool.eqb].
  cbn [deref]. rewrite Hl, Hty. cbn [TokType_eqb].
  rewrite Hv, Hp, Ha. cbn [negb]. unfold at_tok at 1. rewrite Hts. cbn [bind].
  rewrite Hstr. cbn [String.eqb Ascii.eqb Bool.eqb negb]. cbn.
  unfold at_tok. rewrite H2. reflexivity.
Qed.

(** With a string literal on the left, a missing right operand is skipped. *)
Lemma strPlusChar_body_literal_left_missing (i l : nat) (t lt : Token) :
  astOperand1 t = Some l -> deref a (astOperand2 t) = None ->
  nth_error a l = Some lt -> tokType lt = eString ->
  strPlusChar_body tokenizer i t = Ret [].
Proof.
  intros H1 H2 Hl Hty. unfold strPlusChar_body.
  destruct (str t =? "+")%string; [|reflexivity].
  rewrite H1. cbn [deref]. rewrite Hl, Hty. cbn [TokType_eqb].
  rewrite H2. reflexivity.
Qed.

(** A comparison with a missing operand is skipped. *)
Lemma suspicious_body_missing_operand (i : nat) (t : Token) :
  deref a (astOperand1 t) = None \/ deref a (astOperand2 t) = None ->
  checkSuspiciousStringCompare_body tokenizer i t = Ret [].
Proof.
  intros H. unfold checkSuspiciousStringCompare_body.
  destruct (negb (TokType_eqb (tokType t) eComparisonOp)); [reflexivity|].
  unfold valid. destruct H as [H|H]; rewrite H; [reflexivity|].
  destruct (deref a (astOperand1 t)); [|reflexivity].
  destruct (astOperand1 t); reflexivity.
Qed.

(** Every finding of a step is located at the [+] token itself. *)
Lemma strPlusChar_body_anchor (i : nat) (t : Token) (bs : list Diagnostic)
      (d : Diagnostic) :
  strPlusChar_body tokenizer i t = Ret bs -> In d bs -> callstack d = [i].
Proof.
  unfold strPlusChar_body. intros H Hd. settle_anchor H Hd.
Qed.

End StrPlusChar.

(** C3, on the code: in [void f(char *p) { +p; }] the [+] token (index 8)
    has the char pointer variable [p] as left operand and no right operand;
    the step at that token dereferences the null right operand, and so does
    the whole detector, where the sibling branch for a string literal on the
    left ([literalPlusNothing]) skips the node. *)
Theorem C3_strPlusChar_missing_right_operand :
  (exists t,
      nth_error (tokens Examples.unaryPlus) 8 = Some t
      /\ str t = "+"%string /\ astOperand2 t = None
      /\ strPlusChar_body Examples.unaryPlus 8 t = NullDeref)
  /\ strPlusChar Examples.unaryPlus = NullDeref
  /\ strPlusChar Examples.literalPlusNothing = Ret [].
Proof.
  split; [|split]; try reflexivity.
  eexists. repeat split; reflexivity.
Qed.

(** C9, as amended: for every [+] token inside a function scope whose left
    operand is a variable token of type pointer to [char] (not an array),
    (1) when the right operand is a token of a variable of plain [char]
    type, the step at the [+] reports exactly the [strPlusChar] finding,
    which is among the findings of every returning run; (2) when the right
    operand is a character literal, bound to no variable, the step reports
    nothing and no finding of the run is located at that token. *)
Theorem C9_char_pointer_plus_char_amended
        (tokenizer : Tokenizer) (s : Scope) (i l r : nat) (t lt rt : Token) :
  In s (functionScopes tokenizer) -> inScope s i ->
  nth_error (tokens tokenizer) i = Some t ->
  str t = "+"%string ->
  astOperand1 t = Some l -> astOperand2 t = Some r ->
  nth_error (tokens tokenizer) l = Some lt ->
  nth_error (tokens tokenizer) r = Some rt ->
  isCharPointerVariable (tokens tokenizer) lt ->
  (isCharVariable (tokens tokenizer) rt ->
   strPlusChar_body tokenizer i t = Ret [strPlusCharError i t]
   /\ forall ds, strPlusChar tokenizer = Ret ds -> In (strPlusCharError i t) ds)
  /\ (isCharLiteral rt ->
      strPlusChar_body tokenizer i t = Ret []
      /\ forall ds d, strPlusChar tokenizer = Ret ds -> In d ds ->
                      callstack d <> [i]).
Proof.
  intros Hs Hi Ht Hplus H1 H2 Hl Hr Hptr. split.
  - intros Hc.
    pose proof (strPlusChar_body_variable tokenizer i l r t lt rt
                  Hplus H1 H2 Hl Hr Hptr Hc) as Hb.
    split; [exact Hb|]. intros ds Hrun.
    destruct (forFunctionScopes_covers tokenizer _ ds s i t Hrun Hs Hi Ht)
      as (bs & Hbs & Hincl).
    rewrite Hb in Hbs. injection Hbs as <-. apply Hincl. now left.
  - intros Hc.
    pose proof (strPlusChar_body_literal tokenizer i l r t lt rt
                  Hplus H1 H2 Hl Hr Hptr Hc) as Hb.
    split; [exact Hb|]. intros ds d Hrun Hd Hanchor.
    destruct (forFunctionScopes_origin tokenizer _ ds d Hrun Hd)
      as (s' & j & t' & bs & _ & _ & Ht' & Hbs & Hdb).
    pose proof (strPlusChar_body_anchor tokenizer j t' bs d Hbs Hdb) as Hj.
    rewrite Hanchor in Hj. injection Hj as <-.
    rewrite Ht in Ht'. injection Ht' as <-.
    rewrite Hb in Hbs. injection Hbs as <-. destruct Hdb.
Qed.

Lemma C9_char_pointer_plus_char_witness :
  (exists t,
      nth_error (tokens Examples.pointerPlusCharVariable) 12 = Some t
      /\ strPlusChar_body Examples.pointerPlusCharVariable 12 t
         = Ret [strPlusCharError 12 t])
  /\ (exists t,
         nth_error (tokens Examples.pointerPlusCharLiteral) 9 = Some t
         /\ strPlusChar_body Examples.pointerPlusCharLiteral 9 t = Ret []).
Proof.
  split.
  - eexists. split; [reflexivity|].
    eapply (C9_char_pointer_plus_char_amended
              Examples.pointerPlusCharVariable (mkScope 10 15) 12 11 13).
    + left. reflexivity.
    + unfold inScope. simpl. lia.
    + reflexivity.
    + reflexivity.
    + reflexivity.
    + reflexivity.
    + reflexivity.
    + reflexivity.
    + split; [reflexivity|]. do 2 eexists. repeat split; reflexivity.
    + do 2 eexists. repeat split; reflexivity.
  - eexists. split; [reflexivity|].
    eapply (C9_char_pointer_plus_char_amended
              Examples.pointerPlusCharLiteral (mkScope 7 12) 9 8 10).
    + left. reflexivity.
    + unfold inScope. simpl. lia.
    + reflexivity.
    + reflexivity.
    + reflexivity.
    + reflexivity.
    + reflexivity.
    + reflexivity.
    + split; [reflexivity|]. do 2 eexists. repeat split; reflexivity.
    + split; reflexivity.
Defined.

(** C9, as stated, fails on [void f(char *p) { p + 'a'; }]: the [+] token
    (index 9) has the char pointer variable [p] on the left and the character
    literal ['a'] on the right, and the detector reports nothing. *)
Lemma C9_counterexample :
  exists t lt rt,
    nth_error (tokens Examples.pointerPlusCharLiteral) 9 = Some t
    /\ str t = "+"%string
    /\ astOperand1 t = Some 8 /\ astOperand2 t = Some 10
    /\ nth_error (tokens Examples.pointerPlusCharLiteral) 8 = Some lt
    /\ nth_error (tokens Examples.pointerPlusCharLiteral) 10 = Some rt
    /\ isCharPointerVariable (tokens Examples.pointerPlusCharLiteral) lt
    /\ isCharLiteral rt
    /\ strPlusChar Examples.pointerPlusCharLiteral = Ret [].
Proof.
  do 3 eexists. repeat split; try reflexivity.
  do 2 eexists. repeat split; reflexivity.
Qed.

(** ** The "warning" category gate *)













(** ** Scope boundaries *)

Section ScopeBoundaries.

Variable toLongNumber : string -> Z.
Variable tokenizer : Tokenizer.
Variable settings : Settings.
Local Abbreviation a := (tokens tokenizer).

(** A scope with nothing between its braces is left at once, whatever the
    body. *)
Lemma walkScope_empty
      (body : nat -> Token -> Outcome (list Diagnostic * TokPtr)) (s : Scope) :
  classEnd s = S (classStart s) -> classEnd s < length a ->
  walkScope tokenizer body s = Ret [].
Proof.
  intros He Hlen. unfold walkScope, at_tok. cbn [deref].
  destruct (nth_error a (classStart s)) eqn:E.
  2:{ apply nth_error_None in E. lia. }
  cbn [bind]. rewrite next_in_range by lia.
  cbn [scopeLoop]. rewrite (valid_in_range tokenizer _ Hlen).
  cbn [ptr_eqb]. rewrite He, Nat.eqb_refl. reflexivity.
Qed.

(** A cursor-keeping detector is its walk over the function scopes, once
    past the gate if it has one. *)
Lemma runDetector_cursorKeeping (d : Detector) (ds : list Diagnostic) :
  In d cursorKeeping ->
  runDetector toLongNumber tokenizer settings d = Ret ds ->
  ds = [] \/
  exists body,
    scopeBody toLongNumber tokenizer d = Some (keepCursor body)
    /\ forFunctionScopes tokenizer (keepCursor body) = Ret ds.
Proof.
  cbn. intros [<-|[<-|[<-|[<-|[<-|[]]]]]] H; cbn [runDetector scopeBody] in *.
  - right. eexists. split; [reflexivity|exact H].
  - unfold checkSuspiciousStringCompare in H.
    destruct (negb (isEnabled settings "warning")).
    + left. now injection H as <-.
    + right. eexists. split; [reflexivity|exact H].
  - right. eexists. split; [reflexivity|exact H].
  - right. eexists. split; [reflexivity|exact H].
  - right. eexists. split; [reflexivity|exact H].
Qed.

Lemma stringLiteralWrite_body_anchor (i : nat) (t : Token)
      (bs : list Diagnostic) (d : Diagnostic) :
  stringLiteralWrite_body tokenizer i t = Ret bs -> In d bs ->
  hd_error (callstack d) = Some i.
Proof.
  unfold stringLiteralWrite_body. intros H Hd. settle_anchor H Hd.
Qed.

Lemma strPlusInteger_body_anchor (i : nat) (t : Token)
      (bs : list Diagnostic) (d : Diagnostic) :
  strPlusInteger_body tokenizer i t = Ret bs -> In d bs ->
  hd_error (callstack d) = Some i.
Proof.
  unfold strPlusInteger_body. intros H Hd. settle_anchor H Hd.
Qed.

Lemma keepCursor_inj (b1 b2 : nat -> Token -> Outcome (list Diagnostic)) :
  keepCursor b1 = keepCursor b2 ->
  forall i t bs, b1 i t = Ret bs -> b2 i t = Ret bs.
Proof.
  intros H i t bs Hb.
  assert (E : keepCursor b1 i t = keepCursor b2 i t) by now rewrite H.
  unfold keepCursor in E. rewrite Hb in E. cbn [bind] in E.
  destruct (b2 i t); cbn [bind] in E; congruence.
Qed.

Lemma cursorAnchored_anchor (d : Detector)
      (body : nat -> Token -> Outcome (list Diagnostic)) (i : nat) (t : Token)
      (bs : list Diagnostic) (x : Diagnostic) :
  In d cursorAnchored ->
  scopeBody toLongNumber tokenizer d = Some (keepCursor body) ->
  body i t = Ret bs -> In x bs -> hd_error (callstack x) = Some i.
Proof.
  cbn. intros [<-|[<-|[<-|[<-|[]]]]] Hsb Hb Hx; cbn [scopeBody] in Hsb;
    injection Hsb as Hsb; symmetry in Hsb;
    pose proof (keepCursor_inj _ _ Hsb i t bs Hb) as Hb'.
  - eapply stringLiteralWrite_body_anchor; eassumption.
  - erewrite suspicious_body_anchor; [reflexivity| |]; eassumption.
  - erewrite strPlusChar_body_anchor; [reflexivity| |]; eassumption.
  - eapply strPlusInteger_body_anchor; eassumption.
Qed.

End ScopeBoundaries.

(** ** Comparison of two string literals *)

Section StaticCompare.

Variable tokenizer : Tokenizer.
Local Abbreviation a := (tokens tokenizer).

(** At the name of a listed compare function called with two string
    literals first, the step reports the finding for these two literals. *)
Lemma alwaysTrueOrFalse_step_call (i : nat) (t : Token) :
  isName t = true ->
  Match a (Some i) compareFunctions = true ->
  Match a (tokAt a i 2) "%str% , %str% ,|)" = true ->
  alwaysTrueOrFalse_step tokenizer i t
  = ([alwaysTrueFalseStringCompareError i t (strAt a i 2) (strAt a i 4)],
     tokAt a i 5).
Proof.
  intros Hn Hf Hl. unfold alwaysTrueOrFalse_step. now rewrite Hn, Hf, Hl.
Qed.

(** The message says "identical" for equal literals, "unequal" otherwise. *)
Lemma alwaysTrueFalseStringCompareError_verdict (i : nat) (t : Token)
      (str1 str2 : string) :
  exists verdict,
    msg (alwaysTrueFalseStringCompareError i t str1 str2)
    = ("Unnecessary comparison of static strings." ++ nl
         ++ "The compared strings, '" ++ staticStringCompare_display str1
         ++ "' and '" ++ staticStringCompare_display str2
         ++ "', are always " ++ verdict ++ ". "
         ++ "Therefore the comparison is unnecessary and looks suspicious.")%string
    /\ (str1 = str2 -> verdict = "identical"%string)
    /\ (str1 <> str2 -> verdict = "unequal"%string).
Proof.
  exists (if (str1 =? str2)%string then "identical" else "unequal")%string.
  split; [reflexivity|].
  destruct (String.eqb_spec str1 str2); split; congruence.
Qed.

End StaticCompare.

(** C6, on the code: in
    [void f() { if ("a" == "b" && strcmp("x", "y")) {} }] the token 11 is a
    call of [strcmp] with two string literals, and the step at that token
    would report them as unequal; but the scan never stands on it: the
    literal comparison matched at token 6 moves the cursor five tokens on,
    to 11, and the loop then steps to 12.  The run reports the literal
    comparison only; run on the call alone ([callAlone]), it reports the
    call. *)
Theorem C6_call_after_literal_comparison_missed :
  (exists t,
      nth_error (tokens Examples.compareThenCall) 11 = Some t
      /\ isName t = true
      /\ Match (tokens Examples.compareThenCall) (Some 11) compareFunctions = true
      /\ Match (tokens Examples.compareThenCall) (Some 13) "%str% , %str% ,|)" = true
      /\ fst (alwaysTrueOrFalse_step Examples.compareThenCall 11 t)
         = [alwaysTrueFalseStringCompareError
              11 t (Examples.q "x") (Examples.q "y")])
  /\ (exists t d,
         nth_error (tokens Examples.compareThenCall) 6 = Some t
         /\ alwaysTrueOrFalse_step Examples.compareThenCall 6 t = ([d], Some 11)
         /\ callstack d = [6]
         /\ checkAlwaysTrueOrFalseStringCompare Examples.compareThenCall
                                                Examples.warningsOn = Ret [d])
  /\ (exists d,
         checkAlwaysTrueOrFalseStringCompare Examples.callAlone
                                             Examples.warningsOn = Ret [d]
         /\ callstack d = [7]).
Proof.
  split; [|split].
  - eexists. repeat split; reflexivity.
  - do 2 eexists. repeat split; reflexivity.
  - eexists. split; reflexivity.
Qed.

(** ** Comparing a substring with a literal of another length *)

Section SubstrCompare.

Variable toLongNumber : string -> Z.
Variable tokenizer : Tokenizer.
Local Abbreviation a := (tokens tokenizer).

Lemma tokAt_minus_1 (e : nat) : tokAt a e (-1) = previous a e.
Proof.
  unfold tokAt, previous. destruct e as [|j]; [reflexivity|].
  replace (Z.of_nat (S j) + -1)%Z with (Z.of_nat j) by lia.
  destruct (Z.ltb_spec (Z.of_nat j) 0); [lia|]. now rewrite Nat2Z.id.
Qed.

Lemma tokAt_plus (i : nat) (k : nat) :
  tokAt a i (Z.of_nat k) = valid a (Some (i + k)).
Proof.
  unfold tokAt.
  destruct (Z.ltb_spec (Z.of_nat i + Z.of_nat k) 0); [lia|].
  now rewrite <- Nat2Z.inj_add, Nat2Z.id.
Qed.

Lemma tokAt_1 (i : nat) : tokAt a i 1 = next a i.
Proof.
  change 1%Z with (Z.of_nat 1). rewrite tokAt_plus. unfold next.
  now rewrite Nat.add_1_r.
Qed.

(** What [. substr (] at [i] says about the tokens. *)
Lemma simpleMatch_substr (i : nat) :
  simpleMatch a (Some i) ". substr (" = true ->
  exists t ts,
    nth_error a i = Some t /\ str t = "."%string
    /\ nth_error a (S i) = Some ts /\ str ts = "substr"%string.
Proof.
  unfold simpleMatch, Match, MatchId. eval_compile.
  cbn [match_atoms deref].
  destruct (nth_error a i) as [t|] eqn:Et; [|discriminate].
  cbn [atom_matches existsb alt_matches]. rewrite orb_false_r.
  destruct (String.eqb_spec (str t) "."); [|discriminate].
  cbn [andb]. unfold next at 1.
  destruct (valid a (Some (S i))) as [j|] eqn:Ev; [|discriminate].
  apply valid_Some in Ev as [Ev _]. injection Ev as <-.
  cbn [deref].
  destruct (nth_error a (S i)) as [ts|] eqn:Ets; [|discriminate].
  cbn [atom_matches existsb alt_matches]. rewrite orb_false_r.
  destruct (String.eqb_spec (str ts) "substr"); [|discriminate].
  intros _. exists t, ts. auto.
Qed.

(** The assert step leaves the cursor on a [.] token. *)
Lemma skipAssert_dot (i : nat) (t : Token) :
  str t = "."%string -> skipAssert tokenizer i t = Ret (Some i).
Proof. intros H. unfold skipAssert. rewrite H. reflexivity. Qed.

Lemma skipBracketsBack_valid (fuel : nat) (p : TokPtr) (b : nat) :
  skipBracketsBack tokenizer fuel p = Ret (Some b) ->
  exists bt, nth_error a b = Some bt.
Proof.
  revert p. induction fuel as [|f IH]; intros p H; [discriminate|].
  cbn [skipBracketsBack] in H. unfold at_tok in H.
  destruct (deref a p) as [t|] eqn:Ed; [|discriminate]. cbn [bind] in H.
  destruct (valid a (link t)) as [l|].
  - destruct (Match a p "]|)|>").
    + eapply IH; eassumption.
    + injection H as ->. exists t. exact Ed.
  - injection H as ->. exists t. exact Ed.
Qed.

Lemma findStatementStart_valid (fuel : nat) (p : TokPtr) (b : nat) :
  findStatementStart tokenizer fuel p = Ret (Some b) ->
  exists bt, nth_error a b = Some bt.
Proof.
  revert p. induction fuel as [|f IH]; intros p H; [discriminate|].
  cbn [findStatementStart] in H.
  destruct (skipBracketsBack tokenizer (S (length a)) p) as [[j|]| |] eqn:Es;
    cbn [bind] in H; try discriminate.
  destruct (Match a (previous a j) ".|::").
  - eapply IH; eassumption.
  - injection H as <-. eapply skipBracketsBack_valid; eassumption.
Qed.

(** The walk over bracketed groups is a function of its start. *)
Lemma bracketsSkipped_deterministic :
  forall k p b, bracketsSkipped a k p b ->
  forall k' b', bracketsSkipped a k' p b' -> k = k' /\ b = b'.
Proof.
  induction 1 as [j t Ht Hstop|k j l b t Ht Hl Hm Hrun IH]; intros k' b' H';
    inversion H' as [j' t' Ht' Hstop' Ek Ep Eb
                    |k1 j' l' b1 t' Ht' Hl' Hm' Hrun' Ek Ep Eb].
  - subst. auto.
  - subst j'. assert (E : t = t') by congruence. subst t'.
    destruct Hstop as [Hstop|Hstop]; congruence.
  - subst j'. assert (E : t = t') by congruence. subst t'.
    destruct Hstop' as [Hstop'|Hstop']; congruence.
  - subst j'. assert (E : t = t') by congruence. subst t'.
    assert (E : l = l') by congruence. subst l'.
    destruct (IH _ _ Hrun') as [-> ->]. subst. auto.
Qed.

(** The closing brackets met over [k] groups, and the token reached, are
    [S k] distinct tokens. *)
Lemma bracketsSkipped_visits :
  forall k p b, bracketsSkipped a k p b ->
  exists v,
    length v = S k /\ NoDup v
    /\ forall y, In y v ->
                 y < length a
                 /\ exists k', k' <= k /\ bracketsSkipped a k' (Some y) b.
Proof.
  induction 1 as [j t Ht Hstop|k j l b t Ht Hl Hm Hrun IH].
  - exists [j]. split; [reflexivity|]. split; [repeat constructor; auto|].
    intros y [<-|[]]. split; [apply nth_error_Some; congruence|].
    exists 0. split; [lia|]. econstructor; eassumption.
  - destruct IH as (v & Hlen & Hnd & Hall).
    exists (j :: v). split; [cbn; now rewrite Hlen|]. split.
    + constructor; [|exact Hnd]. intros Hin.
      destruct (Hall j Hin) as (_ & k' & Hk' & Hrun').
      assert (Hfull : bracketsSkipped a (S k) (Some j) b)
        by (econstructor; eassumption).
      destruct (bracketsSkipped_deterministic _ _ _ Hfull _ _ Hrun') as [E _].
      lia.
    + intros y [<-|Hin].
      * split; [apply nth_error_Some; congruence|].
        exists (S k). split; [lia|]. econstructor; eassumption.
      * destruct (Hall y Hin) as (Hy & k' & Hk' & Hrun').
        split; [exact Hy|]. exists k'. split; [lia|exact Hrun'].
Qed.

Lemma bracketsSkipped_bound (k : nat) (p : TokPtr) (b : nat) :
  bracketsSkipped a k p b -> k < length a.
Proof.
  intros H. destruct (bracketsSkipped_visits _ _ _ H) as (v & Hlen & Hnd & Hall).
  assert (Hincl : incl v (seq 0 (length a))).
  { intros y Hy. apply in_seq. destruct (Hall y Hy). lia. }
  pose proof (NoDup_incl_length Hnd Hincl) as Hle.
  rewrite length_seq in Hle. lia.
Qed.

(** The [while] loop of the source follows the walk over the groups. *)
Lemma skipBracketsBack_runs :
  forall k p b, bracketsSkipped a k p b ->
  forall fuel, k < fuel -> skipBracketsBack tokenizer fuel p = Ret (Some b).
Proof.
  induction 1 as [j t Ht Hstop|k j l b t Ht Hl Hm Hrun IH]; intros fuel Hf;
    (destruct fuel as [|f]; [lia|]); cbn [skipBracketsBack];
    rewrite (at_tok_nth tokenizer _ _ Ht); cbn [bind].
  - destruct Hstop as [Hstop|Hstop]; [now rewrite Hstop|].
    rewrite Hstop. now destruct (valid a (link t)).
  - rewrite Hl, Hm. apply IH. lia.
Qed.

Lemma skipBracketsBack_walks :
  forall fuel p b,
    skipBracketsBack tokenizer fuel p = Ret (Some b) ->
    exists k, bracketsSkipped a k p b.
Proof.
  induction fuel as [|f IH]; intros p b H; [discriminate|].
  cbn [skipBracketsBack] in H. unfold at_tok in H.
  destruct p as [j|]; [|discriminate]. cbn [deref] in H.
  destruct (nth_error a j) as [t|] eqn:Et; [|discriminate]. cbn [bind] in H.
  destruct (valid a (link t)) as [l|] eqn:El.
  - destruct (Match a (Some j) "]|)|>") eqn:Em.
    + destruct (IH _ _ H) as (k & Hk). exists (S k).
      econstructor; eassumption.
    + injection H as <-. exists 0. econstructor; [eassumption|now right].
  - injection H as <-. exists 0. econstructor; [eassumption|now left].
Qed.

Lemma bracketsSkipped_start (k : nat) (p : TokPtr) (b : nat) :
  bracketsSkipped a k p b -> exists j, p = Some j /\ j < length a.
Proof.
  intros H. destruct H as [j t Ht _|k j l b t Ht _ _ _]; exists j;
    (split; [reflexivity|apply nth_error_Some; congruence]).
Qed.

(** The search for the first token is a function of its start. *)
Lemma expressionStart_deterministic :
  forall m p b, expressionStart a m p b ->
  forall m' b', expressionStart a m' p b' -> m = m' /\ b = b'.
Proof.
  induction 1 as [k p b Hs Hm|k m p j b Hs Hm Hrun IH]; intros m' b' H';
    inversion H' as [k1 p1 b1 Hs' Hm' Em Ep Eb
                    |k1 m1 p1 j1 b1 Hs' Hm' Hrun' Em Ep Eb];
    subst.
  - destruct (bracketsSkipped_deterministic _ _ _ Hs _ _ Hs') as [_ ->]. auto.
  - destruct (bracketsSkipped_deterministic _ _ _ Hs _ _ Hs') as [_ ->].
    congruence.
  - destruct (bracketsSkipped_deterministic _ _ _ Hs _ _ Hs') as [_ ->].
    congruence.
  - destruct (bracketsSkipped_deterministic _ _ _ Hs _ _ Hs') as [_ ->].
    destruct (IH _ _ Hrun') as [-> ->]. auto.
Qed.

(** The tokens the search starts a walk from, over [m] member accesses, are
    [S m] distinct tokens. *)
Lemma expressionStart_visits :
  forall m p b, expressionStart a m p b ->
  exists v,
    length v = S m /\ NoDup v
    /\ forall y, In y v ->
                 y < length a
                 /\ exists m', m' <= m /\ expressionStart a m' (Some y) b.
Proof.
  induction 1 as [k p b Hs Hm|k m p j b Hs Hm Hrun IH].
  - destruct (bracketsSkipped_start _ _ _ Hs) as (y0 & -> & Hy0).
    exists [y0]. split; [reflexivity|]. split; [repeat constructor; auto|].
    intros y [<-|[]]. split; [exact Hy0|].
    exists 0. split; [lia|]. econstructor; eassumption.
  - destruct IH as (v & Hlen & Hnd & Hall).
    destruct (bracketsSkipped_start _ _ _ Hs) as (y0 & -> & Hy0).
    exists (y0 :: v). split; [cbn; now rewrite Hlen|]. split.
    + constructor; [|exact Hnd]. intros Hin.
      destruct (Hall y0 Hin) as (_ & m' & Hm' & Hrun').
      assert (Hfull : expressionStart a (S m) (Some y0) b)
        by (econstructor; eassumption).
      destruct (expressionStart_deterministic _ _ _ Hfull _ _ Hrun') as [E _].
      lia.
    + intros y [<-|Hin].
      * split; [exact Hy0|].
        exists (S m). split; [lia|]. econstructor; eassumption.
      * destruct (Hall y Hin) as (Hy & m' & Hm' & Hrun').
        split; [exact Hy|]. exists m'. split; [lia|exact Hrun'].
Qed.

Lemma expressionStart_bound (m : nat) (p : TokPtr) (b : nat) :
  expressionStart a m p b -> m < length a.
Proof.
  intros H. destruct (expressionStart_visits _ _ _ H) as (v & Hlen & Hnd & Hall).
  assert (Hincl : incl v (seq 0 (length a))).
  { intros y Hy. apply in_seq. destruct (Hall y Hy). lia. }
  pose proof (NoDup_incl_length Hnd Hincl) as Hle.
  rewrite length_seq in Hle. lia.
Qed.

(** The [for (;;)] loop of the source follows the search. *)
Lemma findStatementStart_runs :
  forall m p b, expressionStart a m p b ->
  forall fuel, m < fuel -> findStatementStart tokenizer fuel p = Ret (Some b).
Proof.
  induction 1 as [k p b Hs Hm|k m p j b Hs Hm Hrun IH]; intros fuel Hf;
    (destruct fuel as [|f]; [lia|]); cbn [findStatementStart];
    rewrite (skipBracketsBack_runs _ _ _ Hs (S (length a)))
      by (pose proof (bracketsSkipped_bound _ _ _ Hs); lia);
    cbn [bind]; rewrite Hm.
  - reflexivity.
  - apply IH. lia.
Qed.

(** The source finds the first token of the expression, with the fuel it
    is given, and finds nothing else. *)
Lemma findStatementStart_expressionStart (p : TokPtr) (b : nat) :
  findStatementStart tokenizer (S (length a)) p = Ret (Some b)
  <-> expressionStartsAt a p b.
Proof.
  split.
  - generalize (S (length a)) at 1. intros fuel. revert p.
    induction fuel as [|f IH]; intros p H; [discriminate|].
    cbn [findStatementStart] in H.
    destruct (skipBracketsBack tokenizer (S (length a)) p) as [[j|]| |] eqn:Es;
      cbn [bind] in H; try discriminate.
    destruct (skipBracketsBack_walks _ _ _ Es) as (k & Hk).
    destruct (Match a (previous a j) ".|::") eqn:Em.
    + destruct (IH _ H) as (m & Hm). exists (S m).
      econstructor; eassumption.
    + injection H as <-. exists 0. econstructor; eassumption.
  - intros (m & Hm). apply (findStatementStart_runs _ _ _ Hm).
    pose proof (expressionStart_bound _ _ _ Hm). lia.
Qed.

Lemma previous_Some (i j : nat) :
  previous a i = Some j -> i = S j /\ exists t, nth_error a j = Some t.
Proof.
  unfold previous. destruct i as [|k]; [discriminate|].
  unfold valid. cbn [deref].
  destruct (nth_error a k) as [t|] eqn:E; [|discriminate].
  intros H. injection H as <-. split; [reflexivity|]. now exists t.
Qed.

Lemma Match_num_token (n : nat) :
  Match a (Some n) "%num% )" = true ->
  exists nt, nth_error a n = Some nt /\ tokType nt = eNumber.
Proof.
  unfold Match, MatchId. eval_compile. cbn [match_atoms deref].
  destruct (nth_error a n) as [nt|]; [|discriminate].
  cbn [atom_matches existsb alt_matches]. rewrite orb_false_r.
  destruct (tokType nt) eqn:E; try discriminate. intros _. now exists nt.
Qed.

(** The step at the [.] of a [substr] call, up to the two literal tests. *)
Lemma substr_step (i n b e : nat) (t nt : Token) :
  nth_error a i = Some t -> substrCall tokenizer i n b ->
  nth_error a n = Some nt -> previous a b = Some e ->
  checkIncorrectStringCompare_body toLongNumber tokenizer i t
  = (ds <- (let clen := toLongNumber (str nt) in
            if leftLiteralCompared a e then
              lit <- at_tok tokenizer (previous a e) ;;
              if negb (clen =? to_int (Z.of_nat (getStrLength lit)))%Z
              then incorrectStringCompareError tokenizer (next a i) "substr"
                                               (strAt a e (-1))
              else Ret []
            else if rightLiteralCompared a (S n) then
              lit <- at_tok tokenizer (Some (S (S (S n)))) ;;
              if negb (clen =? to_int (Z.of_nat (getStrLength lit)))%Z
              then incorrectStringCompareError tokenizer (next a i) "substr"
                                               (str lit)
              else Ret []
            else Ret []) ;;
     Ret (ds, Some i)).
Proof.
  intros Ht (Hm & Hnext & Hnum & Hlink & Hstart) Hnt Hprev.
  destruct (simpleMatch_substr i Hm) as (t' & ts & Ht' & Hdot & Hts & Hsub).
  rewrite Ht in Ht'. injection Ht' as <-.
  unfold checkIncorrectStringCompare_body.
  rewrite (skipAssert_dot i t Hdot). cbn [bind].
  unfold incorrectCompare_at. rewrite Hm.
  assert (Harg : exists x, deref a (tokAt a i 3) = Some x).
  { unfold nextArgument in Hnext.
    destruct (deref a (tokAt a i 3)) as [x|]; [now exists x|discriminate]. }
  destruct Harg as (x & Hx). unfold at_tok at 1. rewrite Hx. cbn [bind].
  rewrite Hnext. cbn [bind]. rewrite Hnum.
  unfold substrCompare. rewrite Hlink.
  assert (Hclose : exists ct, nth_error a (S n) = Some ct).
  { unfold linkAt in Hlink. destruct (deref a (tokAt a i 2)); [|discriminate].
    apply valid_Some in Hlink as [_ Hlt].
    destruct (nth_error a (S n)) as [ct|] eqn:E; [now exists ct|].
    apply nth_error_None in E. lia. }
  destruct Hclose as (ct & Hct).
  rewrite (at_tok_nth tokenizer _ _ Hct). cbn [bind].
  assert (Hstr : strAt a (S n) (-1) = str nt).
  { unfold strAt. rewrite tokAt_minus_1. cbn [previous].
    rewrite (valid_nth tokenizer _ _ Hnt). cbn [deref]. now rewrite Hnt. }
  apply findStatementStart_expressionStart in Hstart.
  rewrite Hstr, Hstart. cbn [bind].
  destruct (findStatementStart_valid _ _ _ Hstart) as (bt & Hbt).
  rewrite (at_tok_nth tokenizer _ _ Hbt). cbn [bind]. rewrite Hprev.
  destruct (previous_Some _ _ Hprev) as (_ & et & Het).
  rewrite (at_tok_nth tokenizer _ _ Het). cbn [bind].
  fold (leftLiteralCompared a e). fold (rightLiteralCompared a (S n)).
  destruct (leftLiteralCompared a e) eqn:EL; [reflexivity|].
  destruct (rightLiteralCompared a (S n)) eqn:ER; [|reflexivity].
  (* the operator and the literal after the call *)
  unfold rightLiteralCompared, Match, MatchId in ER. eval_compile_in ER.
  cbn [match_atoms] in ER.
  destruct (next a (S n)) as [o|] eqn:Eo; [|discriminate ER].
  apply next_Some in Eo as [-> Ho].
  cbn [deref] in ER.
  destruct (nth_error a (S (S n))) as [ot|] eqn:Eot; [|discriminate ER].
  apply andb_true_iff in ER as [_ ER].
  destruct (next a (S (S n))) as [r|] eqn:Er; [|discriminate ER].
  apply next_Some in Er as [-> Hr].
  cbn [deref] in ER.
  destruct (nth_error a (S (S (S n)))) as [rt|] eqn:Ert; [|discriminate ER].
  rewrite (at_tok_nth tokenizer _ _ Eot), (at_tok_nth tokenizer _ _ Ert).
  cbn [bind].
  assert (Hs1 : strAt a (S (S n)) 1 = str rt).
  { unfold strAt. rewrite tokAt_1, next_in_range by lia. cbn [deref].
    now rewrite Ert. }
  rewrite Hs1. reflexivity.
Qed.

Lemma substr_report (i : nat) (ts : Token) (lit : string) :
  nth_error a (S i) = Some ts -> str ts = "substr"%string ->
  incorrectStringCompareError tokenizer (next a i) "substr" lit
  = Ret [substrMismatch (S i) lit].
Proof.
  intros Hts Hsub. unfold incorrectStringCompareError, next.
  rewrite (valid_nth tokenizer _ _ Hts). cbn [deref]. rewrite Hts, Hsub.
  reflexivity.
Qed.

(** The step when the literal on the left is the compared one. *)
Lemma substr_step_left (i n b e l : nat) (t nt lt : Token) :
  nth_error a i = Some t -> substrCall tokenizer i n b ->
  nth_error a n = Some nt -> previous a b = Some e ->
  leftLiteralCompared a e = true ->
  previous a e = Some l -> nth_error a l = Some lt ->
  checkIncorrectStringCompare_body toLongNumber tokenizer i t
  = Ret (if (toLongNumber (str nt) =? to_int (Z.of_nat (getStrLength lt)))%Z
         then [] else [substrMismatch (S i) (str lt)],
         Some i).
Proof.
  intros Ht Hcall Hnt Hprev HL Hl Hlt.
  rewrite (substr_step i n b e t nt Ht Hcall Hnt Hprev). cbv zeta.
  rewrite HL, Hl, (at_tok_nth tokenizer _ _ Hlt). cbn [bind].
  destruct Hcall as (Hm & _).
  destruct (simpleMatch_substr i Hm) as (_ & ts & _ & _ & Hts & Hsub).
  assert (Hs : strAt a e (-1) = str lt).
  { unfold strAt. rewrite tokAt_minus_1, Hl. cbn [deref]. now rewrite Hlt. }
  rewrite Hs, (substr_report i ts _ Hts Hsub).
  destruct (toLongNumber (str nt) =? to_int (Z.of_nat (getStrLength lt)))%Z;
    reflexivity.
Qed.

(** The step when the literal on the right is the compared one. *)
Lemma substr_step_right (i n b e : nat) (t nt rt : Token) :
  nth_error a i = Some t -> substrCall tokenizer i n b ->
  nth_error a n = Some nt -> previous a b = Some e ->
  leftLiteralCompared a e = false ->
  rightLiteralCompared a (S n) = true ->
  nth_error a (S (S (S n))) = Some rt ->
  checkIncorrectStringCompare_body toLongNumber tokenizer i t
  = Ret (if (toLongNumber (str nt) =? to_int (Z.of_nat (getStrLength rt)))%Z
         then [] else [substrMismatch (S i) (str rt)],
         Some i).
Proof.
  intros Ht Hcall Hnt Hprev HL HR Hrt.
  rewrite (substr_step i n b e t nt Ht Hcall Hnt Hprev). cbv zeta.
  rewrite HL, HR, (at_tok_nth tokenizer _ _ Hrt). cbn [bind].
  destruct Hcall as (Hm & _).
  destruct (simpleMatch_substr i Hm) as (_ & ts & _ & _ & Hts & Hsub).
  rewrite (substr_report i ts _ Hts Hsub).
  destruct (toLongNumber (str nt) =? to_int (Z.of_nat (getStrLength rt)))%Z;
    reflexivity.
Qed.

(** The step when neither literal test holds. *)
Lemma substr_step_none (i n b e : nat) (t nt : Token) :
  nth_error a i = Some t -> substrCall tokenizer i n b ->
  nth_error a n = Some nt -> previous a b = Some e ->
  leftLiteralCompared a e = false ->
  rightLiteralCompared a (S n) = false ->
  checkIncorrectStringCompare_body toLongNumber tokenizer i t
  = Ret ([], Some i).
Proof.
  intros Ht Hcall Hnt Hprev HL HR.
  rewrite (substr_step i n b e t nt Ht Hcall Hnt Hprev). cbv zeta.
  now rewrite HL, HR.
Qed.

End SubstrCompare.

Lemma to_int_small (z : Z) : (0 <= z < 2 ^ 31)%Z -> to_int z = z.
Proof.
  intros H. unfold to_int. rewrite Z.mod_small; lia.
Qed.

(** On a closed token list: the walk over the groups, the search for the
    first token, and the shape of a [substr] call, step by step. *)
Ltac walk_back :=
  lazymatch goal with
  | |- bracketsSkipped _ _ _ _ =>
      first [ solve [ eapply skipped_none;
                      [ reflexivity
                      | first [ left; reflexivity | right; reflexivity ] ] ]
            | eapply skipped_group;
              [ reflexivity | reflexivity | reflexivity | walk_back ] ]
  | |- expressionStart _ _ _ _ =>
      first [ solve [ eapply start_found; [ walk_back | reflexivity ] ]
            | eapply start_member; [ walk_back | reflexivity | walk_back ] ]
  | |- expressionStartsAt _ _ _ => eexists; walk_back
  end.

Ltac substr_call :=
  refine (conj _ (conj _ (conj _ (conj _ _))));
  [ reflexivity | reflexivity | reflexivity | reflexivity | walk_back ].

Section SubstrFindings.

Variable toLongNumber : string -> Z.
Variable tokenizer : Tokenizer.
Variable settings : Settings.
Local Abbreviation a := (tokens tokenizer).

(** Every finding of a walk is a finding of one of its steps. *)
Lemma scopeLoop_origin
      (body : nat -> Token -> Outcome (list Diagnostic * TokPtr))
      (scopeEnd : nat) :
  forall fuel p ds d,
    scopeLoop tokenizer body scopeEnd fuel p = Ret ds -> In d ds ->
    exists j t bs p',
      nth_error a j = Some t /\ body j t = Ret (bs, p') /\ In d bs.
Proof.
  induction fuel as [|f IH]; intros p ds d H Hd; [discriminate|].
  destruct p as [i|].
  2:{ apply scopeLoop_None in H as [-> _]. destruct Hd. }
  apply scopeLoop_Some in H
    as [[_ ->]|(_ & t & bs & p' & j & ds' & Et & Eb & Ev & El & ->)];
    [destruct Hd|].
  apply in_app_or in Hd as [Hd|Hd].
  - exists i, t, bs, p'. auto.
  - eapply IH; eassumption.
Qed.

Lemma forFunctionScopes_origin_any
      (body : nat -> Token -> Outcome (list Diagnostic * TokPtr))
      (ds : list Diagnostic) (d : Diagnostic) :
  forFunctionScopes tokenizer body = Ret ds -> In d ds ->
  exists j t bs p',
    nth_error a j = Some t /\ body j t = Ret (bs, p') /\ In d bs.
Proof.
  unfold forFunctionScopes. intros H Hd.
  destruct (forScopes_In _ _ _ _ H Hd) as (s & rs & _ & Hr & Hdr).
  unfold walkScope in Hr.
  destruct (at_tok tokenizer (Some (classStart s))); try discriminate.
  cbn [bind] in Hr. eapply scopeLoop_origin; eassumption.
Qed.

Lemma incorrectStringCompareError_anchor (p : TokPtr) (func lit : string)
      (bs : list Diagnostic) (d : Diagnostic) :
  incorrectStringCompareError tokenizer p func lit = Ret bs -> In d bs ->
  exists j, p = Some j /\ callstack d = [j].
Proof.
  unfold incorrectStringCompareError. intros H Hd.
  destruct p as [j|]; [|discriminate].
  destruct (deref a (Some j)); [|discriminate].
  injection H as <-. destruct Hd as [<-|[]]. now exists j.
Qed.

Lemma incorrectStringBooleanError_id (p : TokPtr) (lit : string)
      (bs : list Diagnostic) (d : Diagnostic) :
  incorrectStringBooleanError tokenizer p lit = Ret bs -> In d bs ->
  id d = "incorrectStringBooleanError"%string.
Proof.
  unfold incorrectStringBooleanError. intros H Hd.
  destruct p as [j|]; [|discriminate].
  destruct (deref a (Some j)); [|discriminate].
  injection H as <-. now destruct Hd as [<-|[]].
Qed.

Lemma substrCompare_anchor (j : nat) (bs : list Diagnostic) (d : Diagnostic) :
  substrCompare toLongNumber tokenizer j = Ret bs -> In d bs ->
  exists k, next a j = Some k /\ callstack d = [k].
Proof.
  unfold substrCompare. intros H Hd.
  repeat (first
            [ discriminate H
            | injection H as <-; solve [destruct Hd]
            | eapply incorrectStringCompareError_anchor; eassumption
            | break_in H ]).
Qed.

(** A length-mismatch finding of a step is located at the token after the
    cursor the step ends on. *)
Lemma incorrect_step_anchor (i : nat) (t : Token) (bs : list Diagnostic)
      (p : TokPtr) (d : Diagnostic) :
  checkIncorrectStringCompare_body toLongNumber tokenizer i t = Ret (bs, p) ->
  In d bs -> id d = "incorrectStringCompare"%string ->
  exists j,
    p = Some j /\ callstack d = [S j]
    /\ incorrectCompare_at toLongNumber tokenizer (Some j) = Ret bs.
Proof.
  unfold checkIncorrectStringCompare_body. intros H Hd Hid.
  destruct (skipAssert tokenizer i t) as [q| |]; try discriminate.
  cbn [bind] in H.
  destruct (incorrectCompare_at toLongNumber tokenizer q) as [ds| |] eqn:E;
    try discriminate.
  cbn [bind] in H. injection H as <- <-.
  destruct q as [j|]; [|cbn in E; injection E as <-; destruct Hd].
  exists j. split; [reflexivity|]. split; [|exact E].
  unfold incorrectCompare_at in E.
  repeat (first
            [ discriminate E
            | injection E as <-; solve [destruct Hd]
            | match type of E with
              | substrCompare _ _ _ = _ =>
                  destruct (substrCompare_anchor _ _ _ E Hd) as (k & Hk & Hc);
                  apply next_Some in Hk as [-> _]; exact Hc
              | incorrectStringBooleanError _ _ _ = _ =>
                  pose proof (incorrectStringBooleanError_id _ _ _ _ E Hd) as Hb;
                  rewrite Hid in Hb; discriminate Hb
              end
            | break_in E ]).
Qed.

(** When the step at a [.] reports nothing and leaves the cursor there, no
    returning run has a length-mismatch finding at the token after it. *)
Lemma no_mismatch_at (i : nat) (t : Token) (ds : list Diagnostic)
      (d : Diagnostic) :
  nth_error a i = Some t ->
  checkIncorrectStringCompare_body toLongNumber tokenizer i t
  = Ret ([], Some i) ->
  checkIncorrectStringCompare toLongNumber tokenizer settings = Ret ds ->
  In d ds -> id d = "incorrectStringCompare"%string ->
  callstack d <> [S i].
Proof.
  intros Ht Hstep Hrun Hd Hid Hanchor.
  unfold checkIncorrectStringCompare in Hrun.
  destruct (negb (isEnabled settings "warning")).
  { injection Hrun as <-. destruct Hd. }
  destruct (forFunctionScopes_origin_any _ _ _ Hrun Hd)
    as (j & t' & bs & p' & Ht' & Hb & Hdb).
  destruct (incorrect_step_anchor j t' bs p' d Hb Hdb Hid)
    as (k & -> & Hc & Hat).
  rewrite Hanchor in Hc. injection Hc as <-.
  unfold checkIncorrectStringCompare_body in Hstep.
  destruct (skipAssert tokenizer i t) as [q| |]; try discriminate.
  cbn [bind] in Hstep.
  destruct (incorrectCompare_at toLongNumber tokenizer q) as [x| |] eqn:E;
    try discriminate.
  cbn [bind] in Hstep. injection Hstep as -> ->.
  rewrite E in Hat. injection Hat as <-. destruct Hdb.
Qed.

End SubstrFindings.

Lemma rightLiteral_followed_by_plus (a : list Token) (close : nat) :
  Match a (next a close) "==|!= %str%" = true ->
  strAt a close 3 = "+"%string ->
  rightLiteralCompared a close = false.
Proof.
  unfold rightLiteralCompared, Match, MatchId. eval_compile.
  cbn [match_atoms]. intros H Hplus.
  destruct (next a close) as [o|] eqn:Eo; [|discriminate H].
  unfold next in Eo. unfold valid in Eo. cbn [deref] in *.
  destruct (nth_error a (S close)) as [ot|] eqn:Eot; [|discriminate Eo].
  injection Eo as <-. rewrite Eot in *.
  destruct (atom_matches 0 ot (OneOf [Lit "=="; Lit "!="])); [|reflexivity].
  cbn [andb] in *.
  destruct (next a (S close)) as [r|] eqn:Er; [|discriminate H].
  unfold next in Er. unfold valid in Er. cbn [deref] in *.
  destruct (nth_error a (S (S close))) as [rt|] eqn:Ert; [|discriminate Er].
  injection Er as <-. rewrite Ert in *.
  destruct (atom_matches 0 rt (OneOf [PStr])); [|reflexivity].
  cbn [andb].
  unfold strAt, tokAt in Hplus.
  replace (Z.of_nat close + 3)%Z with (Z.of_nat (S (S (S close)))) in Hplus by lia.
  destruct (Z.ltb_spec (Z.of_nat (S (S (S close)))) 0); [lia|].
  rewrite Nat2Z.id in Hplus. unfold next, valid in *. cbn [deref] in *.
  destruct (nth_error a (S (S (S close)))) as [pt|] eqn:Ept.
  - unfold deref in Hplus. rewrite Ept in Hplus. rewrite Ept.
    cbn [atom_matches]. rewrite Hplus. reflexivity.
  - cbn in Hplus. discriminate Hplus.
Qed.

(** C7, as amended: at the [.] of [expr.substr(pos, len)] with a number
    token as length argument, where [expr] is a postfix expression that
    begins at [b] (reached from the token before the [.] over bracketed
    groups and member accesses), when the compared string literal (the one
    just before [expr], followed by [==] or [!=] and not preceded by [+];
    otherwise the one after the call, preceded by [==] or [!=] and not
    followed by [+]) is shorter than 2^31 characters, the step reports the
    length-mismatch finding naming that literal, located at the [substr]
    token, when the literal's length differs from [len]; when they are
    equal it reports nothing, and no returning run has a length-mismatch
    finding at that [substr] token. *)
Theorem C7_substr_length_mismatch_amended
        (toLongNumber : string -> Z) (tokenizer : Tokenizer)
        (settings : Settings) (i n b e : nat) (t nt : Token) :
  nth_error (tokens tokenizer) i = Some t ->
  substrCall tokenizer i n b ->
  nth_error (tokens tokenizer) n = Some nt ->
  previous (tokens tokenizer) b = Some e ->
  let reports (lit : Token) : Prop :=
    (toLongNumber (str nt) <> Z.of_nat (getStrLength lit) ->
     checkIncorrectStringCompare_body toLongNumber tokenizer i t
     = Ret ([substrMismatch (S i) (str lit)], Some i))
    /\ (toLongNumber (str nt) = Z.of_nat (getStrLength lit) ->
        checkIncorrectStringCompare_body toLongNumber tokenizer i t
        = Ret ([], Some i)
        /\ forall ds d,
            checkIncorrectStringCompare toLongNumber tokenizer settings = Ret ds ->
            In d ds -> id d = "incorrectStringCompare"%string ->
            callstack d <> [S i]) in
  (forall l lt,
      leftLiteralCompared (tokens tokenizer) e = true ->
      previous (tokens tokenizer) e = Some l ->
      nth_error (tokens tokenizer) l = Some lt ->
      (Z.of_nat (getStrLength lt) < 2 ^ 31)%Z ->
      reports lt)
  /\ (forall rt,
         leftLiteralCompared (tokens tokenizer) e = false ->
         rightLiteralCompared (tokens tokenizer) (S n) = true ->
         nth_error (tokens tokenizer) (S (S (S n))) = Some rt ->
         (Z.of_nat (getStrLength rt) < 2 ^ 31)%Z ->
         reports rt).
Proof.
  intros Ht Hcall Hnt Hprev reports. subst reports. cbv beta. split.
  - intros l lt HL Hl Hlt Hsmall.
    pose proof (substr_step_left toLongNumber tokenizer i n b e l t nt lt
                  Ht Hcall Hnt Hprev HL Hl Hlt) as Hstep.
    rewrite to_int_small in Hstep by lia.
    split; intros Hlen.
    + apply Z.eqb_neq in Hlen. now rewrite Hlen in Hstep.
    + apply Z.eqb_eq in Hlen. rewrite Hlen in Hstep. split; [exact Hstep|].
      intros ds d. now apply no_mismatch_at with (t := t).
  - intros rt HL HR Hrt Hsmall.
    pose proof (substr_step_right toLongNumber tokenizer i n b e t nt rt
                  Ht Hcall Hnt Hprev HL HR Hrt) as Hstep.
    rewrite to_int_small in Hstep by lia.
    split; intros Hlen.
    + apply Z.eqb_neq in Hlen. now rewrite Hlen in Hstep.
    + apply Z.eqb_eq in Hlen. rewrite Hlen in Hstep. split; [exact Hstep|].
      intros ds d. now apply no_mismatch_at with (t := t).
Qed.

(** C10, as amended: at the [.] of [expr.substr(pos, len)] with a number
    token as length argument, a string literal next to a [+] is not the
    compared one, and the code turns to the other side of the call.
    (1) When the string literal just before [expr] is followed by [==] or
    [!=] and preceded by [+]: with no literal compared after the call, the
    step reports nothing, whatever the lengths, and no returning run has a
    length-mismatch finding at that [substr] token; with a literal compared
    after the call, that literal's length is checked against [len].
    (2) When the string literal after the call, preceded by [==] or [!=],
    is followed by [+]: with no literal compared before [expr], the step
    reports nothing and no returning run has a length-mismatch finding at
    that [substr] token; with a literal compared before [expr], that
    literal's length is checked against [len]. *)
Theorem C10_adjacent_plus_amended
        (toLongNumber : string -> Z) (tokenizer : Tokenizer)
        (settings : Settings) (i n b e : nat) (t nt : Token) :
  nth_error (tokens tokenizer) i = Some t ->
  substrCall tokenizer i n b ->
  nth_error (tokens tokenizer) n = Some nt ->
  previous (tokens tokenizer) b = Some e ->
  let silent : Prop :=
    checkIncorrectStringCompare_body toLongNumber tokenizer i t
    = Ret ([], Some i)
    /\ forall ds d,
        checkIncorrectStringCompare toLongNumber tokenizer settings = Ret ds ->
        In d ds -> id d = "incorrectStringCompare"%string ->
        callstack d <> [S i] in
  let checks (lit : Token) : Prop :=
    checkIncorrectStringCompare_body toLongNumber tokenizer i t
    = Ret (if (toLongNumber (str nt) =? to_int (Z.of_nat (getStrLength lit)))%Z
           then [] else [substrMismatch (S i) (str lit)],
           Some i) in
  (Match (tokens tokenizer) (previous (tokens tokenizer) e) "%str% ==|!=" = true ->
   strAt (tokens tokenizer) e (-2) = "+"%string ->
   (rightLiteralCompared (tokens tokenizer) (S n) = false -> silent)
   /\ (forall rt,
          rightLiteralCompared (tokens tokenizer) (S n) = true ->
          nth_error (tokens tokenizer) (S (S (S n))) = Some rt ->
          checks rt))
  /\ (Match (tokens tokenizer) (next (tokens tokenizer) (S n)) "==|!= %str%" = true ->
      strAt (tokens tokenizer) (S n) 3 = "+"%string ->
      (leftLiteralCompared (tokens tokenizer) e = false -> silent)
      /\ (forall l lt,
             leftLiteralCompared (tokens tokenizer) e = true ->
             previous (tokens tokenizer) e = Some l ->
             nth_error (tokens tokenizer) l = Some lt ->
             checks lt)).
Proof.
  intros Ht Hcall Hnt Hprev silent checks. subst silent checks. cbv beta.
  assert (Hnone :
            leftLiteralCompared (tokens tokenizer) e = false ->
            rightLiteralCompared (tokens tokenizer) (S n) = false ->
            checkIncorrectStringCompare_body toLongNumber tokenizer i t
            = Ret ([], Some i)
            /\ forall ds d,
                checkIncorrectStringCompare toLongNumber tokenizer settings = Ret ds ->
                In d ds -> id d = "incorrectStringCompare"%string ->
                callstack d <> [S i]).
  { intros HL HR.
    pose proof (substr_step_none toLongNumber tokenizer i n b e t nt
                  Ht Hcall Hnt Hprev HL HR) as Hstep.
    split; [exact Hstep|]. intros ds d.
    now apply no_mismatch_at with (t := t). }
  split.
  - intros Hm Hplus.
    assert (HL : leftLiteralCompared (tokens tokenizer) e = false)
      by (unfold leftLiteralCompared; rewrite Hm, Hplus; reflexivity).
    split.
    + intros HR. now apply Hnone.
    + intros rt HR Hrt.
      exact (substr_step_right toLongNumber tokenizer i n b e t nt rt
               Ht Hcall Hnt Hprev HL HR Hrt).
  - intros Hm Hplus.
    pose proof (rightLiteral_followed_by_plus _ _ Hm Hplus) as HR.
    split.
    + intros HL. now apply Hnone.
    + intros l lt HL Hl Hlt.
      exact (substr_step_left toLongNumber tokenizer i n b e l t nt lt
               Ht Hcall Hnt Hprev HL Hl Hlt).
Qed.

Lemma C7_substr_length_mismatch_witness :
  checkIncorrectStringCompare_body
    Examples.toLong (Examples.substrRight "xy") 6 (Examples.T_op ".")
  = Ret ([substrMismatch 7 (Examples.q "xy")], Some 6)
  /\ checkIncorrectStringCompare_body
       Examples.toLong (Examples.substrLeft "xyz") 8 (Examples.T_op ".")
     = Ret ([], Some 8)
  /\ checkIncorrectStringCompare_body
       Examples.toLong Examples.substrOfCall 13 (Examples.T_op ".")
     = Ret ([substrMismatch 14 (Examples.q "xy")], Some 13).
Proof.
  split; [|split].
  - pose proof (C7_substr_length_mismatch_amended
                  Examples.toLong (Examples.substrRight "xy")
                  Examples.warningsOn 6 11 5 4
                  (Examples.T_op ".") (Examples.T_num "3")) as H.
    cbv zeta in H.
    destruct H as [_ H].
    + reflexivity.
    + substr_call.
    + reflexivity.
    + reflexivity.
    + apply (H (Examples.T_str "xy")).
      * reflexivity.
      * reflexivity.
      * reflexivity.
      * simpl. lia.
      * simpl. unfold Examples.toLong. simpl. lia.
  - pose proof (C7_substr_length_mismatch_amended
                  Examples.toLong (Examples.substrLeft "xyz")
                  Examples.warningsOn 8 13 7 6
                  (Examples.T_op ".") (Examples.T_num "3")) as H.
    cbv zeta in H.
    destruct H as [H _].
    + reflexivity.
    + substr_call.
    + reflexivity.
    + reflexivity.
    + apply (H 5 (Examples.T_str "xyz")).
      * reflexivity.
      * reflexivity.
      * reflexivity.
      * simpl. lia.
      * reflexivity.
  - pose proof (C7_substr_length_mismatch_amended
                  Examples.toLong Examples.substrOfCall
                  Examples.warningsOn 13 18 7 6
                  (Examples.T_op ".") (Examples.T_num "3")) as H.
    cbv zeta in H.
    destruct H as [H _].
    + reflexivity.
    + refine (conj _ (conj _ (conj _ (conj _ _))));
        [reflexivity|reflexivity|reflexivity|reflexivity|].
      exists 1.
      apply (start_member _ 1 0 (Some 12) 9 7).
      * apply (skipped_group _ 0 12 10 9
                 (Examples.with_link 10 (Examples.T_op ")")));
          [reflexivity|reflexivity|reflexivity|].
        apply (skipped_none _ 9 (Examples.T_name "b")); [reflexivity|].
        left. reflexivity.
      * reflexivity.
      * apply (start_found _ 0 (Some 7) 7); [|reflexivity].
        apply (skipped_none _ 7 (Examples.T_name "a")); [reflexivity|].
        left. reflexivity.
    + reflexivity.
    + reflexivity.
    + apply (H 5 (Examples.T_str "xy")).
      * reflexivity.
      * reflexivity.
      * reflexivity.
      * simpl. lia.
      * simpl. unfold Examples.toLong. simpl. lia.
Defined.

(** C7, as stated, fails on [x + "ab" == s.substr(0, 3)], on
    [s.substr(0, 3) == "ab" + x] and on
    [assert("msg" && s.substr(0, 3) == "xy")]: each time the literal has
    length 2, the length argument is 3, and the run reports nothing.  In the
    first two the literal is next to a [+]; in the third the scan jumps from
    [assert] to its closing parenthesis and never stands on the call. *)
Lemma C7_counterexample :
  (substrCall Examples.substrLeftPlus 10 15 9
   /\ nth_error (tokens Examples.substrLeftPlus) 15 = Some (Examples.T_num "3")
   /\ nth_error (tokens Examples.substrLeftPlus) 7 = Some (Examples.T_str "ab")
   /\ Match (tokens Examples.substrLeftPlus) (Some 7) "%str% ==|!=" = true
   /\ Examples.toLong "3" <> Z.of_nat (getStrLength (Examples.T_str "ab"))
   /\ checkIncorrectStringCompare Examples.toLong Examples.substrLeftPlus
                                  Examples.warningsOn = Ret [])
  /\ (substrCall Examples.substrRightPlus 6 11 5
      /\ nth_error (tokens Examples.substrRightPlus) 11 = Some (Examples.T_num "3")
      /\ nth_error (tokens Examples.substrRightPlus) 14 = Some (Examples.T_str "ab")
      /\ Match (tokens Examples.substrRightPlus) (Some 13) "==|!= %str%" = true
      /\ Examples.toLong "3" <> Z.of_nat (getStrLength (Examples.T_str "ab"))
      /\ checkIncorrectStringCompare Examples.toLong Examples.substrRightPlus
                                     Examples.warningsOn = Ret [])
  /\ (substrCall Examples.substrInAssert 10 15 9
      /\ nth_error (tokens Examples.substrInAssert) 15 = Some (Examples.T_num "3")
      /\ nth_error (tokens Examples.substrInAssert) 18 = Some (Examples.T_str "xy")
      /\ rightLiteralCompared (tokens Examples.substrInAssert) 16 = true
      /\ Examples.toLong "3" <> Z.of_nat (getStrLength (Examples.T_str "xy"))
      /\ skipAssert Examples.substrInAssert 5 (Examples.T_name "assert")
         = Ret (Some 19)
      /\ checkIncorrectStringCompare Examples.toLong Examples.substrInAssert
                                     Examples.warningsOn = Ret []).
Proof.
  split; [|split].
  - refine (conj _ (conj _ (conj _ (conj _ (conj _ _)))));
      [substr_call|reflexivity|reflexivity|reflexivity|discriminate
      |reflexivity].
  - refine (conj _ (conj _ (conj _ (conj _ (conj _ _)))));
      [substr_call|reflexivity|reflexivity|reflexivity|discriminate
      |reflexivity].
  - refine (conj _ (conj _ (conj _ (conj _ (conj _ (conj _ _))))));
      [substr_call|reflexivity|reflexivity|reflexivity|discriminate
      |reflexivity|reflexivity].
Qed.

Lemma C10_adjacent_plus_witness :
  checkIncorrectStringCompare_body
    Examples.toLong Examples.substrLeftPlus 10 (Examples.T_op ".")
  = Ret ([], Some 10)
  /\ checkIncorrectStringCompare_body
       Examples.toLong Examples.substrRightPlus 6 (Examples.T_op ".")
     = Ret ([], Some 6)
  /\ checkIncorrectStringCompare_body
       Examples.toLong Examples.substrLeftPlusThenRight 10 (Examples.T_op ".")
     = Ret ([substrMismatch 11 (Examples.q "xy")], Some 10).
Proof.
  split; [|split].
  - pose proof (C10_adjacent_plus_amended
                  Examples.toLong Examples.substrLeftPlus
                  Examples.warningsOn 10 15 9 8
                  (Examples.T_op ".") (Examples.T_num "3")) as H.
    cbv zeta in H.
    destruct H as [H _].
    + reflexivity.
    + substr_call.
    + reflexivity.
    + reflexivity.
    + apply H; reflexivity.
  - pose proof (C10_adjacent_plus_amended
                  Examples.toLong Examples.substrRightPlus
                  Examples.warningsOn 6 11 5 4
                  (Examples.T_op ".") (Examples.T_num "3")) as H.
    cbv zeta in H.
    destruct H as [_ H].
    + reflexivity.
    + substr_call.
    + reflexivity.
    + reflexivity.
    + apply H; reflexivity.
  - pose proof (C10_adjacent_plus_amended
                  Examples.toLong Examples.substrLeftPlusThenRight
                  Examples.warningsOn 10 15 9 8
                  (Examples.T_op ".") (Examples.T_num "3")) as H.
    cbv zeta in H.
    destruct H as [H _].
    + reflexivity.
    + substr_call.
    + reflexivity.
    + reflexivity.
    + destruct H as [_ H]; [reflexivity|reflexivity|].
      apply (H (Examples.T_str "xy")); reflexivity.
Defined.

(** C10, as stated, fails on [x + "ab" == s.substr(0, 3) == "xy"] and on
    ["xy" == s.substr(0, 3) == "abcd" + x].  In the first the literal on the
    left of [==] is preceded by [+]; in the second the literal on the right
    is followed by [+]; each time that literal's length differs from the
    length argument 3, and the run reports a length-mismatch finding at the
    [substr] token, for the literal on the other side of the call. *)
Lemma C10_counterexample :
  (substrCall Examples.substrLeftPlusThenRight 10 15 9
   /\ nth_error (tokens Examples.substrLeftPlusThenRight) 15
      = Some (Examples.T_num "3")
   /\ nth_error (tokens Examples.substrLeftPlusThenRight) 7
      = Some (Examples.T_str "ab")
   /\ Match (tokens Examples.substrLeftPlusThenRight) (Some 7) "%str% ==|!="
      = true
   /\ strAt (tokens Examples.substrLeftPlusThenRight) 7 (-1) = "+"%string
   /\ Examples.toLong "3" <> Z.of_nat (getStrLength (Examples.T_str "ab"))
   /\ exists d,
       checkIncorrectStringCompare Examples.toLong
                                   Examples.substrLeftPlusThenRight
                                   Examples.warningsOn = Ret [d]
       /\ id d = "incorrectStringCompare"%string /\ callstack d = [11])
  /\ (substrCall Examples.substrLeftThenRightPlus 8 13 7
      /\ nth_error (tokens Examples.substrLeftThenRightPlus) 13
         = Some (Examples.T_num "3")
      /\ nth_error (tokens Examples.substrLeftThenRightPlus) 16
         = Some (Examples.T_str "abcd")
      /\ Match (tokens Examples.substrLeftThenRightPlus) (Some 15)
               "==|!= %str%" = true
      /\ strAt (tokens Examples.substrLeftThenRightPlus) 16 1 = "+"%string
      /\ Examples.toLong "3" <> Z.of_nat (getStrLength (Examples.T_str "abcd"))
      /\ exists d,
          checkIncorrectStringCompare Examples.toLong
                                      Examples.substrLeftThenRightPlus
                                      Examples.warningsOn = Ret [d]
          /\ id d = "incorrectStringCompare"%string /\ callstack d = [9]).
Proof.
  split.
  - refine (conj _ (conj _ (conj _ (conj _ (conj _ (conj _ _))))));
      [substr_call|reflexivity|reflexivity|reflexivity|reflexivity
      |discriminate|].
    eexists. split; [reflexivity|]. split; reflexivity.
  - refine (conj _ (conj _ (conj _ (conj _ (conj _ (conj _ _))))));
      [substr_call|reflexivity|reflexivity|reflexivity|reflexivity
      |discriminate|].
    eexists. split; [reflexivity|]. split; reflexivity.
Qed.

(** ** Overlapping source and destination of sprintf *)

Section OverlapScan.

Variable tokenizer : Tokenizer.
Local Abbreviation a := (tokens tokenizer).

Lemma MatchId_varid_token (p : TokPtr) (varid : nat) :
  MatchId a p "%varid% [,)]" varid = true ->
  exists j t, p = Some j /\ nth_error a j = Some t.
Proof.
  unfold MatchId. eval_compile. cbn [match_atoms].
  destruct p as [j|]; [|discriminate]. cbn [deref].
  destruct (nth_error a j) as [t|] eqn:Et; [|discriminate].
  intros _. now exists j, t.
Qed.

Lemma nextArgument_defined (p : TokPtr) (r : TokPtr) :
  nextArgument a p = Ret r ->
  exists j t, p = Some j /\ nth_error a j = Some t.
Proof.
  unfold nextArgument. destruct p as [j|]; [|discriminate]. cbn [deref].
  destruct (nth_error a j) as [t|] eqn:Et; [|discriminate].
  intros _. now exists j, t.
Qed.

(** The scan is a function of its start. *)
Lemma scanRuns_deterministic (varid : nat) :
  forall k p r, scanRuns a varid k p r ->
  forall k' r', scanRuns a varid k' p r' -> k = k' /\ r = r'.
Proof.
  induction 1 as [j Hm|p Hm Hn|k p p' r Hm Hn Hrun IH]; intros k' r' H';
    inversion H'; subst; try congruence; auto.
  match goal with
  | Hn' : nextArgument a p = Ret (Some ?q),
    Hrun' : scanRuns a varid ?m (Some ?q) r' |- _ =>
      assert (E : p' = q) by congruence; subst q;
      destruct (IH _ _ Hrun') as [-> ->]; auto
  end.
Qed.

Lemma scanRuns_start_valid (varid : nat) (k : nat) (p : TokPtr)
      (r : option nat) :
  scanRuns a varid k p r -> exists j, p = Some j /\ j < length a.
Proof.
  intros H.
  assert (E : exists j t, p = Some j /\ nth_error a j = Some t).
  { destruct H.
    - now apply MatchId_varid_token with varid.
    - now apply nextArgument_defined with None.
    - now apply nextArgument_defined with (Some p'). }
  destruct E as (j & t & -> & Ht). exists j. split; [reflexivity|].
  apply nth_error_Some. congruence.
Qed.

(** The arguments met by a scan of [k] moves are [S k] distinct tokens. *)
Lemma scanRuns_visits (varid : nat) :
  forall k p r, scanRuns a varid k p r ->
  exists l,
    length l = S k /\ NoDup l
    /\ forall y, In y l ->
                 y < length a
                 /\ exists k', k' <= k /\ scanRuns a varid k' (Some y) r.
Proof.
  induction 1 as [j Hm|p Hm Hn|k p p' r Hm Hn Hrun IH].
  - destruct (MatchId_varid_token _ _ Hm) as (j' & t & E & Ht).
    injection E as <-.
    exists [j]. split; [reflexivity|]. split; [repeat constructor; auto|].
    intros y [<-|[]]. split; [apply nth_error_Some; congruence|].
    exists 0. split; [lia|]. now constructor.
  - destruct (nextArgument_defined _ _ Hn) as (j & t & -> & Ht).
    exists [j]. split; [reflexivity|]. split; [repeat constructor; auto|].
    intros y [<-|[]]. split; [apply nth_error_Some; congruence|].
    exists 0. split; [lia|]. now constructor.
  - destruct IH as (l & Hlen & Hnd & Hall).
    destruct (nextArgument_defined _ _ Hn) as (j & t & -> & Ht).
    exists (j :: l). split; [cbn; now rewrite Hlen|]. split.
    + constructor; [|exact Hnd]. intros Hin.
      destruct (Hall j Hin) as (_ & k' & Hk' & Hrun').
      assert (Hfull : scanRuns a varid (S k) (Some j) r)
        by (econstructor; eassumption).
      destruct (scanRuns_deterministic _ _ _ _ Hfull _ _ Hrun') as [E _]. lia.
    + intros y [<-|Hin].
      * split; [apply nth_error_Some; congruence|].
        exists (S k). split; [lia|]. econstructor; eassumption.
      * destruct (Hall y Hin) as (Hy & k' & Hk' & Hrun').
        split; [exact Hy|]. exists k'. split; [lia|exact Hrun'].
Qed.

(** So a scan that stops does so within one move per token. *)
Lemma scanRuns_bound (varid : nat) (k : nat) (p : TokPtr) (r : option nat) :
  scanRuns a varid k p r -> k < length a.
Proof.
  intros H. destruct (scanRuns_visits _ _ _ _ H) as (l & Hlen & Hnd & Hall).
  assert (Hincl : incl l (seq 0 (length a))).
  { intros y Hy. apply in_seq. destruct (Hall y Hy). lia. }
  pose proof (NoDup_incl_length Hnd Hincl) as Hle.
  rewrite length_seq in Hle. lia.
Qed.

(** The loop of the source follows the scan. *)
Lemma overlapScan_runs (varid : nat) :
  forall k p r, scanRuns a varid k p r ->
  forall fuel, k < fuel ->
  overlapScan tokenizer fuel varid p
  = Ret match r with
        | Some j =>
            match nth_error a j with
            | Some tj => [sprintfOverlappingDataError j tj (str tj)]
            | None => []
            end
        | None => []
        end.
Proof.
  induction 1 as [j Hm|p Hm Hn|k p p' r Hm Hn Hrun IH]; intros fuel Hf;
    (destruct fuel as [|f]; [lia|]); cbn [overlapScan].
  - rewrite Hm. destruct (MatchId_varid_token _ _ Hm) as (j' & t & E & Ht).
    injection E as <-. cbn [deref]. now rewrite Ht.
  - rewrite Hm, Hn. reflexivity.
  - rewrite Hm, Hn. cbn [bind]. apply IH. lia.
Qed.

End OverlapScan.

Section SprintfCalls.

Variable tokenizer : Tokenizer.
Local Abbreviation a := (tokens tokenizer).

(** At a call, the step is the scan from the start the source computes. *)
Lemma sprintf_body_scan (i varid : nat) (t : Token) (start : TokPtr) :
  sprintfCall a i varid -> scanStart a i t start ->
  sprintfOverlappingData_body tokenizer i t
  = overlapScan tokenizer (S (length a)) varid start.
Proof.
  intros Hcall (second & Hsecond & Hstart).
  assert (Hscan :
            (tok2 <- nextArgument a (tokAt a i 2) ;;
             if (str t =? "snprintf")%string || (str t =? "swprintf")%string
             then
               tok2' <- nextArgument a tok2 ;;
               match tok2' with
               | None => Ret []
               | Some _ => overlapScan tokenizer (S (length a)) varid tok2'
               end
             else overlapScan tokenizer (S (length a)) varid tok2)
            = overlapScan tokenizer (S (length a)) varid start).
  { rewrite Hsecond. cbn [bind].
    destruct ((str t =? "snprintf")%string || (str t =? "swprintf")%string).
    - destruct Hstart as (s & Hs & ->). rewrite Hs. reflexivity.
    - now subst start. }
  unfold sprintfOverlappingData_body.
  destruct Hcall as [(Hm & dt & Hdt & Hid)|(Hm1 & Hm2 & dt & Hdt & Hid)].
  - rewrite Hm. unfold at_tok. rewrite Hdt. cbn [bind]. rewrite Hid.
    exact Hscan.
  - rewrite Hm1, Hm2. unfold at_tok. rewrite Hdt. cbn [bind]. rewrite Hid.
    exact Hscan.
Qed.

End SprintfCalls.

(** C2, as amended: for every call [sprintf|snprintf|swprintf(dest, ...)]
    or with [obj.dest] as destination, the overlap scan begins at the
    argument that follows the destination, which is the format string, and
    for [snprintf] and [swprintf] at the argument after that, the length
    argument being skipped; the format string itself is scanned.  From
    there on the step reports the finding on the first argument that is the
    bare token of the destination's variable id followed by a comma or a
    closing parenthesis, and that finding is among those of every returning
    run when the call is inside a function scope; it reports nothing when
    the arguments run out first.  In particular
    [snprintf(buf, n, "%s", buf)] yields exactly one finding, on the second
    [buf], and [sprintf(buf, "%s", other)] yields none. *)
Theorem C2_sprintf_overlap_scan_amended
        (tokenizer : Tokenizer) (i varid : nat) (t : Token) (start : TokPtr) :
  nth_error (tokens tokenizer) i = Some t ->
  sprintfCall (tokens tokenizer) i varid ->
  scanStart (tokens tokenizer) i t start ->
  (forall j tj,
      scanFinds (tokens tokenizer) varid start j ->
      nth_error (tokens tokenizer) j = Some tj ->
      sprintfOverlappingData_body tokenizer i t
      = Ret [sprintfOverlappingDataError j tj (str tj)]
      /\ forall s ds,
          In s (functionScopes tokenizer) -> inScope s i ->
          sprintfOverlappingData tokenizer = Ret ds ->
          In (sprintfOverlappingDataError j tj (str tj)) ds)
  /\ (scanEnds (tokens tokenizer) varid start ->
      sprintfOverlappingData_body tokenizer i t = Ret [])
  /\ (exists d,
         sprintfOverlappingData Examples.snprintfSelf = Ret [d]
         /\ callstack d = [19])
  /\ sprintfOverlappingData Examples.sprintfOther = Ret [].
Proof.
  intros Ht Hcall Hstart.
  pose proof (sprintf_body_scan tokenizer i varid t start Hcall Hstart) as Hb.
  split; [|split; [|split]].
  - intros j tj (k & Hrun) Htj.
    pose proof (scanRuns_bound tokenizer varid k start (Some j) Hrun) as Hk.
    assert (Hscan : overlapScan tokenizer (S (length (tokens tokenizer)))
                                varid start
                    = Ret [sprintfOverlappingDataError j tj (str tj)]).
    { rewrite (overlapScan_runs tokenizer varid k start (Some j) Hrun) by lia.
      cbv iota beta. now rewrite Htj. }
    rewrite Hb, Hscan.
    split; [reflexivity|]. intros s ds Hs Hi Hrun'.
    destruct (forFunctionScopes_covers tokenizer _ ds s i t Hrun' Hs Hi Ht)
      as (bs & Hbs & Hincl).
    rewrite Hb, Hscan in Hbs.
    injection Hbs as <-. apply Hincl. now left.
  - intros (k & Hrun).
    rewrite Hb.
    apply (overlapScan_runs tokenizer varid k start None Hrun).
    pose proof (scanRuns_bound tokenizer varid k start None Hrun). lia.
  - eexists. split; reflexivity.
  - reflexivity.
Qed.

(** C2, as stated, fails on [sprintf(buf, buf, n)]: the call is at token 11
    and its destination at 13; the argument after the destination, the
    format string, is token 15, and the first variadic argument is token 17;
    the run reports one finding, located at the format string. *)
Lemma C2_counterexample :
  sprintfCall (tokens Examples.sprintfFormat) 11 1
  /\ nextArgument (tokens Examples.sprintfFormat) (Some 13) = Ret (Some 15)
  /\ nextArgument (tokens Examples.sprintfFormat) (Some 15) = Ret (Some 17)
  /\ exists d,
      sprintfOverlappingData Examples.sprintfFormat = Ret [d]
      /\ callstack d = [15].
Proof.
  split; [|split; [|split]]; try reflexivity.
  - left. split; [reflexivity|]. eexists. split; reflexivity.
  - eexists. split; reflexivity.
Qed.

Lemma C2_sprintf_overlap_scan_witness :
  sprintfOverlappingData_body Examples.snprintfSelf 11 (Examples.T_name "snprintf")
  = Ret [sprintfOverlappingDataError
           19 (Examples.T_var "buf" 1 Examples.bufPtr) "buf"]
  /\ sprintfOverlappingData_body Examples.sprintfOther 12 (Examples.T_name "sprintf")
     = Ret [].
Proof.
  split.
  - refine (proj1 (proj1 (C2_sprintf_overlap_scan_amended
                            Examples.snprintfSelf 11 1
                            (Examples.T_name "snprintf") (Some 17) _ _ _)
                         19 (Examples.T_var "buf" 1 Examples.bufPtr) _ _)).
    + reflexivity.
    + left. split; [reflexivity|]. eexists. split; reflexivity.
    + exists (Some 15). split; [reflexivity|]. exists 17. split; reflexivity.
    + exists 1. eapply scan_step.
      * reflexivity.
      * reflexivity.
      * apply scan_found. reflexivity.
    + reflexivity.
  - refine (proj1 (proj2 (C2_sprintf_overlap_scan_amended
                            Examples.sprintfOther 12 1
                            (Examples.T_name "sprintf") (Some 16) _ _ _)) _).
    + reflexivity.
    + left. split; [reflexivity|]. eexists. split; reflexivity.
    + exists (Some 16). split; reflexivity.
    + exists 1. eapply scan_step.
      * reflexivity.
      * reflexivity.
      * apply scan_end; reflexivity.
Defined.

(** * Further properties *)

(** ** Literal display: size and prefix *)

Lemma substring_0_all (n : nat) (s : string) :
  String.length s <= n -> substring 0 n s = s.
Proof.
  revert n. induction s as [|c s IH]; intros [|n] H; simpl in *;
    try reflexivity; try lia.
  f_equal. apply IH. lia.
Qed.

Lemma substring_0_prefix (n m : nat) (s : string) :
  n <= m -> substring 0 n (substring 0 m s) = substring 0 n s.
Proof.
  revert n m. induction s as [|c s IH]; intros [|n] [|m] H; simpl;
    try reflexivity; try lia.
  f_equal. apply IH. lia.
Qed.

Lemma substring_0_app_left (n : nat) (s r : string) :
  n <= String.length s -> substring 0 n (s ++ r)%string = substring 0 n s.
Proof.
  revert n. induction s as [|c s IH]; intros [|n] H; simpl in *;
    try reflexivity; try lia.
  - destruct r; reflexivity.
  - f_equal. apply IH. lia.
Qed.

(** X1: a displayed literal is never longer than 15 characters in
    [stringLiteralWriteError] and never longer than 10 in
    [alwaysTrueFalseStringCompareError], and it agrees with the literal on
    its first 13, respectively 8, characters. *)
Theorem X1_display_bounded_prefix (s : string) :
  String.length (stringLiteralWrite_display s) <= 15
  /\ substring 0 13 (stringLiteralWrite_display s) = substring 0 13 s
  /\ String.length (staticStringCompare_display s) <= 10
  /\ substring 0 8 (staticStringCompare_display s) = substring 0 8 s.
Proof.
  repeat apply conj.
  - unfold stringLiteralWrite_display.
    destruct (Nat.ltb_spec 15 (String.length s)); [|lia].
    rewrite length_app, length_substring_0 by lia. simpl. lia.
  - unfold stringLiteralWrite_display.
    destruct (Nat.ltb_spec 15 (String.length s)); [|reflexivity].
    rewrite substring_0_app_left by (rewrite length_substring_0; lia).
    apply substring_0_prefix. lia.
  - unfold staticStringCompare_display, stringLen.
    destruct (Nat.ltb_spec (String.length s) 10); [lia|].
    rewrite length_app, length_substring_0 by lia. simpl. lia.
  - unfold staticStringCompare_display, stringLen.
    destruct (Nat.ltb_spec (String.length s) 10); [reflexivity|].
    cbn [Nat.sub].
    rewrite substring_0_app_left by (rewrite length_substring_0; lia).
    apply substring_0_prefix. lia.
Qed.

(** ** The scan of checkAlwaysTrueOrFalseStringCompare *)

Section AlwaysTrueScan.

Variable tokenizer : Tokenizer.
Local Abbreviation a := (tokens tokenizer).

Lemma tokAt_forward (i : nat) (k : Z) :
  (0 <= k)%Z ->
  tokAt a i k = None \/ exists j, tokAt a i k = Some j /\ i <= j < length a.
Proof.
  intros Hk. unfold tokAt.
  destruct (Z.ltb_spec (Z.of_nat i + k) 0); [lia|].
  destruct (valid a (Some (Z.to_nat (Z.of_nat i + k)))) as [j|] eqn:E;
    [|now left].
  right. exists j. split; [reflexivity|].
  apply valid_Some in E as [E Hj]. injection E as <-. lia.
Qed.

(** A step never moves the cursor backwards. *)
Lemma alwaysTrueOrFalse_step_cursor (i : nat) (t : Token) :
  nth_error a i = Some t ->
  snd (alwaysTrueOrFalse_step tokenizer i t) = None
  \/ exists j, snd (alwaysTrueOrFalse_step tokenizer i t) = Some j
               /\ i <= j < length a.
Proof.
  intros Ht.
  assert (Hi : i < length a) by (apply nth_error_Some; congruence).
  unfold alwaysTrueOrFalse_step.
  repeat match goal with
         | |- context [if ?c then _ else _] => destruct c
         end; cbn [snd];
    first [ apply tokAt_forward; lia
          | right; exists i; split; [reflexivity|lia] ].
Qed.

Lemma alwaysTrueOrFalse_loop_total :
  forall fuel p,
    match p with
    | Some i => length a - i < fuel
    | None => 0 < fuel
    end ->
    exists ds, alwaysTrueOrFalse_loop tokenizer fuel p = Ret ds.
Proof.
  induction fuel as [|f IH]; intros p Hp; [destruct p; lia|].
  cbn [alwaysTrueOrFalse_loop].
  destruct p as [i|]; [|now exists []]. cbn [deref].
  destruct (nth_error a i) as [t|] eqn:Et; [|now exists []].
  assert (Hi : i < length a) by (apply nth_error_Some; congruence).
  destruct (alwaysTrueOrFalse_step_cursor i t Et) as [E|(j & E & Hj)];
    cbv zeta; rewrite E.
  - eexists. reflexivity.
  - destruct (IH (next a j)) as (ds & Hds).
    + unfold next. destruct (valid a (Some (S j))) as [k|] eqn:Ek; [|lia].
      apply valid_Some in Ek as [Ek _]. injection Ek as <-. lia.
    + rewrite Hds. cbn [bind]. eexists. reflexivity.
Qed.

(** The findings of the run from a token the scan reaches are findings of
    the whole run. *)
Lemma scanReaches_suffix (ds : list Diagnostic) :
  alwaysTrueOrFalse_loop tokenizer (S (length a)) (valid a (Some 0)) = Ret ds ->
  forall i, scanReaches tokenizer i ->
  exists fuel ds',
    alwaysTrueOrFalse_loop tokenizer fuel (Some i) = Ret ds' /\ incl ds' ds.
Proof.
  intros Hrun i Hreach.
  induction Hreach as [t Ht|j k t Hreach IH Ht Hk Hlen].
  - exists (S (length a)), ds. split; [|apply incl_refl].
    now rewrite (valid_nth tokenizer 0 t Ht) in Hrun.
  - destruct IH as (fuel & ds' & Hloop & Hincl).
    destruct fuel as [|f]; [discriminate|].
    cbn [alwaysTrueOrFalse_loop deref] in Hloop. rewrite Ht in Hloop.
    cbv zeta in Hloop. rewrite Hk in Hloop.
    rewrite (next_in_range tokenizer k Hlen) in Hloop.
    destruct (alwaysTrueOrFalse_loop tokenizer f (Some (S k))) as [ds''| |] eqn:E;
      try discriminate.
    cbn [bind] in Hloop. injection Hloop as <-.
    exists f, ds''. split; [exact E|].
    eapply incl_tran; [|exact Hincl]. apply incl_appr, incl_refl.
Qed.

Lemma scanReaches_covers (ds : list Diagnostic) (i : nat) (t : Token) :
  alwaysTrueOrFalse_loop tokenizer (S (length a)) (valid a (Some 0)) = Ret ds ->
  scanReaches tokenizer i -> nth_error a i = Some t ->
  incl (fst (alwaysTrueOrFalse_step tokenizer i t)) ds.
Proof.
  intros Hrun Hreach Ht.
  destruct (scanReaches_suffix ds Hrun i Hreach) as (fuel & ds' & Hloop & Hincl).
  destruct fuel as [|f]; [discriminate|].
  cbn [alwaysTrueOrFalse_loop deref] in Hloop. rewrite Ht in Hloop.
  cbv zeta in Hloop.
  eapply incl_tran; [|exact Hincl].
  destruct (snd (alwaysTrueOrFalse_step tokenizer i t)) as [k|].
  - destruct (alwaysTrueOrFalse_loop tokenizer f (next a k)) as [ds''| |];
      try discriminate.
    cbn [bind] in Hloop. injection Hloop as <-. apply incl_appl, incl_refl.
  - injection Hloop as <-. apply incl_refl.
Qed.

Lemma scanReaches_origin :
  forall fuel i ds d,
    scanReaches tokenizer i ->
    alwaysTrueOrFalse_loop tokenizer fuel (Some i) = Ret ds -> In d ds ->
    exists j t,
      scanReaches tokenizer j /\ nth_error a j = Some t
      /\ In d (fst (alwaysTrueOrFalse_step tokenizer j t)).
Proof.
  induction fuel as [|f IH]; intros i ds d Hreach Hloop Hd; [discriminate|].
  cbn [alwaysTrueOrFalse_loop deref] in Hloop.
  destruct (nth_error a i) as [t|] eqn:Et.
  2:{ injection Hloop as <-. destruct Hd. }
  cbv zeta in Hloop.
  destruct (snd (alwaysTrueOrFalse_step tokenizer i t)) as [k|] eqn:Ek.
  - destruct (alwaysTrueOrFalse_loop tokenizer f (next a k)) as [ds'| |] eqn:E;
      try discriminate.
    cbn [bind] in Hloop. injection Hloop as <-.
    apply in_app_or in Hd as [Hd|Hd]; [now exists i, t|].
    destruct (next a k) as [k'|] eqn:En.
    + apply next_Some in En as [-> Hlen].
      apply (IH (S k) ds' d); auto.
      eapply reaches_next; eassumption.
    + destruct f; [discriminate|]. cbn in E. injection E as <-. destruct Hd.
  - injection Hloop as <-. now exists i, t.
Qed.

(** Every finding of a step is a warning located at the cursor, with one
    of the two rule ids of this detector. *)
Lemma alwaysTrueOrFalse_step_findings (i : nat) (t : Token) (d : Diagnostic) :
  In d (fst (alwaysTrueOrFalse_step tokenizer i t)) ->
  callstack d = [i] /\ severity d = warning
  /\ (id d = "staticStringCompare"%string \/ id d = "stringCompare"%string).
Proof.
  unfold alwaysTrueOrFalse_step.
  repeat match goal with
         | |- context [if ?c then _ else _] => destruct c
         end; cbn [fst In];
    intros H; repeat (destruct H as [<-|H]); try destruct H;
    cbn; auto.
Qed.

End AlwaysTrueScan.

Lemma alwaysTrueOrFalse_returns (tokenizer : Tokenizer) (settings : Settings) :
  exists ds, checkAlwaysTrueOrFalseStringCompare tokenizer settings = Ret ds.
Proof.
  unfold checkAlwaysTrueOrFalseStringCompare.
  destruct (negb (isEnabled settings "warning")); [now exists []|].
  apply alwaysTrueOrFalse_loop_total.
  destruct (valid (tokens tokenizer) (Some 0)); lia.
Qed.

(** X2: [checkAlwaysTrueOrFalseStringCompare] returns on every token list
    and under every setting: it dereferences no null pointer and its scan
    ends, the cursor never moving backwards. *)
Theorem X2_alwaysTrueOrFalse_returns
        (tokenizer : Tokenizer) (settings : Settings) :
  (exists ds, checkAlwaysTrueOrFalseStringCompare tokenizer settings = Ret ds)
  /\ forall i t,
      nth_error (tokens tokenizer) i = Some t ->
      snd (alwaysTrueOrFalse_step tokenizer i t) = None
      \/ exists j, snd (alwaysTrueOrFalse_step tokenizer i t) = Some j
                   /\ i <= j < length (tokens tokenizer).
Proof.
  split; [apply alwaysTrueOrFalse_returns|].
  apply alwaysTrueOrFalse_step_cursor.
Qed.

Section AlwaysTrueRun.

Variable tokenizer : Tokenizer.
Variable settings : Settings.
Local Abbreviation a := (tokens tokenizer).

Lemma alwaysTrueOrFalse_run (ds : list Diagnostic) :
  isEnabled settings "warning" = true ->
  checkAlwaysTrueOrFalseStringCompare tokenizer settings = Ret ds ->
  alwaysTrueOrFalse_loop tokenizer (S (length a)) (valid a (Some 0)) = Ret ds.
Proof.
  intros Hon. unfold checkAlwaysTrueOrFalseStringCompare. now rewrite Hon.
Qed.

(** The findings of a run are those of the steps at the tokens the scan
    reaches. *)
Lemma alwaysTrueOrFalse_run_findings (ds : list Diagnostic) (d : Diagnostic) :
  isEnabled settings "warning" = true ->
  checkAlwaysTrueOrFalseStringCompare tokenizer settings = Ret ds ->
  In d ds <->
  exists j t,
    scanReaches tokenizer j /\ nth_error a j = Some t
    /\ In d (fst (alwaysTrueOrFalse_step tokenizer j t)).
Proof.
  intros Hon Hrun. apply (alwaysTrueOrFalse_run ds Hon) in Hrun. split.
  - intros Hd. unfold valid in Hrun. cbn [deref] in Hrun.
    destruct (nth_error a 0) as [t|] eqn:E0.
    + eapply scanReaches_origin; [|exact Hrun|exact Hd].
      eapply reaches_first; eassumption.
    + cbn in Hrun. injection Hrun as <-. destruct Hd.
  - intros (j & t & Hreach & Ht & Hd).
    exact (scanReaches_covers tokenizer ds j t Hrun Hreach Ht d Hd).
Qed.

(** No finding of a run is located at a token whose step reports nothing. *)
Lemma alwaysTrueOrFalse_silent_at (ds : list Diagnostic) (i : nat) (t : Token)
      (d : Diagnostic) :
  isEnabled settings "warning" = true ->
  checkAlwaysTrueOrFalseStringCompare tokenizer settings = Ret ds ->
  nth_error a i = Some t ->
  fst (alwaysTrueOrFalse_step tokenizer i t) = [] ->
  In d ds -> callstack d <> [i].
Proof.
  intros Hon Hrun Ht Hnone Hd Hc.
  apply (alwaysTrueOrFalse_run_findings ds d Hon Hrun) in Hd
    as (j & t' & _ & Ht' & Hd).
  destruct (alwaysTrueOrFalse_step_findings tokenizer j t' d Hd) as (Hj & _).
  rewrite Hc in Hj. injection Hj as <-.
  rewrite Ht in Ht'. injection Ht' as <-.
  rewrite Hnone in Hd. destruct Hd.
Qed.

(** The scan reaches every token of a prefix in which no step moves the
    cursor. *)
Lemma scanReaches_quiet_prefix (i : nat) :
  i < length a ->
  (forall j t, j < i -> nth_error a j = Some t ->
               snd (alwaysTrueOrFalse_step tokenizer j t) = Some j) ->
  scanReaches tokenizer i.
Proof.
  induction i as [|i IH]; intros Hi Hquiet.
  - destruct (nth_error a 0) as [t|] eqn:E.
    + eapply reaches_first; eassumption.
    + apply nth_error_None in E. lia.
  - destruct (nth_error a i) as [t|] eqn:E.
    + eapply (reaches_next tokenizer i i t); auto.
      apply IH; [lia|]. intros j tj Hj. apply Hquiet. lia.
    + apply nth_error_None in E. lia.
Qed.

End AlwaysTrueRun.

(** X3: with the warning category enabled,
    [checkAlwaysTrueOrFalseStringCompare] returns, and its findings are
    exactly the findings of the steps at the tokens its scan stands on;
    each is a warning located at that token, with rule id
    [staticStringCompare] or [stringCompare]. *)
Theorem X3_alwaysTrueOrFalse_findings
        (tokenizer : Tokenizer) (settings : Settings) :
  isEnabled settings "warning" = true ->
  exists ds,
    checkAlwaysTrueOrFalseStringCompare tokenizer settings = Ret ds
    /\ (forall d,
           In d ds <->
           exists j t,
             scanReaches tokenizer j /\ nth_error (tokens tokenizer) j = Some t
             /\ In d (fst (alwaysTrueOrFalse_step tokenizer j t)))
    /\ (forall d,
           In d ds ->
           severity d = warning
           /\ (id d = "staticStringCompare"%string
               \/ id d = "stringCompare"%string)
           /\ exists j, callstack d = [j] /\ scanReaches tokenizer j).
Proof.
  intros Hon.
  destruct (alwaysTrueOrFalse_returns tokenizer settings) as (ds & Hrun).
  exists ds. split; [exact Hrun|]. split.
  - intros d. now apply alwaysTrueOrFalse_run_findings with settings.
  - intros d Hd.
    apply (alwaysTrueOrFalse_run_findings tokenizer settings ds d Hon Hrun) in Hd
      as (j & t & Hreach & Ht & Hd).
    destruct (alwaysTrueOrFalse_step_findings tokenizer j t d Hd)
      as (Hc & Hs & Hid).
    repeat split; auto. now exists j.
Qed.

Lemma X3_alwaysTrueOrFalse_findings_witness :
  exists ds,
    checkAlwaysTrueOrFalseStringCompare Examples.compareThenCall
                                        Examples.warningsOn = Ret ds
    /\ (forall d,
           In d ds <->
           exists j t,
             scanReaches Examples.compareThenCall j
             /\ nth_error (tokens Examples.compareThenCall) j = Some t
             /\ In d (fst (alwaysTrueOrFalse_step Examples.compareThenCall j t)))
    /\ (forall d,
           In d ds ->
           severity d = warning
           /\ (id d = "staticStringCompare"%string
               \/ id d = "stringCompare"%string)
           /\ exists j, callstack d = [j]
                        /\ scanReaches Examples.compareThenCall j).
Proof.
  apply (X3_alwaysTrueOrFalse_findings
           Examples.compareThenCall Examples.warningsOn).
  reflexivity.
Defined.

Lemma X2_alwaysTrueOrFalse_returns_witness :
  snd (alwaysTrueOrFalse_step Examples.compareThenCall 6
         (Examples.with_link 17 (Examples.T_op "("))) = None
  \/ exists j,
      snd (alwaysTrueOrFalse_step Examples.compareThenCall 6
             (Examples.with_link 17 (Examples.T_op "("))) = Some j
      /\ 6 <= j < length (tokens Examples.compareThenCall).
Proof.
  apply (proj2 (X2_alwaysTrueOrFalse_returns
                  Examples.compareThenCall Examples.warningsOn)).
  reflexivity.
Defined.

(** X4: at a call of a listed compare function whose first two arguments
    are names (and not two string literals), with the warning category
    enabled: when the two names are the same text and the scan stands on the
    call, the run has the [stringCompare] finding for them; when they
    differ, no finding of the run is located at the call. *)
Theorem X4_identical_variable_arguments
        (tokenizer : Tokenizer) (settings : Settings) (i : nat) (t : Token)
        (ds : list Diagnostic) :
  isEnabled settings "warning" = true ->
  checkAlwaysTrueOrFalseStringCompare tokenizer settings = Ret ds ->
  nth_error (tokens tokenizer) i = Some t ->
  isName t = true ->
  Match (tokens tokenizer) (Some i) compareFunctions = true ->
  Match (tokens tokenizer) (tokAt (tokens tokenizer) i 2)
        "%str% , %str% ,|)" = false ->
  Match (tokens tokenizer) (tokAt (tokens tokenizer) i 2)
        "%name% , %name% ,|)" = true ->
  (strAt (tokens tokenizer) i 2 = strAt (tokens tokenizer) i 4 ->
   scanReaches tokenizer i ->
   In (alwaysTrueStringVariableCompareError
         i t (strAt (tokens tokenizer) i 2) (strAt (tokens tokenizer) i 4)) ds)
  /\ (strAt (tokens tokenizer) i 2 <> strAt (tokens tokenizer) i 4 ->
      forall d, In d ds -> callstack d <> [i]).
Proof.
  intros Hon Hrun Ht Hn Hf Hlit Hnames.
  assert (Hstep :
            fst (alwaysTrueOrFalse_step tokenizer i t)
            = if (strAt (tokens tokenizer) i 2 =? strAt (tokens tokenizer) i 4)%string
              then [alwaysTrueStringVariableCompareError
                      i t (strAt (tokens tokenizer) i 2)
                      (strAt (tokens tokenizer) i 4)]
              else []).
  { unfold alwaysTrueOrFalse_step. rewrite Hn, Hf, Hlit, Hnames. reflexivity. }
  split.
  - intros Heq Hreach.
    apply (alwaysTrueOrFalse_run_findings tokenizer settings ds _ Hon Hrun).
    exists i, t. split; [exact Hreach|]. split; [exact Ht|].
    rewrite Hstep. apply String.eqb_eq in Heq. rewrite Heq. now left.
  - intros Hneq d Hd.
    apply (alwaysTrueOrFalse_silent_at tokenizer settings ds i t d Hon Hrun Ht);
      [|exact Hd].
    rewrite Hstep. apply String.eqb_neq in Hneq. now rewrite Hneq.
Qed.

Lemma X4_identical_variable_arguments_witness :
  In (alwaysTrueStringVariableCompareError 5 (Examples.T_name "strcmp") "a" "a")
     [alwaysTrueStringVariableCompareError 5 (Examples.T_name "strcmp") "a" "a"]
  /\ forall d, In d [] -> callstack d <> [5].
Proof.
  split.
  - refine (proj1 (X4_identical_variable_arguments
                     MoreExamples.compareSameVariable Examples.warningsOn 5
                     (Examples.T_name "strcmp") _ _ _ _ _ _ _ _) _ _);
      try reflexivity.
    apply scanReaches_quiet_prefix; [simpl; lia|].
    intros j tj Hj Htj.
    do 5 (destruct j as [|j]; [injection Htj as <-; reflexivity|]). lia.
  - refine (proj2 (X4_identical_variable_arguments
                     MoreExamples.compareOtherVariable Examples.warningsOn 5
                     (Examples.T_name "strcmp") [] _ _ _ _ _ _ _) _);
      try reflexivity.
    discriminate.
Defined.

Section LiteralComparison.

Variable tokenizer : Tokenizer.
Local Abbreviation a := (tokens tokenizer).

(** A token followed by a string literal starts no call. *)
Lemma no_call_before_literal (i : nat) (t l1 : Token) :
  nth_error a i = Some t -> nth_error a (S i) = Some l1 ->
  isStringLiteralToken l1 ->
  Match a (Some i) compareFunctions = false
  /\ Match a (Some i) "QString :: compare ( %str% , %str% )" = false.
Proof.
  intros Ht Hl (_ & Hparen & Hcolon).
  apply String.eqb_neq in Hparen. apply String.eqb_neq in Hcolon.
  split; unfold Match, MatchId, compareFunctions; eval_compile;
    cbn [match_atoms deref]; rewrite Ht;
    rewrite (next_in_range tokenizer i)
      by (apply nth_error_Some; congruence);
    cbn [deref]; rewrite Hl; cbn [atom_matches existsb alt_matches].
  - rewrite Hparen. cbn. apply andb_false_r.
  - rewrite Hcolon. cbn. apply andb_false_r.
Qed.

Lemma literal_comparison_after_plus (i : nat) (t : Token) :
  nth_error a i = Some t -> str t = "+"%string ->
  Match a (Some i) "!!+ %str% ==|!= %str% !!+" = false.
Proof.
  intros Ht Hplus. unfold Match, MatchId. eval_compile.
  cbn [match_atoms deref]. rewrite Ht. cbn [atom_matches]. now rewrite Hplus.
Qed.

Lemma literal_comparison_before_plus (i : nat) :
  strAt a i 4 = "+"%string ->
  Match a (Some i) "!!+ %str% ==|!= %str% !!+" = false.
Proof.
  intros Hplus. unfold Match, MatchId. eval_compile.
  unfold strAt in Hplus. change 4%Z with (Z.of_nat 4) in Hplus.
  rewrite tokAt_plus in Hplus.
  destruct (valid a (Some (i + 4))) as [k|] eqn:Ek; [|discriminate Hplus].
  apply valid_Some in Ek as [Ek Hlen]. injection Ek as <-.
  cbn [deref] in Hplus.
  destruct (nth_error a (i + 4)) as [pt|] eqn:Ept; [|discriminate Hplus].
  replace (i + 4) with (S (S (S (S i)))) in * by lia.
  cbn [match_atoms deref].
  destruct (nth_error a i); [|reflexivity].
  rewrite (next_in_range tokenizer i) by lia. cbn [deref].
  destruct (nth_error a (S i)); [|apply andb_false_r].
  rewrite (next_in_range tokenizer (S i)) by lia. cbn [deref].
  destruct (nth_error a (S (S i))); [|now rewrite !andb_false_r].
  rewrite (next_in_range tokenizer (S (S i))) by lia. cbn [deref].
  destruct (nth_error a (S (S (S i)))); [|now rewrite !andb_false_r].
  rewrite (next_in_range tokenizer (S (S (S i)))) by lia. cbn [deref].
  rewrite Ept. cbn [atom_matches]. rewrite Hplus. cbn.
  now rewrite !andb_false_r.
Qed.

End LiteralComparison.

(** X5: at a token followed by a string literal, with the warning category
    enabled: when the token and the four after it match
    [!!+ %str% ==|!= %str% !!+] and the scan stands on the token, the run has
    the [staticStringCompare] finding for the two literals; when the token
    is [+], or the token after the second literal is [+], no finding of the
    run is located at it: a literal comparison next to a [+] is not
    reported. *)
Theorem X5_literal_comparison
        (tokenizer : Tokenizer) (settings : Settings) (i : nat) (t l1 : Token)
        (ds : list Diagnostic) :
  isEnabled settings "warning" = true ->
  checkAlwaysTrueOrFalseStringCompare tokenizer settings = Ret ds ->
  nth_error (tokens tokenizer) i = Some t ->
  nth_error (tokens tokenizer) (S i) = Some l1 ->
  isStringLiteralToken l1 ->
  (Match (tokens tokenizer) (Some i) "!!+ %str% ==|!= %str% !!+" = true ->
   scanReaches tokenizer i ->
   In (alwaysTrueFalseStringCompareError
         i t (strAt (tokens tokenizer) i 1) (strAt (tokens tokenizer) i 3)) ds)
  /\ (str t = "+"%string \/ strAt (tokens tokenizer) i 4 = "+"%string ->
      forall d, In d ds -> callstack d <> [i]).
Proof.
  intros Hon Hrun Ht Hl Hlit.
  destruct (no_call_before_literal tokenizer i t l1 Ht Hl Hlit) as (Hf & Hq).
  split.
  - intros Hm Hreach.
    apply (alwaysTrueOrFalse_run_findings tokenizer settings ds _ Hon Hrun).
    exists i, t. split; [exact Hreach|]. split; [exact Ht|].
    unfold alwaysTrueOrFalse_step. rewrite Hf, Hq, Hm, !andb_false_r.
    now left.
  - intros Hplus d Hd.
    apply (alwaysTrueOrFalse_silent_at tokenizer settings ds i t d Hon Hrun Ht);
      [|exact Hd].
    assert (Hm : Match (tokens tokenizer) (Some i) "!!+ %str% ==|!= %str% !!+"
                 = false).
    { destruct Hplus as [Hplus|Hplus].
      - now apply literal_comparison_after_plus with t.
      - now apply literal_comparison_before_plus. }
    unfold alwaysTrueOrFalse_step. rewrite Hf, Hq, Hm, !andb_false_r.
    reflexivity.
Qed.

Lemma X5_literal_comparison_witness :
  In (alwaysTrueFalseStringCompareError
        6 (Examples.T_kind eAssignmentOp "=") (Examples.q "a") (Examples.q "a"))
     [alwaysTrueFalseStringCompareError
        6 (Examples.T_kind eAssignmentOp "=") (Examples.q "a") (Examples.q "a")]
  /\ forall d, In d [] -> callstack d <> [8].
Proof.
  split.
  - refine (proj1 (X5_literal_comparison
                     MoreExamples.literalEquality Examples.warningsOn 6
                     (Examples.T_kind eAssignmentOp "=") (Examples.T_str "a")
                     _ _ _ _ _ _) _ _); try reflexivity.
    + repeat split; discriminate.
    + apply scanReaches_quiet_prefix; [simpl; lia|].
      intros j tj Hj Htj.
      do 6 (destruct j as [|j]; [injection Htj as <-; reflexivity|]). lia.
  - refine (proj2 (X5_literal_comparison
                     MoreExamples.literalEqualityAfterPlus Examples.warningsOn 8
                     (Examples.T_kind eArithmeticalOp "+") (Examples.T_str "a")
                     [] _ _ _ _ _) _); try reflexivity.
    + repeat split; discriminate.
    + left. reflexivity.
Defined.

(** ** Comparing a name with a string literal *)

Section SuspiciousLiteral.

Variable tokenizer : Tokenizer.
Local Abbreviation a := (tokens tokenizer).

Lemma Match_dot_star_false (i : nat) (t : Token) :
  nth_error a i = Some t -> str t <> "."%string -> str t <> "*"%string ->
  Match a (Some i) "[.*]" = false.
Proof.
  intros Ht Hdot Hstar. unfold Match, MatchId. eval_compile.
  cbn [match_atoms deref]. rewrite Ht. cbn [atom_matches].
  destruct (str t) as [|c [|c' r]] eqn:Es; try reflexivity.
  cbn [existsb]. rewrite andb_true_r.
  destruct (Ascii.eqb_spec c "."%char) as [->|]; [now elim Hdot|].
  destruct (Ascii.eqb_spec c "*"%char) as [->|]; [now elim Hstar|].
  reflexivity.
Qed.

Lemma Match_dot_star_true (i : nat) (t : Token) :
  nth_error a i = Some t -> str t = "*"%string ->
  Match a (Some i) "[.*]" = true.
Proof.
  intros Ht Hstar. unfold Match, MatchId. eval_compile.
  cbn [match_atoms deref]. rewrite Ht. cbn [atom_matches]. now rewrite Hstar.
Qed.

Lemma TokType_eqb_eq (x y : TokType) : TokType_eqb x y = true <-> x = y.
Proof.
  split; [|intros ->; destruct y; reflexivity].
  destruct x, y; intros H; try reflexivity; discriminate H.
Qed.

Lemma isStringOrNumber_false (t : Token) :
  tokType t <> eString -> tokType t <> eNumber -> isStringOrNumber t = false.
Proof.
  intros H1 H2. unfold isStringOrNumber. apply orb_false_iff. split.
  - destruct (TokType_eqb (tokType t) eString) eqn:E; [|reflexivity].
    apply TokType_eqb_eq in E. contradiction.
  - destruct (TokType_eqb (tokType t) eNumber) eqn:E; [|reflexivity].
    apply TokType_eqb_eq in E. contradiction.
Qed.

(** The step at a comparison of a plain name with a string literal. *)
Lemma suspicious_body_name_literal (i v l : nat) (t vt lt : Token) :
  nth_error a i = Some t -> tokType t = eComparisonOp ->
  str t <> "."%string -> str t <> "*"%string ->
  operands t v l ->
  nth_error a v = Some vt -> nth_error a l = Some lt ->
  isPlainName vt -> astParent vt = Some i ->
  tokType lt = eString ->
  checkSuspiciousStringCompare_body tokenizer i t
  = Ret (if isC tokenizer || hasArrayOrPointerVariable vt
         then [suspiciousStringCompareError i t (expressionString vt)]
         else []).
Proof.
  intros Ht Hcmp Hdot Hstar Hops Hv Hl
         (Hname & Hns & Hnn & Hp & Hs & Hd & Hc) Hparent Hstr.
  assert (Hlit : isStringOrNumber lt = true)
    by (unfold isStringOrNumber; rewrite Hstr; reflexivity).
  pose proof (isStringOrNumber_false vt Hns Hnn) as Hnlit.
  assert (Hplus : (str vt =? "+")%string = false) by now apply String.eqb_neq.
  assert (Hmul : (str vt =? "*")%string = false) by now apply String.eqb_neq.
  assert (Hmem : isMemberAccess vt = false).
  { unfold isMemberAccess. apply orb_false_iff. split; now apply String.eqb_neq. }
  assert (Htail :
            suspicious_deref tokenizer i t lt v
            = Ret (if isC tokenizer || hasArrayOrPointerVariable vt
                   then [suspiciousStringCompareError i t (expressionString vt)]
                   else [])).
  { unfold suspicious_deref. rewrite (at_tok_nth tokenizer _ _ Hv). cbn [bind].
    rewrite Hmul. cbn [skipMemberAccess deref]. rewrite Hv, Hmem. cbn [bind].
    rewrite Hv, Hname. cbn [negb].
    unfold suspicious_report. cbn [climbParents].
    rewrite (at_tok_nth tokenizer _ _ Hv). cbn [bind].
    rewrite Hparent, (valid_nth tokenizer _ _ Ht).
    rewrite (Match_dot_star_false i t Ht Hdot Hstar). cbn [bind].
    rewrite (at_tok_nth tokenizer _ _ Hv). cbn [bind].
    rewrite Hstr. cbn [TokType_eqb]. unfold hasArrayOrPointerVariable.
    destruct (isC tokenizer || _); reflexivity. }
  unfold checkSuspiciousStringCompare_body.
  rewrite Hcmp. cbn [TokType_eqb negb].
  destruct Hops as [[H1 H2]|[H1 H2]]; rewrite H1, H2;
    rewrite (valid_nth tokenizer _ _ Hv), (valid_nth tokenizer _ _ Hl);
    rewrite (at_tok_nth tokenizer _ _ Hv), (at_tok_nth tokenizer _ _ Hl);
    cbn [bind].
  - rewrite Hnlit, Hlit. cbn [negb]. rewrite Hplus. cbn [andb bind].
    exact Htail.
  - rewrite Hlit. rewrite Hplus. cbn [andb bind]. exact Htail.
Qed.

(** The step at a comparison of [*p] with a string literal. *)
Lemma suspicious_body_deref_literal (i s l p : nat) (t st lt pt : Token) :
  nth_error a i = Some t -> tokType t = eComparisonOp ->
  str t <> "."%string -> str t <> "*"%string ->
  operands t s l ->
  nth_error a s = Some st -> nth_error a l = Some lt ->
  nth_error a p = Some pt ->
  isDereference st p -> astParent st = Some i ->
  isPlainName pt -> astParent pt = Some s ->
  tokType lt = eString ->
  checkSuspiciousStringCompare_body tokenizer i t
  = Ret (if isC tokenizer
         then [suspiciousStringCompareError i t (expressionString st)]
         else []).
Proof.
  intros Ht Hcmp Hdot Hstar Hops Hs Hl Hp (Hst & Hty & Ho1 & Ho2) Hsparent
         (Hname & _ & _ & _ & _ & Hd & Hc) Hpparent Hstr.
  assert (Hlit : isStringOrNumber lt = true)
    by (unfold isStringOrNumber; rewrite Hstr; reflexivity).
  assert (Hnlit : isStringOrNumber st = false)
    by (unfold isStringOrNumber; rewrite Hty; reflexivity).
  assert (Hmem : isMemberAccess pt = false).
  { unfold isMemberAccess. apply orb_false_iff. split; now apply String.eqb_neq. }
  assert (Hlen : 1 <= length a).
  { assert (i < length a) by (apply nth_error_Some; congruence). lia. }
  assert (Htail :
            suspicious_deref tokenizer i t lt s
            = Ret (if isC tokenizer
                   then [suspiciousStringCompareError i t (expressionString st)]
                   else [])).
  { unfold suspicious_deref. rewrite (at_tok_nth tokenizer _ _ Hs). cbn [bind].
    rewrite Hst. cbn [String.eqb Ascii.eqb Bool.eqb]. cbn [andb].
    destruct (isC tokenizer) eqn:EC; [|reflexivity]. cbn [negb orb].
    rewrite Ho2. cbn [deref]. rewrite Hstr. cbn [TokType_eqb negb].
    rewrite Ho1. cbn [skipMemberAccess deref]. rewrite Hp, Hmem. cbn [bind].
    rewrite Hp, Hname. cbn [negb].
    unfold suspicious_report.
    destruct (length a) as [|n] eqn:En; [lia|].
    cbn [climbParents].
    rewrite (at_tok_nth tokenizer _ _ Hp). cbn [bind].
    rewrite Hpparent, (valid_nth tokenizer _ _ Hs).
    rewrite (Match_dot_star_true s st Hs Hst).
    rewrite (at_tok_nth tokenizer _ _ Hs). cbn [bind].
    rewrite Hsparent, (valid_nth tokenizer _ _ Ht).
    rewrite (Match_dot_star_false i t Ht Hdot Hstar). cbn [bind].
    rewrite (at_tok_nth tokenizer _ _ Hs). cbn [bind].
    rewrite Hstr. cbn [TokType_eqb]. rewrite EC. reflexivity. }
  unfold checkSuspiciousStringCompare_body.
  rewrite Hcmp. cbn [TokType_eqb negb].
  destruct Hops as [[H1 H2]|[H1 H2]]; rewrite H1, H2;
    rewrite (valid_nth tokenizer _ _ Hs), (valid_nth tokenizer _ _ Hl);
    rewrite (at_tok_nth tokenizer _ _ Hs), (at_tok_nth tokenizer _ _ Hl);
    cbn [bind].
  - rewrite Hnlit, Hlit. cbn [negb]. rewrite Hst. cbn. exact Htail.
  - rewrite Hlit. rewrite Hst. cbn. exact Htail.
Qed.

End SuspiciousLiteral.

Section SuspiciousRun.

Variable tokenizer : Tokenizer.
Variable settings : Settings.
Local Abbreviation a := (tokens tokenizer).

(** What the step at a token inside a function scope reports is what a
    returning run has at that token. *)
Lemma suspicious_run_at (s : Scope) (i : nat) (t : Token)
      (bs ds : list Diagnostic) :
  isEnabled settings "warning" = true ->
  In s (functionScopes tokenizer) -> inScope s i ->
  nth_error a i = Some t ->
  checkSuspiciousStringCompare_body tokenizer i t = Ret bs ->
  checkSuspiciousStringCompare tokenizer settings = Ret ds ->
  (forall d, In d bs -> In d ds)
  /\ (forall d, In d ds -> callstack d = [i] -> In d bs).
Proof.
  intros Hon Hs Hi Ht Hb Hrun.
  unfold checkSuspiciousStringCompare in Hrun. rewrite Hon in Hrun.
  cbn [negb] in Hrun. split.
  - destruct (forFunctionScopes_covers tokenizer _ ds s i t Hrun Hs Hi Ht)
      as (bs' & Hbs & Hincl).
    rewrite Hb in Hbs. injection Hbs as <-. exact Hincl.
  - intros d Hd Hc.
    destruct (forFunctionScopes_origin tokenizer _ ds d Hrun Hd)
      as (s' & j & t' & bs' & _ & _ & Ht' & Hbs & Hdb).
    pose proof (suspicious_body_anchor tokenizer j t' bs' d Hbs Hdb) as Hj.
    rewrite Hc in Hj. injection Hj as <-.
    rewrite Ht in Ht'. injection Ht' as <-.
    rewrite Hb in Hbs. now injection Hbs as <-.
Qed.

Lemma suspicious_report_kind (i : nat) (t litTok : Token) (varTok : nat)
      (vt : Token) (bs : list Diagnostic) (d : Diagnostic) :
  suspicious_report tokenizer i t litTok varTok vt = Ret bs -> In d bs ->
  severity d = warning
  /\ (id d = "literalWithCharPtrCompare"%string
      \/ id d = "charLiteralWithCharPtrCompare"%string).
Proof.
  unfold suspicious_report. intros H Hd.
  repeat (first
            [ discriminate H
            | injection H as <-; simpl in Hd;
              solve [ destruct Hd
                    | destruct Hd as [<-|[]]; cbn; auto ]
            | break_in H ]).
Qed.

Lemma suspicious_deref_kind (i : nat) (t litTok : Token) (varTok : nat)
      (bs : list Diagnostic) (d : Diagnostic) :
  suspicious_deref tokenizer i t litTok varTok = Ret bs -> In d bs ->
  severity d = warning
  /\ (id d = "literalWithCharPtrCompare"%string
      \/ id d = "charLiteralWithCharPtrCompare"%string).
Proof.
  unfold suspicious_deref. intros H Hd.
  repeat (first
            [ discriminate H
            | injection H as <-; solve [destruct Hd]
            | eapply suspicious_report_kind; eassumption
            | break_in H ]).
Qed.

(** A step that reports stands on a comparison operator with both operands
    and reports a warning with one of the two rule ids. *)
Lemma suspicious_body_kind (i : nat) (t : Token) (bs : list Diagnostic)
      (d : Diagnostic) :
  checkSuspiciousStringCompare_body tokenizer i t = Ret bs -> In d bs ->
  tokType t = eComparisonOp
  /\ deref a (astOperand1 t) <> None /\ deref a (astOperand2 t) <> None
  /\ severity d = warning
  /\ (id d = "literalWithCharPtrCompare"%string
      \/ id d = "charLiteralWithCharPtrCompare"%string).
Proof.
  unfold checkSuspiciousStringCompare_body. intros H Hd.
  destruct (TokType_eqb (tokType t) eComparisonOp) eqn:Ety; cbn [negb] in H.
  2:{ injection H as <-. destruct Hd. }
  apply TokType_eqb_eq in Ety. split; [exact Ety|].
  unfold valid in H.
  destruct (deref a (astOperand1 t)) eqn:E1.
  2:{ injection H as <-. destruct Hd. }
  destruct (astOperand1 t) as [o1|]; [|discriminate E1].
  destruct (deref a (astOperand2 t)) eqn:E2.
  2:{ injection H as <-. destruct Hd. }
  destruct (astOperand2 t) as [o2|]; [|discriminate E2].
  split; [discriminate|]. split; [discriminate|].
  repeat (first
            [ discriminate H
            | injection H as <-; solve [destruct Hd]
            | eapply suspicious_deref_kind; eassumption
            | break_in H ]).
Qed.

End SuspiciousRun.

(** X6: at a comparison-operator token inside a function scope whose
    operands are, in either order, a plain name and a string literal, with
    the warning category enabled: in C, or when the name's variable is an
    array or a pointer, every returning run has the
    [literalWithCharPtrCompare] finding naming it; in C++ with a name bound
    to no variable or to one that is neither array nor pointer, no finding
    of the run is located at the comparison. *)
Theorem X6_name_compared_with_string_literal
        (tokenizer : Tokenizer) (settings : Settings) (s : Scope)
        (i v l : nat) (t vt lt : Token) (ds : list Diagnostic) :
  isEnabled settings "warning" = true ->
  In s (functionScopes tokenizer) -> inScope s i ->
  nth_error (tokens tokenizer) i = Some t ->
  tokType t = eComparisonOp -> str t <> "."%string -> str t <> "*"%string ->
  operands t v l ->
  nth_error (tokens tokenizer) v = Some vt ->
  nth_error (tokens tokenizer) l = Some lt ->
  isPlainName vt -> astParent vt = Some i -> tokType lt = eString ->
  checkSuspiciousStringCompare tokenizer settings = Ret ds ->
  (isC tokenizer = true \/ hasArrayOrPointerVariable vt = true ->
   In (suspiciousStringCompareError i t (expressionString vt)) ds)
  /\ (isC tokenizer = false -> hasArrayOrPointerVariable vt = false ->
      forall d, In d ds -> callstack d <> [i]).
Proof.
  intros Hon Hs Hi Ht Hcmp Hdot Hstar Hops Hv Hl Hname Hparent Hstr Hrun.
  pose proof (suspicious_body_name_literal tokenizer i v l t vt lt
                Ht Hcmp Hdot Hstar Hops Hv Hl Hname Hparent Hstr) as Hb.
  destruct (suspicious_run_at tokenizer settings s i t _ ds
              Hon Hs Hi Ht Hb Hrun) as (Hin & Hout).
  split.
  - intros Hc. apply Hin.
    assert (E : isC tokenizer || hasArrayOrPointerVariable vt = true)
      by (apply orb_true_iff; exact Hc).
    rewrite E. now left.
  - intros Hc Hn d Hd Hcs. specialize (Hout d Hd Hcs).
    rewrite Hc, Hn in Hout. destruct Hout.
Qed.

(** X7: at a comparison-operator token inside a function scope whose
    operands are, in either order, a dereference [*p] of a plain name and a
    string literal, with the warning category enabled: in C every returning
    run has the [literalWithCharPtrCompare] finding, named after the whole
    dereference expression; in C++ no finding of the run is located at the
    comparison. *)
Theorem X7_dereference_compared_with_string_literal
        (tokenizer : Tokenizer) (settings : Settings) (sc : Scope)
        (i s l p : nat) (t st lt pt : Token) (ds : list Diagnostic) :
  isEnabled settings "warning" = true ->
  In sc (functionScopes tokenizer) -> inScope sc i ->
  nth_error (tokens tokenizer) i = Some t ->
  tokType t = eComparisonOp -> str t <> "."%string -> str t <> "*"%string ->
  operands t s l ->
  nth_error (tokens tokenizer) s = Some st ->
  nth_error (tokens tokenizer) l = Some lt ->
  nth_error (tokens tokenizer) p = Some pt ->
  isDereference st p -> astParent st = Some i ->
  isPlainName pt -> astParent pt = Some s ->
  tokType lt = eString ->
  checkSuspiciousStringCompare tokenizer settings = Ret ds ->
  (isC tokenizer = true ->
   In (suspiciousStringCompareError i t (expressionString st)) ds)
  /\ (isC tokenizer = false -> forall d, In d ds -> callstack d <> [i]).
Proof.
  intros Hon Hs Hi Ht Hcmp Hdot Hstar Hops Hst Hl Hp Hder Hsp Hname Hpp Hstr Hrun.
  pose proof (suspicious_body_deref_literal tokenizer i s l p t st lt pt
                Ht Hcmp Hdot Hstar Hops Hst Hl Hp Hder Hsp Hname Hpp Hstr) as Hb.
  destruct (suspicious_run_at tokenizer settings sc i t _ ds
              Hon Hs Hi Ht Hb Hrun) as (Hin & Hout).
  split.
  - intros Hc. apply Hin. rewrite Hc. now left.
  - intros Hc d Hd Hcs. specialize (Hout d Hd Hcs).
    rewrite Hc in Hout. destruct Hout.
Qed.

(** X8: every finding of a returning run of [checkSuspiciousStringCompare]
    is a warning with rule id [literalWithCharPtrCompare] or
    [charLiteralWithCharPtrCompare], located at a comparison-operator token
    that lies strictly inside a function scope and has both AST operands. *)
Theorem X8_suspicious_findings
        (tokenizer : Tokenizer) (settings : Settings) (ds : list Diagnostic)
        (d : Diagnostic) :
  checkSuspiciousStringCompare tokenizer settings = Ret ds -> In d ds ->
  exists s j t,
    In s (functionScopes tokenizer) /\ inScope s j
    /\ nth_error (tokens tokenizer) j = Some t
    /\ callstack d = [j]
    /\ tokType t = eComparisonOp
    /\ deref (tokens tokenizer) (astOperand1 t) <> None
    /\ deref (tokens tokenizer) (astOperand2 t) <> None
    /\ severity d = warning
    /\ (id d = "literalWithCharPtrCompare"%string
        \/ id d = "charLiteralWithCharPtrCompare"%string).
Proof.
  intros Hrun Hd. unfold checkSuspiciousStringCompare in Hrun.
  destruct (negb (isEnabled settings "warning")).
  { injection Hrun as <-. destruct Hd. }
  destruct (forFunctionScopes_origin tokenizer _ ds d Hrun Hd)
    as (s & j & t & bs & Hs & Hj & Ht & Hbs & Hdb).
  exists s, j, t.
  pose proof (suspicious_body_anchor tokenizer j t bs d Hbs Hdb) as Hc.
  destruct (suspicious_body_kind tokenizer j t bs d Hbs Hdb)
    as (Hty & H1 & H2 & Hsev & Hid).
  exact (conj Hs (conj Hj (conj Ht (conj Hc (conj Hty (conj H1 (conj H2
          (conj Hsev Hid)))))))).
Qed.

Lemma X6_name_compared_with_string_literal_witness :
  In (suspiciousStringCompareError
        11 (nth 11 (tokens (MoreExamples.pointerLiteralCompare false))
                (Examples.T_op "")) "p")
     [suspiciousStringCompareError
        11 (nth 11 (tokens (MoreExamples.pointerLiteralCompare false))
                (Examples.T_op "")) "p"]
  /\ forall d, In d [] -> callstack d <> [10].
Proof.
  split.
  - refine (proj1 (X6_name_compared_with_string_literal
                     (MoreExamples.pointerLiteralCompare false)
                     Examples.warningsOn (mkScope 7 16) 11 10 12
                     (nth 11 (tokens (MoreExamples.pointerLiteralCompare false)) (Examples.T_op ""))
                     (nth 10 (tokens (MoreExamples.pointerLiteralCompare false)) (Examples.T_op ""))
                     (nth 12 (tokens (MoreExamples.pointerLiteralCompare false)) (Examples.T_op ""))
                     [suspiciousStringCompareError 11 (nth 11 (tokens (MoreExamples.pointerLiteralCompare false)) (Examples.T_op "")) "p"]
                     _ _ _ _ _ _ _ _ _ _ _ _ _ _) _).
    + reflexivity.
    + left. reflexivity.
    + unfold inScope. simpl. lia.
    + reflexivity.
    + reflexivity.
    + discriminate.
    + discriminate.
    + left. split; reflexivity.
    + reflexivity.
    + reflexivity.
    + unfold isPlainName. simpl. repeat split; discriminate.
    + reflexivity.
    + reflexivity.
    + reflexivity.
    + right. reflexivity.
  - refine (proj2 (X6_name_compared_with_string_literal
                     MoreExamples.objectLiteralCompare
                     Examples.warningsOn (mkScope 6 15) 10 9 11
                     (nth 10 (tokens MoreExamples.objectLiteralCompare) (Examples.T_op ""))
                     (nth 9 (tokens MoreExamples.objectLiteralCompare) (Examples.T_op ""))
                     (nth 11 (tokens MoreExamples.objectLiteralCompare) (Examples.T_op "")) []
                     _ _ _ _ _ _ _ _ _ _ _ _ _ _) _ _).
    + reflexivity.
    + left. reflexivity.
    + unfold inScope. simpl. lia.
    + reflexivity.
    + reflexivity.
    + discriminate.
    + discriminate.
    + left. split; reflexivity.
    + reflexivity.
    + reflexivity.
    + unfold isPlainName. simpl. repeat split; discriminate.
    + reflexivity.
    + reflexivity.
    + reflexivity.
    + reflexivity.
    + reflexivity.
Defined.

Lemma X7_dereference_compared_with_string_literal_witness :
  In (suspiciousStringCompareError
        12 (nth 12 (tokens (MoreExamples.derefLiteralCompare true))
                (Examples.T_op "")) "*p")
     [suspiciousStringCompareError
        12 (nth 12 (tokens (MoreExamples.derefLiteralCompare true))
                (Examples.T_op "")) "*p"]
  /\ forall d, In d [] -> callstack d <> [12].
Proof.
  split.
  - refine (proj1 (X7_dereference_compared_with_string_literal
                     (MoreExamples.derefLiteralCompare true)
                     Examples.warningsOn (mkScope 7 17) 12 10 13 11
                     (nth 12 (tokens (MoreExamples.derefLiteralCompare true)) (Examples.T_op ""))
                     (nth 10 (tokens (MoreExamples.derefLiteralCompare true)) (Examples.T_op ""))
                     (nth 13 (tokens (MoreExamples.derefLiteralCompare true)) (Examples.T_op ""))
                     (nth 11 (tokens (MoreExamples.derefLiteralCompare true)) (Examples.T_op ""))
                     [suspiciousStringCompareError 12 (nth 12 (tokens (MoreExamples.derefLiteralCompare true)) (Examples.T_op "")) "*p"]
                     _ _ _ _ _ _ _ _ _ _ _ _ _ _ _ _ _) _).
    + reflexivity.
    + left. reflexivity.
    + unfold inScope. simpl. lia.
    + reflexivity.
    + reflexivity.
    + discriminate.
    + discriminate.
    + left. split; reflexivity.
    + reflexivity.
    + reflexivity.
    + reflexivity.
    + unfold isDereference. simpl. repeat split; reflexivity.
    + reflexivity.
    + unfold isPlainName. simpl. repeat split; discriminate.
    + reflexivity.
    + reflexivity.
    + reflexivity.
    + reflexivity.
  - refine (proj2 (X7_dereference_compared_with_string_literal
                     (MoreExamples.derefLiteralCompare false)
                     Examples.warningsOn (mkScope 7 17) 12 10 13 11
                     (nth 12 (tokens (MoreExamples.derefLiteralCompare false)) (Examples.T_op ""))
                     (nth 10 (tokens (MoreExamples.derefLiteralCompare false)) (Examples.T_op ""))
                     (nth 13 (tokens (MoreExamples.derefLiteralCompare false)) (Examples.T_op ""))
                     (nth 11 (tokens (MoreExamples.derefLiteralCompare false)) (Examples.T_op "")) []
                     _ _ _ _ _ _ _ _ _ _ _ _ _ _ _ _ _) _).
    + reflexivity.
    + left. reflexivity.
    + unfold inScope. simpl. lia.
    + reflexivity.
    + reflexivity.
    + discriminate.
    + discriminate.
    + left. split; reflexivity.
    + reflexivity.
    + reflexivity.
    + reflexivity.
    + unfold isDereference. simpl. repeat split; reflexivity.
    + reflexivity.
    + unfold isPlainName. simpl. repeat split; discriminate.
    + reflexivity.
    + reflexivity.
    + reflexivity.
    + reflexivity.
Defined.

Lemma X8_suspicious_findings_witness :
  exists s j t,
    In s (functionScopes (MoreExamples.pointerLiteralCompare true))
    /\ inScope s j
    /\ nth_error (tokens (MoreExamples.pointerLiteralCompare true)) j = Some t
    /\ callstack
         (suspiciousStringCompareError
            11 (nth 11 (tokens (MoreExamples.pointerLiteralCompare true))
                    (Examples.T_op "")) "p") = [j]
    /\ tokType t = eComparisonOp
    /\ deref (tokens (MoreExamples.pointerLiteralCompare true))
             (astOperand1 t) <> None
    /\ deref (tokens (MoreExamples.pointerLiteralCompare true))
             (astOperand2 t) <> None
    /\ severity
         (suspiciousStringCompareError
            11 (nth 11 (tokens (MoreExamples.pointerLiteralCompare true))
                    (Examples.T_op "")) "p") = warning
    /\ (id (suspiciousStringCompareError
               11 (nth 11 (tokens (MoreExamples.pointerLiteralCompare true))
                       (Examples.T_op "")) "p")
         = "literalWithCharPtrCompare"%string
        \/ id (suspiciousStringCompareError
                 11 (nth 11 (tokens (MoreExamples.pointerLiteralCompare true))
                         (Examples.T_op "")) "p")
           = "charLiteralWithCharPtrCompare"%string).
Proof.
  apply (X8_suspicious_findings
           (MoreExamples.pointerLiteralCompare true) Examples.warningsOn
           [suspiciousStringCompareError
              11 (nth 11 (tokens (MoreExamples.pointerLiteralCompare true))
                      (Examples.T_op "")) "p"]).
  - reflexivity.
  - left. reflexivity.
Defined.

(** ** Detectors whose step cannot fault *)

Section TotalWalk.

Variable tokenizer : Tokenizer.
Local Abbreviation a := (tokens tokenizer).

Variable body : nat -> Token -> Outcome (list Diagnostic).

Lemma visitAll_total (l : list nat) :
  (forall j t, nth_error a j = Some t -> exists bs, body j t = Ret bs) ->
  (forall j, In j l -> j < length a) ->
  exists ds, visitAll tokenizer body l = Ret ds.
Proof.
  intros Hbody. induction l as [|j l IH]; intros Hl; [now exists []|].
  cbn [visitAll]. unfold at_tok. cbn [deref].
  destruct (nth_error a j) as [t|] eqn:Et.
  2:{ apply nth_error_None in Et. specialize (Hl j (or_introl eq_refl)). lia. }
  cbn [bind]. destruct (Hbody j t Et) as (bs & Hbs). rewrite Hbs. cbn [bind].
  destruct IH as (ds & Hds); [intros k Hk; apply Hl; now right|].
  rewrite Hds. cbn [bind]. eexists. reflexivity.
Qed.

(** With well-formed function scopes, a walk whose step always returns
    returns. *)
Lemma forFunctionScopes_total :
  (forall j t, nth_error a j = Some t -> exists bs, body j t = Ret bs) ->
  (forall s, In s (functionScopes tokenizer) -> wellFormedScope tokenizer s) ->
  exists ds, forFunctionScopes tokenizer (keepCursor body) = Ret ds.
Proof.
  intros Hbody. unfold forFunctionScopes.
  induction (functionScopes tokenizer) as [|s scopes IH]; intros Hwf;
    [now exists []|].
  cbn [forScopes].
  destruct (Hwf s (or_introl eq_refl)) as (Hlen & Hlt).
  assert (Hlt' : classStart s < classEnd s) by lia.
  rewrite (walkScope_keepCursor tokenizer body s Hlen Hlt').
  destruct (visitAll_total (tokensInScope a s) Hbody) as (rs & Hrs).
  { intros j Hj. now apply (in_tokensInScope tokenizer) in Hj. }
  rewrite Hrs. cbn [bind].
  destruct IH as (ds & Hds); [intros s' Hs'; apply Hwf; now right|].
  rewrite Hds. cbn [bind]. eexists. reflexivity.
Qed.

(** A walk that returns found every function scope well formed. *)
Lemma forFunctionScopes_wellFormed (ds : list Diagnostic) (s : Scope) :
  forFunctionScopes tokenizer (keepCursor body) = Ret ds ->
  In s (functionScopes tokenizer) -> wellFormedScope tokenizer s.
Proof.
  unfold forFunctionScopes. intros H Hs.
  destruct (forScopes_incl _ _ _ _ H Hs) as (rs & Hr & _).
  apply walkScope_keepCursor_inv in Hr as (Hlen & Hlt & _).
  split; [exact Hlen|intros _; exact Hlt].
Qed.

Lemma visitAll_stepFindings :
  forall l ds,
    visitAll tokenizer body l = Ret ds ->
    ds = flat_map (stepFindings a body) l.
Proof.
  induction l as [|j l IH]; intros ds H; cbn [visitAll] in H.
  { now injection H as <-. }
  unfold at_tok in H. cbn [deref] in H.
  destruct (nth_error a j) as [t|] eqn:Et; [|discriminate]. cbn [bind] in H.
  destruct (body j t) as [bs| |] eqn:Eb; try discriminate. cbn [bind] in H.
  destruct (visitAll tokenizer body l) as [ds'| |]; try discriminate.
  cbn [bind] in H. injection H as <-.
  cbn [flat_map]. unfold stepFindings at 1. rewrite Et, Eb.
  now rewrite (IH ds' eq_refl).
Qed.

(** The findings of a returning walk are those of its steps, scope by
    scope and token by token. *)
Lemma forFunctionScopes_stepFindings (ds : list Diagnostic) :
  forFunctionScopes tokenizer (keepCursor body) = Ret ds ->
  ds = scopeByScope tokenizer (stepFindings a body).
Proof.
  unfold forFunctionScopes, scopeByScope.
  revert ds.
  induction (functionScopes tokenizer) as [|s scopes IH]; intros ds H;
    cbn [forScopes] in H.
  { now injection H as <-. }
  destruct (walkScope tokenizer (keepCursor body) s) as [rs| |] eqn:Er;
    try discriminate.
  cbn [bind] in H.
  destruct (forScopes (walkScope tokenizer (keepCursor body)) scopes)
    as [ds'| |]; try discriminate.
  cbn [bind] in H. injection H as <-.
  apply walkScope_keepCursor_inv in Er as (_ & _ & Hvis).
  cbn [flat_map].
  now rewrite (visitAll_stepFindings _ _ Hvis), (IH ds' eq_refl).
Qed.

(** The findings of a returning walk, when the findings of each step are
    described by [P]. *)
Lemma forFunctionScopes_findings
      (P : nat -> Token -> Diagnostic -> Prop) (ds : list Diagnostic) :
  (forall j t, nth_error a j = Some t ->
               exists bs, body j t = Ret bs /\ forall d, In d bs <-> P j t d) ->
  forFunctionScopes tokenizer (keepCursor body) = Ret ds ->
  forall d,
    In d ds <->
    exists s j t,
      In s (functionScopes tokenizer) /\ inScope s j
      /\ nth_error a j = Some t /\ P j t d.
Proof.
  intros Hbody Hrun d. split.
  - intros Hd.
    destruct (forFunctionScopes_origin tokenizer body ds d Hrun Hd)
      as (s & j & t & bs & Hs & Hj & Ht & Hbs & Hdb).
    exists s, j, t.
    refine (conj Hs (conj Hj (conj Ht _))).
    destruct (Hbody j t Ht) as (bs' & Hbs' & HP).
    rewrite Hbs in Hbs'. injection Hbs' as <-. now apply HP.
  - intros (s & j & t & Hs & Hj & Ht & HP).
    destruct (forFunctionScopes_covers tokenizer body ds s j t Hrun Hs Hj Ht)
      as (bs & Hbs & Hincl).
    destruct (Hbody j t Ht) as (bs' & Hbs' & HP').
    rewrite Hbs in Hbs'. injection Hbs' as <-. apply Hincl. now apply HP'.
Qed.

End TotalWalk.

Section PlusInteger.

Variable tokenizer : Tokenizer.
Local Abbreviation a := (tokens tokenizer).

Lemma strPlusInteger_body_spec (j : nat) (t : Token) :
  exists bs,
    strPlusInteger_body tokenizer j t = Ret bs
    /\ forall d,
        In d bs <-> literalPlusNumberAt a t /\ d = strPlusIntegerError j t.
Proof.
  unfold strPlusInteger_body, literalPlusNumberAt.
  destruct (String.eqb_spec (str t) "+") as [Hplus|Hplus].
  2:{ exists []. split; [reflexivity|]. intros d. split; [intros []|].
      intros ((H & _) & _). contradiction. }
  destruct (deref a (astOperand1 t)) as [lt|] eqn:E1.
  2:{ exists []. split; [reflexivity|]. intros d. split; [intros []|].
      intros ((_ & (lt & H & _) & _) & _). discriminate. }
  destruct (TokType_eqb (tokType lt) eString) eqn:Ety.
  2:{ exists []. split; [reflexivity|]. intros d. split; [intros []|].
      intros ((_ & (lt' & H & Hs) & _) & _). injection H as <-.
      apply TokType_eqb_eq in Hs. congruence. }
  apply TokType_eqb_eq in Ety.
  destruct (deref a (astOperand2 t)) as [rt|] eqn:E2.
  2:{ exists []. split; [reflexivity|]. intros d. split; [intros []|].
      intros ((_ & _ & (rt & H & _)) & _). discriminate. }
  destruct (TokType_eqb (tokType rt) eNumber) eqn:Etn.
  - apply TokType_eqb_eq in Etn. eexists. split; [reflexivity|].
    intros d. split.
    + intros [<-|[]]. split; [|reflexivity].
      split; [exact Hplus|]. split; [now exists lt|now exists rt].
    + intros (_ & ->). now left.
  - exists []. split; [reflexivity|]. intros d. split; [intros []|].
    intros ((_ & _ & (rt' & H & Hn)) & _). injection H as <-.
    apply TokType_eqb_eq in Hn. congruence.
Qed.

(** The step reports once at a [+] with a string literal on the left and
    a number on the right, and nothing at any other token. *)
Lemma strPlusInteger_body_exact (j : nat) (t : Token) :
  (literalPlusNumberAt a t ->
   strPlusInteger_body tokenizer j t = Ret [strPlusIntegerError j t])
  /\ (~ literalPlusNumberAt a t -> strPlusInteger_body tokenizer j t = Ret []).
Proof.
  unfold strPlusInteger_body, literalPlusNumberAt. split.
  - intros (Hplus & (lt & Hl & Hls) & (rt & Hr & Hrn)).
    rewrite Hplus, Hl, Hls, Hr, Hrn. reflexivity.
  - intros Hn.
    destruct (String.eqb_spec (str t) "+") as [Hplus|Hplus]; [|reflexivity].
    destruct (deref a (astOperand1 t)) as [lt|] eqn:E1; [|reflexivity].
    destruct (TokType_eqb (tokType lt) eString) eqn:Ety; [|reflexivity].
    destruct (deref a (astOperand2 t)) as [rt|] eqn:E2; [|reflexivity].
    destruct (TokType_eqb (tokType rt) eNumber) eqn:Etn; [|reflexivity].
    apply TokType_eqb_eq in Ety, Etn. elim Hn.
    split; [exact Hplus|]. split; [now exists lt|now exists rt].
Qed.

End PlusInteger.

(** X10: [strPlusInteger] returns exactly when every function scope has
    its opening brace in the token list and its closing brace null or after
    the opening one.  Its findings are then, scope by scope in the order of
    the function scopes and token by token, one [strPlusInteger] finding at
    each [+] token that has a string literal as left operand and a number
    as right operand, and nothing at any other token: a token inside
    several scopes, or inside a scope listed twice, is reported once for
    each.  In particular a finding is reported exactly when it is the
    finding of such a [+] strictly inside a function scope. *)
Theorem X10_strPlusInteger_exact (tokenizer : Tokenizer) :
  ((exists ds, strPlusInteger tokenizer = Ret ds) <->
   (forall s, In s (functionScopes tokenizer) -> wellFormedScope tokenizer s))
  /\ forall ds,
      strPlusInteger tokenizer = Ret ds ->
      (exists found,
          (forall j t,
              nth_error (tokens tokenizer) j = Some t ->
              (literalPlusNumberAt (tokens tokenizer) t ->
               found j = [strPlusIntegerError j t])
              /\ (~ literalPlusNumberAt (tokens tokenizer) t -> found j = []))
          /\ ds = scopeByScope tokenizer found)
      /\ forall d,
          In d ds <->
          exists s j t,
            In s (functionScopes tokenizer) /\ inScope s j
            /\ nth_error (tokens tokenizer) j = Some t
            /\ literalPlusNumberAt (tokens tokenizer) t
            /\ d = strPlusIntegerError j t.
Proof.
  split; [split|].
  - intros (ds & Hrun) s Hs.
    exact (forFunctionScopes_wellFormed tokenizer _ ds s Hrun Hs).
  - intros Hwf. apply forFunctionScopes_total; [|exact Hwf].
    intros j t _. destruct (strPlusInteger_body_spec tokenizer j t) as (bs & H & _).
    now exists bs.
  - intros ds Hrun. split.
    + exists (stepFindings (tokens tokenizer) (strPlusInteger_body tokenizer)).
      split.
      * intros j t Ht. unfold stepFindings. rewrite Ht.
        destruct (strPlusInteger_body_exact tokenizer j t) as (Hyes & Hno).
        split; intros H; [rewrite (Hyes H)|rewrite (Hno H)]; reflexivity.
      * exact (forFunctionScopes_stepFindings tokenizer _ ds Hrun).
    + apply (forFunctionScopes_findings tokenizer (strPlusInteger_body tokenizer)
               (fun j t d => literalPlusNumberAt (tokens tokenizer) t
                             /\ d = strPlusIntegerError j t) ds); [|exact Hrun].
      intros j t _. apply strPlusInteger_body_spec.
Qed.

Lemma X10_strPlusInteger_exact_witness :
  (exists ds, strPlusInteger Examples.literalPlusNumber = Ret ds)
  /\ (exists ds, strPlusInteger MoreExamples.scopeWithNullEnd = Ret ds)
  /\ ~ (exists ds, strPlusInteger MoreExamples.scopeWithoutEnd = Ret ds)
  /\ exists found,
      (forall j t,
          nth_error (tokens MoreExamples.scopeListedTwice) j = Some t ->
          (literalPlusNumberAt (tokens MoreExamples.scopeListedTwice) t ->
           found j = [strPlusIntegerError j t])
          /\ (~ literalPlusNumberAt (tokens MoreExamples.scopeListedTwice) t ->
              found j = []))
      /\ [strPlusIntegerError
            6 (nth 6 (tokens MoreExamples.scopeListedTwice) (Examples.T_op ""));
          strPlusIntegerError
            6 (nth 6 (tokens MoreExamples.scopeListedTwice) (Examples.T_op ""))]
         = scopeByScope MoreExamples.scopeListedTwice found.
Proof.
  split; [|split; [|split]].
  4:{ apply (proj1 (proj2 (X10_strPlusInteger_exact
                             MoreExamples.scopeListedTwice) _ eq_refl)). }
  - apply (proj2 (proj1 (X10_strPlusInteger_exact Examples.literalPlusNumber))).
    intros s [<-|[]]. unfold wellFormedScope. simpl. lia.
  - apply (proj2 (proj1 (X10_strPlusInteger_exact
                           MoreExamples.scopeWithNullEnd))).
    intros s [<-|[]]. unfold wellFormedScope. simpl. lia.
  - intros H.
    pose proof (proj1 (proj1 (X10_strPlusInteger_exact
                                MoreExamples.scopeWithoutEnd)) H
                      (mkScope 4 4) (or_introl eq_refl)) as (_ & Hlt).
    simpl in Hlt. lia.
Defined.

Section LiteralWrite.

Variable tokenizer : Tokenizer.
Local Abbreviation a := (tokens tokenizer).

Lemma stringLiteralWrite_body_spec (j : nat) (t : Token) :
  exists bs,
    stringLiteralWrite_body tokenizer j t = Ret bs
    /\ forall d,
        In d bs <->
        exists lit,
          literalWrittenAt a j t lit
          /\ d = stringLiteralWriteError tokenizer j (Some lit).
Proof.
  unfold stringLiteralWrite_body, literalWrittenAt.
  destruct (variable t) as [v|] eqn:Ev.
  2:{ exists []. split; [reflexivity|]. intros d. split; [intros []|].
      intros (lit & ((v & H & _) & _) & _). discriminate. }
  destruct (isPointer v) eqn:Ep; cbn [negb].
  2:{ exists []. split; [reflexivity|]. intros d. split; [intros []|].
      intros (lit & ((v' & H & Hp) & _) & _). injection H as <-. congruence. }
  destruct (valid a (getValueTokenMinStrSize t)) as [s|] eqn:Es.
  2:{ exists []. split; [reflexivity|]. intros d. split; [intros []|].
      intros (lit & (_ & H & _) & _). discriminate. }
  destruct (Match a (Some j) "%var% [" && simpleMatch a (linkAt a j 1) "] =")
    eqn:E1.
  { eexists. split; [reflexivity|]. intros d. split.
    - intros [<-|[]]. exists s. split; [|reflexivity].
      apply andb_true_iff in E1. split; [now exists v|]. split; [reflexivity|].
      now left.
    - intros (lit & (_ & H & _) & ->). injection H as <-. now left. }
  destruct (Match a (previous a j) "* %var% =") eqn:E2.
  { eexists. split; [reflexivity|]. intros d. split.
    - intros [<-|[]]. exists s. split; [|reflexivity].
      split; [now exists v|]. split; [reflexivity|]. now right.
    - intros (lit & (_ & H & _) & ->). injection H as <-. now left. }
  exists []. split; [reflexivity|]. intros d. split; [intros []|].
  intros (lit & (_ & _ & [(H1 & H2)|H]) & _).
  - rewrite H1, H2 in E1. discriminate.
  - congruence.
Qed.

(** The step reports once at a written-through token, and nothing at any
    other token. *)
Lemma stringLiteralWrite_body_exact (j : nat) (t : Token) :
  (forall lit,
      literalWrittenAt a j t lit ->
      stringLiteralWrite_body tokenizer j t
      = Ret [stringLiteralWriteError tokenizer j (Some lit)])
  /\ ((forall lit, ~ literalWrittenAt a j t lit) ->
      stringLiteralWrite_body tokenizer j t = Ret []).
Proof.
  unfold stringLiteralWrite_body, literalWrittenAt. split.
  - intros lit ((v & Hv & Hp) & Hlit & Hpat).
    rewrite Hv, Hp, Hlit. cbn [negb].
    destruct Hpat as [(H1 & H2)|H].
    + now rewrite H1, H2.
    + rewrite H.
      now destruct (Match a (Some j) "%var% ["
                    && simpleMatch a (linkAt a j 1) "] =").
  - intros Hn.
    destruct (variable t) as [v|] eqn:Ev; [|reflexivity].
    destruct (isPointer v) eqn:Ep; cbn [negb]; [|reflexivity].
    destruct (valid a (getValueTokenMinStrSize t)) as [s|] eqn:Es;
      [|reflexivity].
    destruct (Match a (Some j) "%var% [" && simpleMatch a (linkAt a j 1) "] =")
      eqn:E1.
    { apply andb_true_iff in E1. elim (Hn s).
      split; [now exists v|]. split; [reflexivity|now left]. }
    destruct (Match a (previous a j) "* %var% =") eqn:E2; [|reflexivity].
    elim (Hn s). split; [now exists v|]. split; [reflexivity|now right].
Qed.

Lemma stringLiteralWriteError_shape (j lit : nat) :
  lit < length a ->
  callstack (stringLiteralWriteError tokenizer j (Some lit)) = [j; lit]
  /\ severity (stringLiteralWriteError tokenizer j (Some lit)) = error
  /\ id (stringLiteralWriteError tokenizer j (Some lit))
     = "stringLiteralWrite"%string.
Proof.
  intros H. unfold stringLiteralWriteError. cbn.
  now rewrite (valid_in_range tokenizer lit H).
Qed.

End LiteralWrite.

(** X11: [stringLiteralWrite] returns exactly when every function scope
    has its opening brace in the token list and its closing brace null or
    after the opening one.  Its findings are then, scope by scope in the
    order of the function scopes and token by token, one finding for each
    token that is bound to a pointer variable whose value is known to be a
    string literal and that is written through, by [var [ ... ] =] or by
    [* var =], and nothing at any other token: a token inside several
    scopes is reported once for each.  In particular a finding is reported
    exactly when it is the finding of such a token strictly inside a
    function scope; it has error severity and the write site followed by
    the literal as call stack. *)
Theorem X11_stringLiteralWrite_exact (tokenizer : Tokenizer) :
  ((exists ds, stringLiteralWrite tokenizer = Ret ds) <->
   (forall s, In s (functionScopes tokenizer) -> wellFormedScope tokenizer s))
  /\ forall ds,
      stringLiteralWrite tokenizer = Ret ds ->
      (exists found,
          (forall j t,
              nth_error (tokens tokenizer) j = Some t ->
              (forall lit,
                  literalWrittenAt (tokens tokenizer) j t lit ->
                  found j = [stringLiteralWriteError tokenizer j (Some lit)])
              /\ ((forall lit, ~ literalWrittenAt (tokens tokenizer) j t lit) ->
                  found j = []))
          /\ ds = scopeByScope tokenizer found)
      /\ forall d,
          In d ds <->
          exists s j t lit,
            In s (functionScopes tokenizer) /\ inScope s j
            /\ nth_error (tokens tokenizer) j = Some t
            /\ literalWrittenAt (tokens tokenizer) j t lit
            /\ d = stringLiteralWriteError tokenizer j (Some lit)
            /\ callstack d = [j; lit] /\ severity d = error.
Proof.
  split; [split|].
  - intros (ds & Hrun) s Hs.
    exact (forFunctionScopes_wellFormed tokenizer _ ds s Hrun Hs).
  - intros Hwf. apply forFunctionScopes_total; [|exact Hwf].
    intros j t _.
    destruct (stringLiteralWrite_body_spec tokenizer j t) as (bs & H & _).
    now exists bs.
  - intros ds Hrun. split.
    { exists (stepFindings (tokens tokenizer)
                           (stringLiteralWrite_body tokenizer)).
      split.
      - intros j t Ht. unfold stepFindings. rewrite Ht.
        destruct (stringLiteralWrite_body_exact tokenizer j t) as (Hyes & Hno).
        split.
        + intros lit H. now rewrite (Hyes lit H).
        + intros H. now rewrite (Hno H).
      - exact (forFunctionScopes_stepFindings tokenizer _ ds Hrun). }
    intros d.
    pose proof (forFunctionScopes_findings
                  tokenizer (stringLiteralWrite_body tokenizer)
                  (fun j t d =>
                     exists lit,
                       literalWrittenAt (tokens tokenizer) j t lit
                       /\ d = stringLiteralWriteError tokenizer j (Some lit))
                  ds (fun j t _ => stringLiteralWrite_body_spec tokenizer j t)
                  Hrun d) as H.
    rewrite H. split.
    + intros (s & j & t & Hs & Hj & Ht & lit & Hw & ->).
      exists s, j, t, lit.
      destruct Hw as (Hv & Hlit & Hpat).
      destruct (valid_Some tokenizer _ _ Hlit) as (_ & Hlen).
      destruct (stringLiteralWriteError_shape tokenizer j lit Hlen)
        as (Hc & Hsev & _).
      refine (conj Hs (conj Hj (conj Ht (conj _ (conj eq_refl (conj Hc Hsev)))))).
      exact (conj Hv (conj Hlit Hpat)).
    + intros (s & j & t & lit & Hs & Hj & Ht & Hw & -> & _).
      exists s, j, t. refine (conj Hs (conj Hj (conj Ht _))). now exists lit.
Qed.

Lemma X11_stringLiteralWrite_exact_witness :
  (exists ds, stringLiteralWrite Examples.writeLiteral = Ret ds)
  /\ (exists ds, stringLiteralWrite MoreExamples.scopeWithNullEnd = Ret ds)
  /\ ~ (exists ds, stringLiteralWrite MoreExamples.scopeWithoutEnd = Ret ds).
Proof.
  split; [|split].
  - apply (proj2 (proj1 (X11_stringLiteralWrite_exact Examples.writeLiteral))).
    intros s [<-|[]]. unfold wellFormedScope. simpl. lia.
  - apply (proj2 (proj1 (X11_stringLiteralWrite_exact
                           MoreExamples.scopeWithNullEnd))).
    intros s [<-|[]]. unfold wellFormedScope. simpl. lia.
  - intros H.
    pose proof (proj1 (proj1 (X11_stringLiteralWrite_exact
                                MoreExamples.scopeWithoutEnd)) H
                      (mkScope 4 4) (or_introl eq_refl)) as (_ & Hlt).
    simpl in Hlt. lia.
Defined.

(** X12: when [stringLiteralWrite], [checkSuspiciousStringCompare] (with
    the warning category enabled), [strPlusChar], [strPlusInteger] or
    [sprintfOverlappingData] returns, every function scope has its opening
    brace in the token list and its closing brace null or after the opening
    one.  A null opening brace is dereferenced; with a closing brace that
    is a token at or before the opening one the walk runs off the token
    list without meeting it and enters the loop body with a null token. *)
Theorem X12_malformed_scope_faults
        (toLongNumber : string -> Z) (tokenizer : Tokenizer)
        (settings : Settings) (d : Detector) (ds : list Diagnostic) :
  In d cursorKeeping ->
  runDetector toLongNumber tokenizer settings d = Ret ds ->
  (d = D_checkSuspiciousStringCompare /\ isEnabled settings "warning" = false)
  \/ forall s, In s (functionScopes tokenizer) -> wellFormedScope tokenizer s.
Proof.
  cbn. intros [<-|[<-|[<-|[<-|[<-|[]]]]]] H; cbn [runDetector] in H.
  - right. intros s.
    exact (forFunctionScopes_wellFormed tokenizer _ ds s H).
  - unfold checkSuspiciousStringCompare in H.
    destruct (isEnabled settings "warning") eqn:E; cbn [negb] in H.
    + right. intros s.
      exact (forFunctionScopes_wellFormed tokenizer _ ds s H).
    + left. auto.
  - right. intros s.
    exact (forFunctionScopes_wellFormed tokenizer _ ds s H).
  - right. intros s.
    exact (forFunctionScopes_wellFormed tokenizer _ ds s H).
  - right. intros s.
    exact (forFunctionScopes_wellFormed tokenizer _ ds s H).
Qed.

Lemma X12_malformed_scope_faults_witness :
  (D_strPlusChar = D_checkSuspiciousStringCompare
   /\ isEnabled Examples.warningsOn "warning" = false)
  \/ forall s,
      In s (functionScopes MoreExamples.literalPlusCharLiteral) ->
      wellFormedScope MoreExamples.literalPlusCharLiteral s.
Proof.
  apply (X12_malformed_scope_faults
           Examples.toLong MoreExamples.literalPlusCharLiteral
           Examples.warningsOn D_strPlusChar
           [strPlusCharError 6 (nth 6 (tokens MoreExamples.literalPlusCharLiteral)
                                    (Examples.T_op ""))]).
  - cbn. tauto.
  - reflexivity.
Defined.

(** ** Adding a character to a string literal *)

Section LiteralPlusChar.

Variable tokenizer : Tokenizer.
Local Abbreviation a := (tokens tokenizer).

Lemma strPlusChar_run_at (s : Scope) (i : nat) (t : Token)
      (bs ds : list Diagnostic) :
  In s (functionScopes tokenizer) -> inScope s i ->
  nth_error a i = Some t ->
  strPlusChar_body tokenizer i t = Ret bs ->
  strPlusChar tokenizer = Ret ds ->
  (forall d, In d bs -> In d ds)
  /\ (forall d, In d ds -> callstack d = [i] -> In d bs).
Proof.
  intros Hs Hi Ht Hb Hrun. split.
  - destruct (forFunctionScopes_covers tokenizer _ ds s i t Hrun Hs Hi Ht)
      as (bs' & Hbs & Hincl).
    rewrite Hb in Hbs. injection Hbs as <-. exact Hincl.
  - intros d Hd Hc.
    destruct (forFunctionScopes_origin tokenizer _ ds d Hrun Hd)
      as (s' & j & t' & bs' & _ & _ & Ht' & Hbs & Hdb).
    pose proof (strPlusChar_body_anchor tokenizer j t' bs' d Hbs Hdb) as Hj.
    rewrite Hc in Hj. injection Hj as <-.
    rewrite Ht in Ht'. injection Ht' as <-.
    rewrite Hb in Hbs. now injection Hbs as <-.
Qed.

(** The step at a [+] with a string literal on the left and a right
    operand. *)
Lemma strPlusChar_body_literal_left (i l r : nat) (t lt rt : Token) :
  str t = "+"%string ->
  astOperand1 t = Some l -> astOperand2 t = Some r ->
  nth_error a l = Some lt -> nth_error a r = Some rt ->
  tokType lt = eString ->
  (tokType rt = eChar \/ isCharVariable a rt ->
   strPlusChar_body tokenizer i t = Ret [strPlusCharError i t])
  /\ (tokType rt <> eChar ->
      variable rt = None
      \/ (exists v, variable rt = Some v
                    /\ (isPointer v = true \/ isArray v = true)) ->
      strPlusChar_body tokenizer i t = Ret []).
Proof.
  intros Hplus H1 H2 Hl Hr Hty.
  assert (Hb : strPlusChar_body tokenizer i t
               = if TokType_eqb (tokType rt) eChar
                 then Ret [strPlusCharError i t]
                 else c <- isChar tokenizer (variable rt) ;;
                      if c then Ret [strPlusCharError i t] else Ret []).
  { unfold strPlusChar_body. rewrite Hplus, H1, H2. cbn [deref].
    rewrite Hl, Hr, Hty. reflexivity. }
  rewrite Hb. split.
  - intros [Hc|Hc].
    + rewrite Hc. reflexivity.
    + destruct (TokType_eqb (tokType rt) eChar); [reflexivity|].
      now rewrite (isChar_of_charVariable tokenizer rt Hc).
  - intros Hn Hv.
    destruct (TokType_eqb (tokType rt) eChar) eqn:E.
    { apply TokType_eqb_eq in E. contradiction. }
    destruct Hv as [Hv|(v & Hv & [Hp|Ha])]; rewrite Hv; unfold isChar.
    + reflexivity.
    + rewrite Hp. reflexivity.
    + rewrite Ha. destruct (isPointer v); reflexivity.
Qed.

End LiteralPlusChar.

(** X9: at a [+] token inside a function scope whose left operand is a
    string literal: when the right operand is a character literal or a
    token of a variable of plain [char] type, every returning run of
    [strPlusChar] has the [strPlusChar] finding at the [+]; when the right
    operand is missing, or is no character literal and is bound to no
    variable or to a pointer or array variable, no finding of the run is
    located at the [+]. *)
Theorem X9_string_literal_plus_char
        (tokenizer : Tokenizer) (s : Scope) (i l : nat) (t lt : Token)
        (ds : list Diagnostic) :
  In s (functionScopes tokenizer) -> inScope s i ->
  nth_error (tokens tokenizer) i = Some t ->
  str t = "+"%string ->
  astOperand1 t = Some l ->
  nth_error (tokens tokenizer) l = Some lt -> tokType lt = eString ->
  strPlusChar tokenizer = Ret ds ->
  (forall r rt,
      astOperand2 t = Some r -> nth_error (tokens tokenizer) r = Some rt ->
      tokType rt = eChar \/ isCharVariable (tokens tokenizer) rt ->
      In (strPlusCharError i t) ds)
  /\ (forall r rt,
         astOperand2 t = Some r -> nth_error (tokens tokenizer) r = Some rt ->
         tokType rt <> eChar ->
         variable rt = None
         \/ (exists v, variable rt = Some v
                       /\ (isPointer v = true \/ isArray v = true)) ->
         forall d, In d ds -> callstack d <> [i])
  /\ (deref (tokens tokenizer) (astOperand2 t) = None ->
      forall d, In d ds -> callstack d <> [i]).
Proof.
  intros Hs Hi Ht Hplus H1 Hl Hty Hrun. split; [|split].
  - intros r rt H2 Hr Hc.
    destruct (strPlusChar_body_literal_left tokenizer i l r t lt rt
                Hplus H1 H2 Hl Hr Hty) as (Hb & _).
    destruct (strPlusChar_run_at tokenizer s i t _ ds Hs Hi Ht (Hb Hc) Hrun)
      as (Hin & _).
    apply Hin. now left.
  - intros r rt H2 Hr Hn Hv d Hd Hc.
    destruct (strPlusChar_body_literal_left tokenizer i l r t lt rt
                Hplus H1 H2 Hl Hr Hty) as (_ & Hb).
    destruct (strPlusChar_run_at tokenizer s i t _ ds Hs Hi Ht (Hb Hn Hv) Hrun)
      as (_ & Hout).
    exact (Hout d Hd Hc).
  - intros H2 d Hd Hc.
    pose proof (strPlusChar_body_literal_left_missing tokenizer i l t lt
                  H1 H2 Hl Hty) as Hb.
    destruct (strPlusChar_run_at tokenizer s i t _ ds Hs Hi Ht Hb Hrun)
      as (_ & Hout).
    exact (Hout d Hd Hc).
Qed.

Lemma X9_string_literal_plus_char_witness :
  In (strPlusCharError
        6 (nth 6 (tokens MoreExamples.literalPlusCharLiteral) (Examples.T_op "")))
     [strPlusCharError
        6 (nth 6 (tokens MoreExamples.literalPlusCharLiteral) (Examples.T_op ""))]
  /\ forall d, In d [] -> callstack d <> [6].
Proof.
  split.
  - refine (proj1 (X9_string_literal_plus_char
                     MoreExamples.literalPlusCharLiteral (mkScope 4 9) 6 5
                     (nth 6 (tokens MoreExamples.literalPlusCharLiteral)
                          (Examples.T_op ""))
                     (nth 5 (tokens MoreExamples.literalPlusCharLiteral)
                          (Examples.T_op ""))
                     [strPlusCharError
                        6 (nth 6 (tokens MoreExamples.literalPlusCharLiteral)
                               (Examples.T_op ""))]
                     _ _ _ _ _ _ _ _) 7
                  (nth 7 (tokens MoreExamples.literalPlusCharLiteral)
                       (Examples.T_op "")) _ _ _).
    + left. reflexivity.
    + unfold inScope. simpl. lia.
    + reflexivity.
    + reflexivity.
    + reflexivity.
    + reflexivity.
    + reflexivity.
    + reflexivity.
    + reflexivity.
    + reflexivity.
    + left. reflexivity.
  - refine (proj2 (proj2 (X9_string_literal_plus_char
                            Examples.literalPlusNothing (mkScope 4 8) 6 5
                            (nth 6 (tokens Examples.literalPlusNothing)
                                 (Examples.T_op ""))
                            (nth 5 (tokens Examples.literalPlusNothing)
                                 (Examples.T_op "")) []
                            _ _ _ _ _ _ _ _)) _).
    + left. reflexivity.
    + unfold inScope. simpl. lia.
    + reflexivity.
    + reflexivity.
    + reflexivity.
    + reflexivity.
    + reflexivity.
    + reflexivity.
    + reflexivity.
Defined.

(** ** The walk of checkIncorrectStringCompare *)

Section IncorrectRun.

Variable toLongNumber : string -> Z.
Variable tokenizer : Tokenizer.
Variable settings : Settings.
Local Abbreviation a := (tokens tokenizer).

(** A returning walk stands on every token up to which no step moved the
    cursor, and has the findings of the step there. *)
Lemma scopeLoop_covers_quiet
      (body : nat -> Token -> Outcome (list Diagnostic * TokPtr))
      (scopeEnd : nat) :
  forall fuel k ds i t,
    scopeLoop tokenizer body scopeEnd fuel (Some k) = Ret ds ->
    k <= i < scopeEnd -> nth_error a i = Some t ->
    (forall j tj bs p, k <= j < i -> nth_error a j = Some tj ->
                       body j tj = Ret (bs, p) -> p = Some j) ->
    exists bs p, body i t = Ret (bs, p) /\ incl bs ds.
Proof.
  induction fuel as [|f IH]; intros k ds i t Hloop Hi Ht Hquiet;
    [discriminate|].
  apply scopeLoop_Some in Hloop
    as [[-> _]|(Hne & tk & bs & p & j & ds' & Etk & Eb & Ev & El & ->)];
    [lia|].
  destruct (Nat.eq_dec k i) as [->|Hki].
  - rewrite Ht in Etk. injection Etk as <-.
    exists bs, p. split; [exact Eb|]. apply incl_appl, incl_refl.
  - assert (Hp : p = Some k) by (apply (Hquiet k tk bs p); [lia|auto|auto]).
    subst p. apply valid_Some in Ev as [Ev _]. injection Ev as <-.
    assert (Hlen : i < length a) by (apply nth_error_Some; congruence).
    rewrite (next_in_range tokenizer k) in El by lia.
    assert (Hi' : S k <= i < scopeEnd) by lia.
    assert (Hquiet' :
              forall j tj bs0 p0, S k <= j < i -> nth_error a j = Some tj ->
                                  body j tj = Ret (bs0, p0) -> p0 = Some j)
      by (intros j tj bs0 p0 Hj; apply Hquiet; lia).
    destruct (IH (S k) ds' i t El Hi' Ht Hquiet') as (bs' & p' & Hb' & Hincl).
    exists bs', p'. split; [exact Hb'|]. now apply incl_appr.
Qed.

Lemma skipAssert_not_assertLike (i : nat) (t : Token) :
  assertLike t = false -> skipAssert tokenizer i t = Ret (Some i).
Proof.
  unfold assertLike, skipAssert. intros H. now rewrite H.
Qed.

(** In a function scope, up to the first assert-like name, a returning run
    has the findings of every step. *)
Lemma incorrect_run_covers (s : Scope) (i : nat) (t : Token)
      (ds : list Diagnostic) :
  isEnabled settings "warning" = true ->
  In s (functionScopes tokenizer) -> inScope s i ->
  noAssertBetween a (classStart s) i ->
  nth_error a i = Some t ->
  checkIncorrectStringCompare toLongNumber tokenizer settings = Ret ds ->
  exists bs p,
    checkIncorrectStringCompare_body toLongNumber tokenizer i t = Ret (bs, p)
    /\ incl bs ds.
Proof.
  intros Hon Hs Hi Hquiet Ht Hrun.
  unfold checkIncorrectStringCompare in Hrun. rewrite Hon in Hrun.
  cbn [negb] in Hrun. unfold forFunctionScopes in Hrun.
  destruct (forScopes_incl _ _ _ _ Hrun Hs) as (rs & Hr & Hincl).
  unfold walkScope in Hr.
  destruct (at_tok tokenizer (Some (classStart s))); try discriminate.
  cbn [bind] in Hr.
  assert (Hlen : i < length a) by (apply nth_error_Some; congruence).
  unfold inScope in Hi.
  rewrite (next_in_range tokenizer (classStart s)) in Hr by lia.
  assert (Hi' : S (classStart s) <= i < classEnd s) by lia.
  assert (Hquiet' :
            forall j tj bs p, S (classStart s) <= j < i ->
                              nth_error a j = Some tj ->
                              checkIncorrectStringCompare_body
                                toLongNumber tokenizer j tj = Ret (bs, p) ->
                              p = Some j).
  { intros j tj bs p Hj Htj Hb.
    unfold checkIncorrectStringCompare_body in Hb.
    rewrite (skipAssert_not_assertLike j tj) in Hb
      by (apply (Hquiet j tj); [lia|exact Htj]).
    cbn [bind] in Hb.
    destruct (incorrectCompare_at toLongNumber tokenizer (Some j));
      try discriminate.
    cbn [bind] in Hb. now injection Hb as _ <-. }
  destruct (scopeLoop_covers_quiet _ _ _ _ rs i t Hr Hi' Ht Hquiet')
    as (bs & p & Hb & Hbs).
  exists bs, p. split; [exact Hb|]. eapply incl_tran; eassumption.
Qed.

End IncorrectRun.

(** X14: in a function scope, at the [.] of [expr.substr(pos, len)] with a
    number token as length argument, where [expr] is a postfix expression
    that begins at [b] (reached from the token before the [.] over
    bracketed groups and member accesses), and with no assert-like name
    between the opening brace and the call, with the warning category
    enabled: when the
    length argument differs from the length of the compared string literal
    converted to [int], every returning run of
    [checkIncorrectStringCompare] has the length-mismatch finding naming
    that literal, located at the [substr] token.  The compared literal is
    the one before the expression when the test of line 318 holds, else the
    one after the call when the test of line 323 holds. *)
Theorem X14_substr_mismatch_in_run
        (toLongNumber : string -> Z) (tokenizer : Tokenizer)
        (settings : Settings) (s : Scope) (i n b e : nat) (t nt : Token)
        (ds : list Diagnostic) :
  isEnabled settings "warning" = true ->
  In s (functionScopes tokenizer) -> inScope s i ->
  noAssertBetween (tokens tokenizer) (classStart s) i ->
  nth_error (tokens tokenizer) i = Some t ->
  substrCall tokenizer i n b ->
  nth_error (tokens tokenizer) n = Some nt ->
  previous (tokens tokenizer) b = Some e ->
  checkIncorrectStringCompare toLongNumber tokenizer settings = Ret ds ->
  (forall l lt,
      leftLiteralCompared (tokens tokenizer) e = true ->
      previous (tokens tokenizer) e = Some l ->
      nth_error (tokens tokenizer) l = Some lt ->
      toLongNumber (str nt) <> to_int (Z.of_nat (getStrLength lt)) ->
      In (substrMismatch (S i) (str lt)) ds)
  /\ (forall rt,
         leftLiteralCompared (tokens tokenizer) e = false ->
         rightLiteralCompared (tokens tokenizer) (S n) = true ->
         nth_error (tokens tokenizer) (S (S (S n))) = Some rt ->
         toLongNumber (str nt) <> to_int (Z.of_nat (getStrLength rt)) ->
         In (substrMismatch (S i) (str rt)) ds).
Proof.
  intros Hon Hs Hi Hquiet Ht Hcall Hnt Hprev Hrun.
  destruct (incorrect_run_covers toLongNumber tokenizer settings s i t ds
              Hon Hs Hi Hquiet Ht Hrun) as (bs & p & Hb & Hincl).
  split.
  - intros l lt HL Hl Hlt Hlen.
    rewrite (substr_step_left toLongNumber tokenizer i n b e l t nt lt
               Ht Hcall Hnt Hprev HL Hl Hlt) in Hb.
    apply Z.eqb_neq in Hlen. rewrite Hlen in Hb.
    injection Hb as <- _. apply Hincl. now left.
  - intros rt HL HR Hrt Hlen.
    rewrite (substr_step_right toLongNumber tokenizer i n b e t nt rt
               Ht Hcall Hnt Hprev HL HR Hrt) in Hb.
    apply Z.eqb_neq in Hlen. rewrite Hlen in Hb.
    injection Hb as <- _. apply Hincl. now left.
Qed.

Lemma X14_substr_mismatch_in_run_witness :
  In (substrMismatch 14 (Examples.q "xy"))
     [substrMismatch 14 (Examples.q "xy")]
  /\ In (substrMismatch 7 (Examples.q "xy"))
        [substrMismatch 7 (Examples.q "xy")]
  /\ In (substrMismatch 9 (Examples.q "xy"))
        [substrMismatch 9 (Examples.q "xy")].
Proof.
  split; [|split].
  - refine (proj1 (X14_substr_mismatch_in_run
                     Examples.toLong Examples.substrOfCall
                     Examples.warningsOn (mkScope 4 21) 13 18 7 6
                     (Examples.T_op ".") (Examples.T_num "3")
                     [substrMismatch 14 (Examples.q "xy")]
                     _ _ _ _ _ _ _ _ _) 5 (Examples.T_str "xy") _ _ _ _).
    + reflexivity.
    + left. reflexivity.
    + unfold inScope. simpl. lia.
    + intros j tj Hj Htj. simpl in Hj.
      do 13 (destruct j as [|j]; [first [lia | injection Htj as <-; reflexivity]|]).
      lia.
    + reflexivity.
    + substr_call.
    + reflexivity.
    + reflexivity.
    + reflexivity.
    + reflexivity.
    + reflexivity.
    + reflexivity.
    + discriminate.
  - refine (proj2 (X14_substr_mismatch_in_run
                     Examples.toLong (Examples.substrRight "xy")
                     Examples.warningsOn (mkScope 4 16) 6 11 5 4
                     (Examples.T_op ".") (Examples.T_num "3")
                     [substrMismatch 7 (Examples.q "xy")]
                     _ _ _ _ _ _ _ _ _) (Examples.T_str "xy") _ _ _ _).
    + reflexivity.
    + left. reflexivity.
    + unfold inScope. simpl. lia.
    + intros j tj Hj Htj. simpl in Hj.
      assert (j = 5) by lia. subst j. injection Htj as <-. reflexivity.
    + reflexivity.
    + substr_call.
    + reflexivity.
    + reflexivity.
    + reflexivity.
    + reflexivity.
    + reflexivity.
    + reflexivity.
    + discriminate.
  - refine (proj1 (X14_substr_mismatch_in_run
                     Examples.toLong (Examples.substrLeft "xy")
                     Examples.warningsOn (mkScope 4 16) 8 13 7 6
                     (Examples.T_op ".") (Examples.T_num "3")
                     [substrMismatch 9 (Examples.q "xy")]
                     _ _ _ _ _ _ _ _ _) 5 (Examples.T_str "xy") _ _ _ _).
    + reflexivity.
    + left. reflexivity.
    + unfold inScope. simpl. lia.
    + intros j tj Hj Htj. simpl in Hj.
      assert (Hc : j = 5 \/ j = 6 \/ j = 7) by lia.
      destruct Hc as [->|[->| ->]]; injection Htj as <-; reflexivity.
    + reflexivity.
    + substr_call.
    + reflexivity.
    + reflexivity.
    + reflexivity.
    + reflexivity.
    + reflexivity.
    + reflexivity.
    + discriminate.
Defined.

(** ** String literals used as conditions *)

Section LiteralAsCondition.

Variable toLongNumber : string -> Z.
Variable tokenizer : Tokenizer.
Variable settings : Settings.
Local Abbreviation a := (tokens tokenizer).

Lemma match_atoms_head_false (varid i : nat) (t : Token) (x : Atom)
      (rest : list Atom) :
  nth_error a i = Some t -> atom_matches varid t x = false ->
  match_atoms a varid (Some i) (x :: rest) = false.
Proof.
  intros Ht Hx. cbn [match_atoms deref]. now rewrite Ht, Hx.
Qed.

Lemma match_atoms_head_true (varid i : nat) (t : Token) (x : Atom)
      (rest : list Atom) :
  nth_error a i = Some t ->
  match_atoms a varid (Some i) (x :: rest) = true ->
  atom_matches varid t x = true.
Proof.
  intros Ht H. cbn [match_atoms deref] in H. rewrite Ht in H.
  now apply andb_true_iff in H.
Qed.

Lemma strAt_plus (i k : nat) (t : Token) :
  nth_error a (i + k) = Some t -> strAt a i (Z.of_nat k) = str t.
Proof.
  intros Ht. unfold strAt. rewrite (tokAt_plus tokenizer i k).
  rewrite (valid_nth tokenizer _ _ Ht). cbn [deref]. now rewrite Ht.
Qed.

Lemma incorrectStringBooleanError_at (j : nat) (t : Token) :
  nth_error a j = Some t ->
  incorrectStringBooleanError tokenizer (Some j) (str t)
  = Ret [literalAsBoolean j (str t)].
Proof.
  intros Ht. unfold incorrectStringBooleanError. cbn [deref].
  now rewrite Ht.
Qed.

(** The step at [if] or [while] followed by a parenthesised string
    literal. *)
Lemma boolean_step_condition (i : nat) (t lt : Token) :
  nth_error a i = Some t ->
  Match a (Some i) "if|while ( %str% )" = true ->
  nth_error a (i + 2) = Some lt ->
  checkIncorrectStringCompare_body toLongNumber tokenizer i t
  = Ret ([literalAsBoolean (i + 2) (str lt)], Some i).
Proof.
  intros Ht Hm Hlt.
  assert (Hstr : str t = "if"%string \/ str t = "while"%string).
  { unfold Match, MatchId in Hm. eval_compile_in Hm.
    apply (match_atoms_head_true 0 i t _ _ Ht) in Hm.
    cbn [atom_matches existsb alt_matches] in Hm.
    destruct (String.eqb_spec (str t) "if"); [now left|].
    destruct (String.eqb_spec (str t) "while"); [now right|].
    discriminate Hm. }
  assert (Hquiet : assertLike t = false)
    by (unfold assertLike; destruct Hstr as [-> | ->]; reflexivity).
  assert (Hsub : simpleMatch a (Some i) ". substr (" = false).
  { unfold simpleMatch, Match, MatchId. eval_compile.
    apply (match_atoms_head_false 0 i t _ _ Ht).
    cbn [atom_matches existsb alt_matches].
    destruct Hstr as [-> | ->]; reflexivity. }
  assert (Hop : Match a (Some i) "&&|%oror%|( %str% &&|%oror%|)" = false).
  { unfold Match, MatchId. eval_compile.
    apply (match_atoms_head_false 0 i t _ _ Ht).
    cbn [atom_matches existsb alt_matches].
    destruct Hstr as [-> | ->]; reflexivity. }
  unfold checkIncorrectStringCompare_body.
  rewrite (skipAssert_not_assertLike tokenizer i t Hquiet). cbn [bind].
  unfold incorrectCompare_at. rewrite Hsub, Hop. cbn [andb]. rewrite Hm.
  change 2%Z with (Z.of_nat 2).
  rewrite (tokAt_plus tokenizer i 2), (valid_nth tokenizer _ _ Hlt).
  rewrite (strAt_plus i 2 lt Hlt).
  rewrite (incorrectStringBooleanError_at _ _ Hlt). reflexivity.
Qed.

(** The step at [&&], [||] or [(] followed by a string literal and then
    [&&], [||] or [)], other than a literal alone in parentheses. *)
Lemma boolean_step_operand (i : nat) (t lt : Token) :
  nth_error a i = Some t ->
  Match a (Some i) "&&|%oror%|( %str% &&|%oror%|)" = true ->
  Match a (Some i) "( %str% )" = false ->
  nth_error a (S i) = Some lt ->
  checkIncorrectStringCompare_body toLongNumber tokenizer i t
  = Ret ([literalAsBoolean (S i) (str lt)], Some i).
Proof.
  intros Ht Hm Hn Hlt.
  assert (Hstr : str t = "&&"%string \/ str t = "||"%string
                 \/ str t = "("%string).
  { unfold Match, MatchId in Hm. eval_compile_in Hm.
    apply (match_atoms_head_true 0 i t _ _ Ht) in Hm.
    cbn [atom_matches existsb alt_matches] in Hm.
    destruct (String.eqb_spec (str t) "&&"); [now left|].
    destruct (String.eqb_spec (str t) "||"); [now right; left|].
    destruct (String.eqb_spec (str t) "("); [now right; right|].
    discriminate Hm. }
  assert (Hquiet : assertLike t = false)
    by (unfold assertLike; destruct Hstr as [-> | [-> | ->]]; reflexivity).
  assert (Hsub : simpleMatch a (Some i) ". substr (" = false).
  { unfold simpleMatch, Match, MatchId. eval_compile.
    apply (match_atoms_head_false 0 i t _ _ Ht).
    cbn [atom_matches existsb alt_matches].
    destruct Hstr as [-> | [-> | ->]]; reflexivity. }
  unfold checkIncorrectStringCompare_body.
  rewrite (skipAssert_not_assertLike tokenizer i t Hquiet). cbn [bind].
  unfold incorrectCompare_at. rewrite Hsub, Hm, Hn. cbn [andb negb].
  assert (Hnext : next a i = Some (S i)).
  { unfold next. exact (valid_nth tokenizer _ _ Hlt). }
  rewrite Hnext.
  replace (strAt a i 1) with (str lt).
  2:{ change 1%Z with (Z.of_nat 1). symmetry. apply strAt_plus.
      now rewrite Nat.add_1_r. }
  rewrite (incorrectStringBooleanError_at _ _ Hlt). reflexivity.
Qed.

End LiteralAsCondition.

(** X13: with the warning category enabled, at [if] or [while] followed by
    a parenthesised string literal inside a function scope, when no
    assert-like name stands between the opening brace and that token,
    every returning run of [checkIncorrectStringCompare] has the
    conversion-to-bool finding for the literal, located at the literal. *)
Theorem X13_literal_condition_reported
        (toLongNumber : string -> Z) (tokenizer : Tokenizer)
        (settings : Settings) (s : Scope) (i : nat) (t lt : Token)
        (ds : list Diagnostic) :
  isEnabled settings "warning" = true ->
  In s (functionScopes tokenizer) -> inScope s i ->
  noAssertBetween (tokens tokenizer) (classStart s) i ->
  nth_error (tokens tokenizer) i = Some t ->
  Match (tokens tokenizer) (Some i) "if|while ( %str% )" = true ->
  nth_error (tokens tokenizer) (i + 2) = Some lt ->
  checkIncorrectStringCompare toLongNumber tokenizer settings = Ret ds ->
  In (literalAsBoolean (i + 2) (str lt)) ds.
Proof.
  intros Hon Hs Hi Hquiet Ht Hm Hlt Hrun.
  destruct (incorrect_run_covers toLongNumber tokenizer settings s i t ds
              Hon Hs Hi Hquiet Ht Hrun) as (bs & p & Hb & Hincl).
  rewrite (boolean_step_condition toLongNumber tokenizer i t lt Ht Hm Hlt)
    in Hb.
  injection Hb as <- _. apply Hincl. now left.
Qed.

Lemma X13_literal_condition_reported_witness :
  In (literalAsBoolean 7 (Examples.q "abc"))
     [literalAsBoolean 7 (Examples.q "abc")].
Proof.
  refine (X13_literal_condition_reported
            Examples.toLong MoreExamples.literalCondition
            Examples.warningsOn (mkScope 4 11) 5
            (Examples.T_kind eKeyword "if") (Examples.T_str "abc")
            [literalAsBoolean 7 (Examples.q "abc")]
            _ _ _ _ _ _ _ _).
  - reflexivity.
  - left. reflexivity.
  - unfold inScope. simpl. lia.
  - intros j tj Hj Htj. simpl in Hj. lia.
  - reflexivity.
  - reflexivity.
  - reflexivity.
  - reflexivity.
Defined.

(** X15: with the warning category enabled, at [&&], [||] or [(] followed
    by a string literal and then [&&], [||] or [)], but not at a literal
    alone in parentheses, inside a function scope with no assert-like name
    between the opening brace and that token, every returning run of
    [checkIncorrectStringCompare] has the conversion-to-bool finding for
    the literal, located at the literal. *)
Theorem X15_literal_operand_reported
        (toLongNumber : string -> Z) (tokenizer : Tokenizer)
        (settings : Settings) (s : Scope) (i : nat) (t lt : Token)
        (ds : list Diagnostic) :
  isEnabled settings "warning" = true ->
  In s (functionScopes tokenizer) -> inScope s i ->
  noAssertBetween (tokens tokenizer) (classStart s) i ->
  nth_error (tokens tokenizer) i = Some t ->
  Match (tokens tokenizer) (Some i) "&&|%oror%|( %str% &&|%oror%|)" = true ->
  Match (tokens tokenizer) (Some i) "( %str% )" = false ->
  nth_error (tokens tokenizer) (S i) = Some lt ->
  checkIncorrectStringCompare toLongNumber tokenizer settings = Ret ds ->
  In (literalAsBoolean (S i) (str lt)) ds.
Proof.
  intros Hon Hs Hi Hquiet Ht Hm Hn Hlt Hrun.
  destruct (incorrect_run_covers toLongNumber tokenizer settings s i t ds
              Hon Hs Hi Hquiet Ht Hrun) as (bs & p & Hb & Hincl).
  rewrite (boolean_step_operand toLongNumber tokenizer i t lt Ht Hm Hn Hlt)
    in Hb.
  injection Hb as <- _. apply Hincl. now left.
Qed.

Lemma X15_literal_operand_reported_witness :
  In (literalAsBoolean 7 (Examples.q "abc"))
     [literalAsBoolean 7 (Examples.q "abc")].
Proof.
  refine (X15_literal_operand_reported
            Examples.toLong MoreExamples.literalOperand
            Examples.warningsOn (mkScope 4 13) 6
            (Examples.with_link 10 (Examples.T_op "("))
            (Examples.T_str "abc")
            [literalAsBoolean 7 (Examples.q "abc")]
            _ _ _ _ _ _ _ _ _).
  - reflexivity.
  - left. reflexivity.
  - unfold inScope. simpl. lia.
  - intros j tj Hj Htj. simpl in Hj.
    assert (j = 5) by lia. subst j. injection Htj as <-. reflexivity.
  - reflexivity.
  - reflexivity.
  - reflexivity.
  - reflexivity.
  - reflexivity.
Defined.

(** ** Skipped assertions *)

Section SkippedAssert.

Variable toLongNumber : string -> Z.
Variable tokenizer : Tokenizer.
Variable settings : Settings.
Local Abbreviation a := (tokens tokenizer).

Section ForwardWalk.

Variable body : nat -> Token -> Outcome (list Diagnostic * TokPtr).
Variable scopeEnd : nat.
Hypothesis body_forward :
  forall j t bs p q,
    nth_error a j = Some t -> body j t = Ret (bs, p) ->
    valid a p = Some q -> j <= q.

(** A walk whose cursor is past the closing brace does not return. *)
Lemma scopeLoop_beyond :
  forall fuel k ds,
    scopeEnd < k -> scopeLoop tokenizer body scopeEnd fuel (Some k) <> Ret ds.
Proof.
  induction fuel as [|f IH]; intros k ds Hk H; [discriminate|].
  apply scopeLoop_Some in H
    as [[-> _]|(_ & t & bs & p & q & ds' & Et & Eb & Ev & El & _)]; [lia|].
  pose proof (body_forward k t bs p q Et Eb Ev) as Hq.
  assert (Hlen : k < length a) by (apply nth_error_Some; congruence).
  destruct (next a q) as [q'|] eqn:En.
  - apply next_Some in En as [-> _].
    apply (IH (S q) ds'); [lia|exact El].
  - apply scopeLoop_None in El as [_ Hnull]. lia.
Qed.

(** Every finding of a returning walk from [k] is a finding of a step at a
    token from [k] on, which ends before the closing brace. *)
Lemma scopeLoop_origin_after :
  forall fuel k ds d,
    scopeLoop tokenizer body scopeEnd fuel (Some k) = Ret ds -> In d ds ->
    exists j t bs q,
      k <= j /\ j <= q /\ q < scopeEnd
      /\ nth_error a j = Some t /\ body j t = Ret (bs, Some q) /\ In d bs.
Proof.
  induction fuel as [|f IH]; intros k ds d H Hd; [discriminate|].
  apply scopeLoop_Some in H
    as [[_ ->]|(Hne & t & bs & p & q & ds' & Et & Eb & Ev & El & ->)];
    [destruct Hd|].
  pose proof (body_forward k t bs p q Et Eb Ev) as Hq.
  apply valid_Some in Ev as [-> Hlen].
  assert (Hin : q < scopeEnd).
  { destruct (next a q) as [q'|] eqn:En.
    - apply next_Some in En as [-> _].
      destruct (Nat.lt_ge_cases q scopeEnd) as [Hlt|Hge]; [exact Hlt|].
      exfalso. apply (scopeLoop_beyond f (S q) ds'); [lia|exact El].
    - apply scopeLoop_None in El as [_ Hnull]. lia. }
  apply in_app_or in Hd as [Hd|Hd].
  - exists k, t, bs, q.
    refine (conj (le_n k) (conj Hq (conj Hin (conj Et (conj Eb Hd))))).
  - destruct (next a q) as [q'|] eqn:En.
    2:{ apply scopeLoop_None in El as [-> _]. destruct Hd. }
    apply next_Some in En as [-> _].
    destruct (IH (S q) ds' d El Hd)
      as (j & tj & bj & qj & H1 & H2 & H3 & H4 & H5 & H6).
    exists j, tj, bj, qj.
    refine (conj _ (conj H2 (conj H3 (conj H4 (conj H5 H6))))). lia.
Qed.

(** The same, when the step at [k] moves the cursor to [close] and no
    earlier step moves it: the step the finding is from stands before [k]
    and ends where it stands, or stands at [k], or stands after [close]. *)
Lemma scopeLoop_origin_skip (k close : nat) (tk : Token) :
  nth_error a k = Some tk ->
  (forall bs p, body k tk = Ret (bs, p) -> p = Some close) ->
  forall fuel k0 ds d,
    scopeLoop tokenizer body scopeEnd fuel (Some k0) = Ret ds -> In d ds ->
    k0 <= k ->
    (forall j tj bs p, k0 <= j < k -> nth_error a j = Some tj ->
                       body j tj = Ret (bs, p) -> p = Some j) ->
    exists j t bs q,
      nth_error a j = Some t /\ body j t = Ret (bs, Some q) /\ In d bs
      /\ ((j < k /\ q = j) \/ (j = k /\ q = close) \/ (close < j /\ j <= q)).
Proof.
  intros Htk Hk.
  induction fuel as [|f IH]; intros k0 ds d H Hd Hle Hquiet; [discriminate|].
  apply scopeLoop_Some in H
    as [[_ ->]|(Hne & t & bs & p & q & ds' & Et & Eb & Ev & El & ->)];
    [destruct Hd|].
  apply valid_Some in Ev as [-> Hlen].
  destruct (Nat.eq_dec k0 k) as [->|Hk0].
  - rewrite Htk in Et. injection Et as <-.
    pose proof (Hk bs (Some q) Eb) as Hc. injection Hc as ->.
    apply in_app_or in Hd as [Hd|Hd].
    + exists k, tk, bs, close.
      refine (conj Htk (conj Eb (conj Hd _))). right. left. now split.
    + destruct (next a close) as [q'|] eqn:En.
      2:{ apply scopeLoop_None in El as [-> _]. destruct Hd. }
      apply next_Some in En as [-> _].
      destruct (scopeLoop_origin_after f (S close) ds' d El Hd)
        as (j & tj & bj & qj & H1 & H2 & H3 & H4 & H5 & H6).
      exists j, tj, bj, qj.
      refine (conj H4 (conj H5 (conj H6 _))). right. right. lia.
  - assert (Hp : Some q = Some k0)
      by (apply (Hquiet k0 t bs (Some q)); [lia|exact Et|exact Eb]).
    injection Hp as ->.
    apply in_app_or in Hd as [Hd|Hd].
    + exists k0, t, bs, k0.
      refine (conj Et (conj Eb (conj Hd _))). left. lia.
    + destruct (next a k0) as [q'|] eqn:En.
      2:{ apply scopeLoop_None in El as [-> _]. destruct Hd. }
      apply next_Some in En as [-> _].
      assert (Hle' : S k0 <= k) by lia.
      assert (Hquiet' :
                forall j tj bs0 p0, S k0 <= j < k -> nth_error a j = Some tj ->
                                    body j tj = Ret (bs0, p0) -> p0 = Some j)
        by (intros j tj bs0 p0 Hj; apply Hquiet; lia).
      exact (IH (S k0) ds' d El Hd Hle' Hquiet').
Qed.

End ForwardWalk.

Lemma Match_name_paren (i : nat) (paren : Token) :
  Match a (Some i) "%name% (" = true ->
  nth_error a (S i) = Some paren -> str paren = "("%string.
Proof.
  unfold Match, MatchId. eval_compile. cbn [match_atoms deref].
  intros H Hp.
  destruct (nth_error a i) as [t|]; [|discriminate H].
  apply andb_true_iff in H as [_ H].
  unfold next in H. rewrite (valid_nth tokenizer _ _ Hp) in H.
  cbn [deref] in H. rewrite Hp in H.
  cbn [atom_matches existsb alt_matches] in H.
  destruct (String.eqb_spec (str paren) "("); [assumption|discriminate H].
Qed.

(** With parentheses linked forward, the assert step never moves the
    cursor backwards. *)
Lemma skipAssert_forward (i : nat) (t : Token) (p : TokPtr) (q : nat) :
  parenthesesLinkForward a ->
  skipAssert tokenizer i t = Ret p -> valid a p = Some q -> i <= q.
Proof.
  intros Hfwd H Hv. unfold skipAssert in H.
  destruct ((6 <=? String.length (str t))
            && (endsWithFirst "assert" (str t) || endsWithFirst "ASSERT" (str t))
            && Match a (Some i) "%name% (") eqn:Ec.
  2:{ injection H as <-. apply valid_Some in Hv as [Hv _].
      injection Hv as <-. lia. }
  apply andb_true_iff in Ec as [_ Hm].
  unfold at_tok in H.
  destruct (deref a (next a i)) as [paren|] eqn:Ep; [|discriminate H].
  cbn [bind] in H.
  assert (Hparen : nth_error a (S i) = Some paren).
  { unfold next in Ep. destruct (valid a (Some (S i))) as [x|] eqn:Ex;
      [|discriminate Ep].
    apply valid_Some in Ex as [Ex _]. injection Ex as <-. exact Ep. }
  pose proof (Match_name_paren i paren Hm Hparen) as Hstr.
  assert (Hlink : forall l, valid a (link paren) = Some l -> S i < l).
  { intros l Hl. apply valid_Some in Hl as [Hl _].
    exact (Hfwd (S i) paren l Hparen Hstr Hl). }
  destruct (Match a (tokAt a i 2) "%str% &&").
  - injection H as <-. rewrite (valid_idem tokenizer) in Hv.
    specialize (Hlink q Hv). lia.
  - destruct (valid a (link paren)) as [l|] eqn:El; [|discriminate H].
    specialize (Hlink l eq_refl).
    destruct (Match a (tokAt a l (-2)) "&& %str% )");
      injection H as <-; apply valid_Some in Hv as [Hv _];
      injection Hv as <-; lia.
Qed.

Lemma incorrect_body_forward :
  parenthesesLinkForward a ->
  forall j t bs p q,
    nth_error a j = Some t ->
    checkIncorrectStringCompare_body toLongNumber tokenizer j t = Ret (bs, p) ->
    valid a p = Some q -> j <= q.
Proof.
  intros Hfwd j t bs p q _ Hb Hv.
  unfold checkIncorrectStringCompare_body in Hb.
  destruct (skipAssert tokenizer j t) as [p'| |] eqn:Es; try discriminate.
  cbn [bind] in Hb.
  destruct (incorrectCompare_at toLongNumber tokenizer p'); try discriminate.
  cbn [bind] in Hb. injection Hb as _ <-.
  exact (skipAssert_forward j t p' q Hfwd Es Hv).
Qed.

Lemma incorrectStringBooleanError_anchor (p : TokPtr) (lit : string)
      (bs : list Diagnostic) (d : Diagnostic) :
  incorrectStringBooleanError tokenizer p lit = Ret bs -> In d bs ->
  exists j, p = Some j /\ callstack d = [j].
Proof.
  unfold incorrectStringBooleanError. intros H Hd.
  destruct p as [j|]; [|discriminate].
  destruct (deref a (Some j)); [|discriminate].
  injection H as <-. destruct Hd as [<-|[]]. now exists j.
Qed.

Lemma tokAt_2_Some (q j : nat) : tokAt a q 2 = Some j -> j = q + 2.
Proof.
  change 2%Z with (Z.of_nat 2). rewrite (tokAt_plus tokenizer q 2).
  intros H. apply valid_Some in H as [H _]. now injection H.
Qed.

(** Every finding of a step is located one or two tokens after the cursor
    the step ends on. *)
Lemma incorrect_body_located (i : nat) (t : Token) (bs : list Diagnostic)
      (q : nat) (d : Diagnostic) :
  checkIncorrectStringCompare_body toLongNumber tokenizer i t
  = Ret (bs, Some q) ->
  In d bs -> callstack d = [S q] \/ callstack d = [q + 2].
Proof.
  unfold checkIncorrectStringCompare_body. intros H Hd.
  destruct (skipAssert tokenizer i t) as [p| |]; try discriminate.
  cbn [bind] in H.
  destruct (incorrectCompare_at toLongNumber tokenizer p) as [ds| |] eqn:E;
    try discriminate.
  cbn [bind] in H. injection H as <- ->.
  unfold incorrectCompare_at in E.
  repeat (first
            [ discriminate E
            | injection E as <-; solve [destruct Hd]
            | match type of E with
              | substrCompare _ _ _ = _ =>
                  destruct (substrCompare_anchor _ _ _ _ _ E Hd)
                    as (k & Hk & Hc);
                  apply next_Some in Hk as [-> _]; left; exact Hc
              | incorrectStringBooleanError _ (next _ _) _ = _ =>
                  destruct (incorrectStringBooleanError_anchor _ _ _ _ E Hd)
                    as (k & Hk & Hc);
                  apply next_Some in Hk as [-> _]; left; exact Hc
              | incorrectStringBooleanError _ (tokAt _ _ _) _ = _ =>
                  destruct (incorrectStringBooleanError_anchor _ _ _ _ E Hd)
                    as (k & Hk & Hc);
                  apply tokAt_2_Some in Hk as ->; right; exact Hc
              end
            | break_in E ]).
Qed.

(** The assert step at an assert-like name followed by a parenthesised
    condition that starts or ends with a string literal operand of [&&]:
    the cursor moves to the closing parenthesis. *)
Lemma skipAssert_skips (k close : nat) (tk pt ct : Token) :
  assertLike tk = true ->
  Match a (Some k) "%name% (" = true ->
  nth_error a (S k) = Some pt -> link pt = Some close ->
  nth_error a close = Some ct ->
  Match a (tokAt a k 2) "%str% &&" = true
  \/ Match a (tokAt a close (-2)) "&& %str% )" = true ->
  skipAssert tokenizer k tk = Ret (Some close).
Proof.
  intros Hassert Hm Hpt Hlink Hct Hform.
  unfold skipAssert. unfold assertLike in Hassert.
  rewrite Hassert, Hm. cbn [andb].
  unfold next. rewrite (valid_nth tokenizer _ _ Hpt).
  rewrite (at_tok_nth tokenizer _ _ Hpt). cbn [bind].
  rewrite Hlink, (valid_nth tokenizer _ _ Hct).
  destruct (Match a (tokAt a k 2) "%str% &&") eqn:E1; [reflexivity|].
  destruct Hform as [Hform|Hform]; [discriminate Hform|].
  now rewrite Hform.
Qed.

End SkippedAssert.

(** X16: the skip of assertions.  In a function scope that no other
    function scope overlaps, in a token list whose opening parentheses are
    linked forward, take the first assert-like name of the scope, followed
    by a parenthesised condition that starts with [%str% &&] or ends with
    [&& %str% )] and closes inside the scope.  Then no finding of a
    returning run of [checkIncorrectStringCompare] is located at a token of
    that condition or at its closing parenthesis. *)
Theorem X16_assert_condition_skipped
        (toLongNumber : string -> Z) (tokenizer : Tokenizer)
        (settings : Settings) (s : Scope) (k close c : nat)
        (tk pt ct : Token) (ds : list Diagnostic) (d : Diagnostic) :
  parenthesesLinkForward (tokens tokenizer) ->
  In s (functionScopes tokenizer) ->
  scopesApart s (functionScopes tokenizer) ->
  inScope s k -> close < classEnd s ->
  noAssertBetween (tokens tokenizer) (classStart s) k ->
  nth_error (tokens tokenizer) k = Some tk ->
  assertLike tk = true ->
  Match (tokens tokenizer) (Some k) "%name% (" = true ->
  nth_error (tokens tokenizer) (S k) = Some pt -> link pt = Some close ->
  nth_error (tokens tokenizer) close = Some ct ->
  Match (tokens tokenizer) (tokAt (tokens tokenizer) k 2) "%str% &&" = true
  \/ Match (tokens tokenizer) (tokAt (tokens tokenizer) close (-2))
            "&& %str% )" = true ->
  checkIncorrectStringCompare toLongNumber tokenizer settings = Ret ds ->
  In d ds -> callstack d = [c] ->
  ~ (S k < c <= close).
Proof.
  intros Hfwd Hs Hapart Hk Hclose Hquiet Htk Hassert Hm Hpt Hlink Hct Hform
         Hrun Hd Hc Hin.
  pose proof (Match_name_paren tokenizer k pt Hm Hpt) as Hparen.
  pose proof (Hfwd (S k) pt close Hpt Hparen Hlink) as Hlt.
  pose proof (skipAssert_skips tokenizer k close tk pt ct
                Hassert Hm Hpt Hlink Hct Hform) as Hskip.
  unfold checkIncorrectStringCompare in Hrun.
  destruct (negb (isEnabled settings "warning")).
  { injection Hrun as <-. destruct Hd. }
  unfold forFunctionScopes in Hrun.
  destruct (forScopes_In _ _ _ _ Hrun Hd) as (s' & rs & Hs' & Hr & Hdr).
  unfold walkScope in Hr.
  destruct (at_tok tokenizer (Some (classStart s'))); try discriminate.
  cbn [bind] in Hr.
  destruct (next (tokens tokenizer) (classStart s')) as [k0|] eqn:En.
  2:{ apply (scopeLoop_None tokenizer) in Hr as [-> _]. destruct Hdr. }
  apply next_Some in En as [-> _].
  pose proof (incorrect_body_forward toLongNumber tokenizer Hfwd) as Hbf.
  unfold inScope in Hk.
  destruct (Hapart s' Hs') as [->|[Hbefore|Hafter]].
  - assert (Hat :
              forall bs p,
                checkIncorrectStringCompare_body toLongNumber tokenizer k tk
                = Ret (bs, p) -> p = Some close).
    { intros bs p Hb. unfold checkIncorrectStringCompare_body in Hb.
      rewrite Hskip in Hb. cbn [bind] in Hb.
      destruct (incorrectCompare_at toLongNumber tokenizer (Some close));
        try discriminate.
      cbn [bind] in Hb. now injection Hb as _ <-. }
    assert (Hq :
              forall j tj bs p, S (classStart s) <= j < k ->
                                nth_error (tokens tokenizer) j = Some tj ->
                                checkIncorrectStringCompare_body
                                  toLongNumber tokenizer j tj = Ret (bs, p) ->
                                p = Some j).
    { intros j tj bs p Hj Htj Hb.
      unfold checkIncorrectStringCompare_body in Hb.
      rewrite (skipAssert_not_assertLike tokenizer j tj) in Hb
        by (apply (Hquiet j tj); [lia|exact Htj]).
      cbn [bind] in Hb.
      destruct (incorrectCompare_at toLongNumber tokenizer (Some j));
        try discriminate.
      cbn [bind] in Hb. now injection Hb as _ <-. }
    assert (Hle : S (classStart s) <= k) by lia.
    destruct (scopeLoop_origin_skip tokenizer _ (classEnd s) Hbf k close tk
                Htk Hat _ _ rs d Hr Hdr Hle Hq)
      as (j & tj & bs & q & Htj & Hb & Hdb & Hcase).
    destruct (incorrect_body_located toLongNumber tokenizer j tj bs q d Hb Hdb)
      as [Hloc|Hloc]; rewrite Hc in Hloc; injection Hloc as ->; lia.
  - destruct (scopeLoop_origin_after tokenizer _ (classEnd s') Hbf _ _ rs d
                Hr Hdr)
      as (j & tj & bs & q & H1 & H2 & H3 & Htj & Hb & Hdb).
    destruct (incorrect_body_located toLongNumber tokenizer j tj bs q d Hb Hdb)
      as [Hloc|Hloc]; rewrite Hc in Hloc; injection Hloc as ->; lia.
  - destruct (scopeLoop_origin_after tokenizer _ (classEnd s') Hbf _ _ rs d
                Hr Hdr)
      as (j & tj & bs & q & H1 & H2 & H3 & Htj & Hb & Hdb).
    destruct (incorrect_body_located toLongNumber tokenizer j tj bs q d Hb Hdb)
      as [Hloc|Hloc]; rewrite Hc in Hloc; injection Hloc as ->; lia.
Qed.

Lemma X16_assert_condition_skipped_witness : ~ (6 < 14 <= 10).
Proof.
  refine (X16_assert_condition_skipped
            Examples.toLong MoreExamples.assertThenCondition
            Examples.warningsOn (mkScope 4 18) 5 10 14
            (Examples.T_name "assert")
            (Examples.with_link 10 (Examples.T_op "("))
            (Examples.with_link 6 (Examples.T_op ")"))
            [literalAsBoolean 14 (Examples.q "abc")]
            (literalAsBoolean 14 (Examples.q "abc"))
            _ _ _ _ _ _ _ _ _ _ _ _ _ _ _ _).
  - intros j t l Hj Hstr Hl.
    do 19 (destruct j as [|j];
           [ injection Hj as <-; simpl in Hstr, Hl;
             first [ discriminate Hstr | injection Hl as <-; lia ] | ]).
    destruct j; discriminate Hj.
  - left. reflexivity.
  - intros s' [<-|[]]. left. reflexivity.
  - unfold inScope. simpl. lia.
  - simpl. lia.
  - intros j tj Hj Htj. simpl in Hj. lia.
  - reflexivity.
  - reflexivity.
  - reflexivity.
  - reflexivity.
  - reflexivity.
  - reflexivity.
  - left. reflexivity.
  - reflexivity.
  - left. reflexivity.
  - reflexivity.
Defined.

(** ** The findings of sprintfOverlappingData *)

Section OverlapFindings.

Variable tokenizer : Tokenizer.
Local Abbreviation a := (tokens tokenizer).

(** A matched pattern has a token for each of its atoms that is not a
    negation, and the token matches the atom. *)
Lemma match_atoms_nth (varid : nat) :
  forall pat k p x,
    match_atoms a varid p pat = true -> nth_error pat k = Some x ->
    (forall s, x <> NotTok s) ->
    exists i t,
      p = Some i /\ nth_error a (i + k) = Some t
      /\ atom_matches varid t x = true.
Proof.
  induction pat as [|y pat IH]; intros k p x H Hk Hx.
  { destruct k; discriminate Hk. }
  destruct k as [|k].
  - injection Hk as ->. cbn [match_atoms] in H.
    destruct p as [i|].
    + cbn [deref] in H. destruct (nth_error a i) as [t|] eqn:Et.
      * apply andb_true_iff in H as [H _]. exists i, t.
        rewrite Nat.add_0_r. auto.
      * destruct x; try discriminate H. now elim (Hx s).
    + cbn [deref] in H. destruct x; try discriminate H. now elim (Hx s).
  - cbn [nth_error] in Hk. cbn [match_atoms] in H.
    destruct p as [i|].
    + cbn [deref] in H. destruct (nth_error a i) as [t|] eqn:Et.
      * apply andb_true_iff in H as [_ H].
        destruct (IH k (next a i) x H Hk Hx) as (i' & t' & Hn & Ht' & Hm).
        apply (next_Some tokenizer) in Hn as [-> _].
        exists i, t'. replace (i + S k) with (S i + k) by lia. auto.
      * destruct y; try discriminate H.
        destruct (IH k None x H Hk Hx) as (i' & _ & Hn & _). discriminate Hn.
    + cbn [deref] in H. destruct y; try discriminate H.
      destruct (IH k None x H Hk Hx) as (i' & _ & Hn & _). discriminate Hn.
Qed.

Lemma tokAt_deref (i k : nat) (t : Token) :
  nth_error a (i + k) = Some t -> deref a (tokAt a i (Z.of_nat k)) = Some t.
Proof.
  intros Ht. rewrite (tokAt_plus tokenizer i k).
  now rewrite (valid_nth tokenizer _ _ Ht).
Qed.

(** Every finding of a scan is on a token that matches the scanned
    variable id followed by a comma or a closing parenthesis. *)
Lemma overlapScan_sound (varid : nat) :
  forall fuel p bs d,
    overlapScan tokenizer fuel varid p = Ret bs -> In d bs ->
    exists j tj,
      nth_error a j = Some tj
      /\ MatchId a (Some j) "%varid% [,)]" varid = true
      /\ d = sprintfOverlappingDataError j tj (str tj).
Proof.
  induction fuel as [|f IH]; intros p bs d H Hd; [discriminate|].
  cbn [overlapScan] in H.
  destruct (MatchId a p "%varid% [,)]" varid) eqn:Em.
  - destruct (MatchId_varid_token tokenizer p varid Em) as (j & tj & -> & Htj).
    cbn [deref] in H. rewrite Htj in H. injection H as <-.
    destruct Hd as [<-|[]]. exists j, tj. auto.
  - assert (Hrest :
              (n <- nextArgument a p ;;
               match n with
               | Some _ => overlapScan tokenizer f varid n
               | None => Ret []
               end) = Ret bs)
      by (destruct p as [j|]; [destruct (deref a (Some j))|]; exact H).
    destruct (nextArgument a p) as [[n|]| |]; try discriminate Hrest;
      cbn [bind] in Hrest.
    + exact (IH (Some n) bs d Hrest Hd).
    + injection Hrest as <-. destruct Hd.
Qed.

Lemma MatchId_varid_id (j varid : nat) (tj : Token) :
  nth_error a j = Some tj ->
  MatchId a (Some j) "%varid% [,)]" varid = true -> varId tj = varid.
Proof.
  intros Htj H. unfold MatchId in H. eval_compile_in H.
  destruct (match_atoms_nth varid _ 0 (Some j) _ H eq_refl)
    as (i & t & Hi & Ht & Hm); [discriminate|].
  injection Hi as <-. rewrite Nat.add_0_r, Htj in Ht. injection Ht as <-.
  cbn [atom_matches existsb alt_matches] in Hm.
  rewrite orb_false_r in Hm. now apply Nat.eqb_eq.
Qed.

(** The findings of the step at a token: the token is a call, the
    destination has a variable id, and the finding is on a later bare use of
    that variable. *)
Lemma sprintf_body_sound (i : nat) (t : Token) (bs : list Diagnostic)
      (d : Diagnostic) :
  sprintfOverlappingData_body tokenizer i t = Ret bs -> In d bs ->
  exists j tj,
    sprintfCall a i (varId tj) /\ varId tj <> 0
    /\ nth_error a j = Some tj
    /\ MatchId a (Some j) "%varid% [,)]" (varId tj) = true
    /\ d = sprintfOverlappingDataError j tj (str tj).
Proof.
  intros H Hd. unfold sprintfOverlappingData_body in H.
  assert (Hscan :
            forall varid,
              (tok2 <- nextArgument a (tokAt a i 2) ;;
               if (str t =? "snprintf")%string || (str t =? "swprintf")%string
               then
                 tok2' <- nextArgument a tok2 ;;
                 match tok2' with
                 | None => Ret []
                 | Some _ => overlapScan tokenizer (S (length a)) varid tok2'
                 end
               else overlapScan tokenizer (S (length a)) varid tok2)
              = Ret bs ->
              exists j tj,
                nth_error a j = Some tj
                /\ MatchId a (Some j) "%varid% [,)]" varid = true
                /\ d = sprintfOverlappingDataError j tj (str tj)).
  { intros varid Hs.
    destruct (nextArgument a (tokAt a i 2)) as [tok2| |]; try discriminate Hs.
    cbn [bind] in Hs.
    destruct ((str t =? "snprintf")%string || (str t =? "swprintf")%string).
    - destruct (nextArgument a tok2) as [[n|]| |]; try discriminate Hs;
        cbn [bind] in Hs.
      + exact (overlapScan_sound varid _ _ bs d Hs Hd).
      + injection Hs as <-. destruct Hd.
    - exact (overlapScan_sound varid _ _ bs d Hs Hd). }
  destruct (Match a (Some i) "sprintf|snprintf|swprintf ( %var% ,") eqn:E1.
  - pose proof E1 as Hm. unfold Match, MatchId in Hm. eval_compile_in Hm.
    destruct (match_atoms_nth 0 _ 2 (Some i) _ Hm eq_refl)
      as (i' & dt & Hi & Hdt & Hv); [discriminate|].
    injection Hi as <-.
    pose proof (tokAt_deref i 2 dt Hdt) as Hat. change (Z.of_nat 2) with 2%Z in Hat.
    unfold at_tok in H. rewrite Hat in H. cbn [bind] in H.
    destruct (Hscan (varId dt) H) as (j & tj & Htj & Hmj & ->).
    pose proof (MatchId_varid_id j (varId dt) tj Htj Hmj) as Hid.
    exists j, tj. rewrite Hid.
    refine (conj _ (conj _ (conj Htj (conj Hmj eq_refl)))).
    + left. split; [exact E1|]. now exists dt.
    + cbn [atom_matches existsb alt_matches] in Hv.
      rewrite orb_false_r in Hv. intros H0. rewrite H0 in Hv. discriminate Hv.
  - destruct (Match a (Some i) "sprintf|snprintf|swprintf ( %name% . %var% ,")
      eqn:E2.
    2:{ injection H as <-. destruct Hd. }
    pose proof E2 as Hm. unfold Match, MatchId in Hm. eval_compile_in Hm.
    destruct (match_atoms_nth 0 _ 4 (Some i) _ Hm eq_refl)
      as (i' & dt & Hi & Hdt & Hv); [discriminate|].
    injection Hi as <-.
    pose proof (tokAt_deref i 4 dt Hdt) as Hat. change (Z.of_nat 4) with 4%Z in Hat.
    unfold at_tok in H. rewrite Hat in H. cbn [bind] in H.
    destruct (Hscan (varId dt) H) as (j & tj & Htj & Hmj & ->).
    pose proof (MatchId_varid_id j (varId dt) tj Htj Hmj) as Hid.
    exists j, tj. rewrite Hid.
    refine (conj _ (conj _ (conj Htj (conj Hmj eq_refl)))).
    + right. refine (conj E1 (conj E2 _)). now exists dt.
    + cbn [atom_matches existsb alt_matches] in Hv.
      rewrite orb_false_r in Hv. intros H0. rewrite H0 in Hv. discriminate Hv.
Qed.

End OverlapFindings.

(** X17: every finding of a returning run of [sprintfOverlappingData] is
    the overlap finding on a token [j] that carries a nonzero variable id
    and is followed by a comma or a closing parenthesis, and some token
    inside a function scope is a call of [sprintf], [snprintf] or
    [swprintf] whose destination has that variable id. *)
Theorem X17_sprintf_findings_sound
        (tokenizer : Tokenizer) (ds : list Diagnostic) (d : Diagnostic) :
  sprintfOverlappingData tokenizer = Ret ds -> In d ds ->
  exists s i j tj,
    In s (functionScopes tokenizer) /\ inScope s i
    /\ sprintfCall (tokens tokenizer) i (varId tj) /\ varId tj <> 0
    /\ nth_error (tokens tokenizer) j = Some tj
    /\ MatchId (tokens tokenizer) (Some j) "%varid% [,)]" (varId tj) = true
    /\ d = sprintfOverlappingDataError j tj (str tj).
Proof.
  intros Hrun Hd. unfold sprintfOverlappingData in Hrun.
  destruct (forFunctionScopes_origin tokenizer _ ds d Hrun Hd)
    as (s & i & t & bs & Hs & Hi & Ht & Hb & Hdb).
  destruct (sprintf_body_sound tokenizer i t bs d Hb Hdb)
    as (j & tj & H1 & H2 & H3 & H4 & H5).
  exists s, i, j, tj. exact (conj Hs (conj Hi (conj H1 (conj H2 (conj H3 (conj H4 H5)))))).
Qed.

Lemma X17_sprintf_findings_sound_witness :
  exists s i j tj,
    In s (functionScopes Examples.sprintfSelf) /\ inScope s i
    /\ sprintfCall (tokens Examples.sprintfSelf) i (varId tj) /\ varId tj <> 0
    /\ nth_error (tokens Examples.sprintfSelf) j = Some tj
    /\ MatchId (tokens Examples.sprintfSelf) (Some j) "%varid% [,)]" (varId tj)
       = true
    /\ sprintfOverlappingDataError
         14 (nth 14 (tokens Examples.sprintfSelf) (Examples.T_op "")) "buf"
       = sprintfOverlappingDataError j tj (str tj).
Proof.
  refine (X17_sprintf_findings_sound
            Examples.sprintfSelf
            [sprintfOverlappingDataError
               14 (nth 14 (tokens Examples.sprintfSelf) (Examples.T_op ""))
               "buf"]
            _ _ _).
  - reflexivity.
  - left. reflexivity.
Defined.

(** ** Scope boundaries of the seven detectors *)

Section IncorrectOrigin.

Variable toLongNumber : string -> Z.
Variable tokenizer : Tokenizer.
Variable settings : Settings.
Local Abbreviation a := (tokens tokenizer).

(** A detector with a loop body is the walk of that body over the function
    scopes: always when it has no gate or the warning category is enabled,
    and otherwise it returns nothing. *)
Lemma runDetector_walk (d : Detector)
      (body : nat -> Token -> Outcome (list Diagnostic * TokPtr)) :
  scopeBody toLongNumber tokenizer d = Some body ->
  (isEnabled settings "warning" = true \/ ~ In d gatedDetectors ->
   runDetector toLongNumber tokenizer settings d
   = forFunctionScopes tokenizer body)
  /\ (isEnabled settings "warning" = false -> In d gatedDetectors ->
      runDetector toLongNumber tokenizer settings d = Ret []).
Proof.
  destruct d; cbn [scopeBody runDetector]; intros H;
    try discriminate H; injection H as <-.
  - split; [reflexivity|]. cbn. intros _ [H|[H|[H|[]]]]; discriminate H.
  - unfold checkSuspiciousStringCompare. split.
    + intros [->|Hn]; [reflexivity|]. elim Hn. cbn. tauto.
    + intros ->. reflexivity.
  - split; [reflexivity|]. cbn. intros _ [H|[H|[H|[]]]]; discriminate H.
  - split; [reflexivity|]. cbn. intros _ [H|[H|[H|[]]]]; discriminate H.
  - unfold checkIncorrectStringCompare. split.
    + intros [->|Hn]; [reflexivity|]. elim Hn. cbn. tauto.
    + intros ->. reflexivity.
  - split; [reflexivity|]. cbn. intros _ [H|[H|[H|[]]]]; discriminate H.
Qed.

(** With parentheses linked forward, every finding of a returning run of
    [checkIncorrectStringCompare] is a finding of the step at a token
    strictly inside a function scope; the step ends inside that scope, and
    the finding is located one or two tokens after the token it ends
    on. *)
Lemma incorrect_origin_in_scope (ds : list Diagnostic) (x : Diagnostic) :
  parenthesesLinkForward a ->
  checkIncorrectStringCompare toLongNumber tokenizer settings = Ret ds ->
  In x ds ->
  exists s j t bs q,
    In s (functionScopes tokenizer) /\ inScope s j
    /\ nth_error a j = Some t
    /\ checkIncorrectStringCompare_body toLongNumber tokenizer j t
       = Ret (bs, Some q)
    /\ In x bs /\ j <= q < classEnd s
    /\ (callstack x = [S q] \/ callstack x = [q + 2]).
Proof.
  intros Hfwd Hrun Hx. unfold checkIncorrectStringCompare in Hrun.
  destruct (negb (isEnabled settings "warning")).
  { injection Hrun as <-. destruct Hx. }
  unfold forFunctionScopes in Hrun.
  destruct (forScopes_In _ _ _ _ Hrun Hx) as (s & rs & Hs & Hr & Hxr).
  unfold walkScope in Hr.
  destruct (at_tok tokenizer (Some (classStart s))); try discriminate.
  cbn [bind] in Hr.
  destruct (next a (classStart s)) as [k0|] eqn:En.
  2:{ apply (scopeLoop_None tokenizer) in Hr as [-> _]. destruct Hxr. }
  apply (next_Some tokenizer) in En as [-> _].
  destruct (scopeLoop_origin_after
              tokenizer _ (classEnd s)
              (incorrect_body_forward toLongNumber tokenizer Hfwd)
              _ _ rs x Hr Hxr)
    as (j & t & bs & q & H1 & H2 & H3 & Ht & Hb & Hxb).
  exists s, j, t, bs, q.
  refine (conj Hs (conj _ (conj Ht (conj Hb (conj Hxb (conj _ _)))))).
  - unfold inScope. lia.
  - lia.
  - exact (incorrect_body_located toLongNumber tokenizer j t bs q x Hb Hxb).
Qed.

End IncorrectOrigin.

(** C4, as amended: six of the seven detectors are walks of their loop
    body over the function scopes (behind the warning gate for two of
    them); the seventh, [checkAlwaysTrueOrFalseStringCompare], walks the
    whole token list.  (1) Each of the six is the walk of its body over the
    function scopes, save that a gated one returns nothing when the warning
    category is disabled.  (2) For each of the six, a scope with an empty body yields
    no finding and no fault.  (3) For [stringLiteralWrite],
    [checkSuspiciousStringCompare], [strPlusChar], [strPlusInteger] and
    [sprintfOverlappingData], every finding of a returning run is produced
    by the loop step at a token strictly between the braces of some function
    scope; for the first four that token is the finding's location.
    (4) For [checkIncorrectStringCompare], whose assert step moves the
    cursor through the link of an opening parenthesis, the same holds when
    opening parentheses are linked forward: every finding of a returning
    run is produced by the loop step at a token strictly between the braces
    of some function scope, the step ends before the closing brace, and the
    finding is located one or two tokens after the token it ends on. *)
Theorem C4_scope_boundaries_amended
        (toLongNumber : string -> Z) (tokenizer : Tokenizer)
        (settings : Settings) :
  (forall d body,
      scopeBody toLongNumber tokenizer d = Some body ->
      (isEnabled settings "warning" = true \/ ~ In d gatedDetectors ->
       runDetector toLongNumber tokenizer settings d
       = forFunctionScopes tokenizer body)
      /\ (isEnabled settings "warning" = false -> In d gatedDetectors ->
          runDetector toLongNumber tokenizer settings d = Ret []))
  /\ (forall d body s,
         scopeBody toLongNumber tokenizer d = Some body ->
         classEnd s = S (classStart s) ->
         classEnd s < length (tokens tokenizer) ->
         walkScope tokenizer body s = Ret [])
  /\ (forall d ds x,
         In d cursorKeeping ->
         runDetector toLongNumber tokenizer settings d = Ret ds -> In x ds ->
         exists s j t body bs,
           In s (functionScopes tokenizer) /\ inScope s j
           /\ nth_error (tokens tokenizer) j = Some t
           /\ scopeBody toLongNumber tokenizer d = Some (keepCursor body)
           /\ body j t = Ret bs /\ In x bs
           /\ (In d cursorAnchored -> hd_error (callstack x) = Some j))
  /\ (parenthesesLinkForward (tokens tokenizer) ->
      forall ds x,
        runDetector toLongNumber tokenizer settings
                    D_checkIncorrectStringCompare = Ret ds ->
        In x ds ->
        exists s j t bs q,
          In s (functionScopes tokenizer) /\ inScope s j
          /\ nth_error (tokens tokenizer) j = Some t
          /\ checkIncorrectStringCompare_body toLongNumber tokenizer j t
             = Ret (bs, Some q)
          /\ In x bs /\ j <= q < classEnd s
          /\ (callstack x = [S q] \/ callstack x = [q + 2])).
Proof.
  split; [|split; [|split]].
  - intros d body. apply runDetector_walk.
  - intros d body s _ He Hlen. now apply walkScope_empty.
  - intros d ds x Hd Hrun Hx.
    destruct (runDetector_cursorKeeping toLongNumber tokenizer settings d ds
                Hd Hrun) as [->|(body & Hsb & Hwalk)]; [destruct Hx|].
    destruct (forFunctionScopes_origin tokenizer body ds x Hwalk Hx)
      as (s & j & t & bs & Hs & Hj & Ht & Hb & Hxb).
    exists s, j, t, body, bs.
    refine (conj Hs (conj Hj (conj Ht (conj Hsb (conj Hb (conj Hxb _)))))).
    intros Ha.
    eapply cursorAnchored_anchor; eassumption.
  - intros Hfwd ds x Hrun Hx. cbn [runDetector] in Hrun.
    exact (incorrect_origin_in_scope toLongNumber tokenizer settings ds x
             Hfwd Hrun Hx).
Qed.

Lemma C4_scope_boundaries_witness :
  runDetector Examples.toLong Examples.pointerCompare Examples.warningsOn
              D_checkSuspiciousStringCompare
  = forFunctionScopes Examples.pointerCompare
      (keepCursor (checkSuspiciousStringCompare_body Examples.pointerCompare))
  /\ walkScope Examples.emptyFunction
            (checkIncorrectStringCompare_body Examples.toLong Examples.emptyFunction)
            (mkScope 4 5) = Ret []
  /\ (exists s j t body bs,
         In s (functionScopes Examples.pointerCompare) /\ inScope s j
         /\ nth_error (tokens Examples.pointerCompare) j = Some t
         /\ scopeBody Examples.toLong Examples.pointerCompare
                      D_checkSuspiciousStringCompare = Some (keepCursor body)
         /\ body j t = Ret bs
         /\ In (suspiciousStringCompareError_char
                  11 (nth 11 (tokens Examples.pointerCompare) (Examples.T_op ""))
                  "p") bs
         /\ (In D_checkSuspiciousStringCompare cursorAnchored ->
             hd_error
               (callstack
                  (suspiciousStringCompareError_char
                     11 (nth 11 (tokens Examples.pointerCompare) (Examples.T_op ""))
                     "p")) = Some j))
  /\ (exists s j t bs q,
         In s (functionScopes MoreExamples.literalCondition) /\ inScope s j
         /\ nth_error (tokens MoreExamples.literalCondition) j = Some t
         /\ checkIncorrectStringCompare_body
              Examples.toLong MoreExamples.literalCondition j t
            = Ret (bs, Some q)
         /\ In (literalAsBoolean 7 (Examples.q "abc")) bs
         /\ j <= q < classEnd s
         /\ (callstack (literalAsBoolean 7 (Examples.q "abc")) = [S q]
             \/ callstack (literalAsBoolean 7 (Examples.q "abc")) = [q + 2])).
Proof.
  split; [|split; [|split]].
  - apply (proj1 (C4_scope_boundaries_amended
                    Examples.toLong Examples.pointerCompare
                    Examples.warningsOn)
                 D_checkSuspiciousStringCompare).
    + reflexivity.
    + left. reflexivity.
  - apply (proj1 (proj2 (C4_scope_boundaries_amended
                           Examples.toLong Examples.emptyFunction
                           Examples.warningsOn))
                 D_checkIncorrectStringCompare).
    + reflexivity.
    + reflexivity.
    + simpl. lia.
  - apply (proj1 (proj2 (proj2 (C4_scope_boundaries_amended
                                  Examples.toLong Examples.pointerCompare
                                  Examples.warningsOn)))
                 D_checkSuspiciousStringCompare
                 [suspiciousStringCompareError_char
                    11 (nth 11 (tokens Examples.pointerCompare) (Examples.T_op ""))
                    "p"]).
    + cbn. tauto.
    + reflexivity.
    + left. reflexivity.
  - apply (proj2 (proj2 (proj2 (C4_scope_boundaries_amended
                                  Examples.toLong MoreExamples.literalCondition
                                  Examples.warningsOn)))
             ltac:(intros j t l Hj Hstr Hl;
                   do 12 (destruct j as [|j];
                          [ injection Hj as <-; simpl in Hstr, Hl;
                            first [ discriminate Hstr
                                  | injection Hl as <-; lia ] | ]);
                   destruct j; discriminate Hj)
             [literalAsBoolean 7 (Examples.q "abc")]).
    + reflexivity.
    + left. reflexivity.
Defined.

(** C4, as stated, fails on [globalCompare]: the token list has no function
    scope, and [checkAlwaysTrueOrFalseStringCompare] reports a finding
    located at its token 3. *)
Lemma C4_counterexample :
  functionScopes Examples.globalCompare = []
  /\ exists d,
      checkAlwaysTrueOrFalseStringCompare Examples.globalCompare
                                          Examples.warningsOn = Ret [d]
      /\ callstack d = [3]
      /\ ~ exists s, In s (functionScopes Examples.globalCompare)
                     /\ inScope s 3.
Proof.
  split; [reflexivity|]. eexists. split; [reflexivity|]. split; [reflexivity|].
  intros (s & [] & _).
Qed.
